(** * Frame index engine of the live viewer: merge, playback and backfill

    A shallow embedding of the [useFrameIndex] hook (the frame
    synchronisation and playback engine) together with the properties
    its specification states about it.

    Modelling conventions.
    - Epoch-millisecond timestamps and array indices are JavaScript
      numbers that only ever hold integers here; they are [Z].  The
      sentinel index [-1] is kept as [-1].
    - [null] / [undefined] are [None].
    - The speed factor, the desired lag and the timer delays are
      JavaScript numbers that hold fractions; they are exact rationals
      [Q].  [Math.max] / [Math.min] only select one of their arguments.
    - A JavaScript [Map] keyed by epoch is a [gmap Z]; a [Set<number>]
      is the list of its members in insertion order.
    - [setFrameState] hands its updater to React, which runs it during
      the call when nothing is queued for the component and at the
      next render otherwise; [stateRef.current] is assigned inside the
      updater.  The development has two layers.  On an [Engine] every
      updater is applied as soon as it is handed over: [state] is the
      state of the next render, and a function on an [Engine] is the
      hook as it behaves when React runs each updater during the call.
      A [Hook] adds what [stateRef.current] shows, and each function
      on it takes React's choice as an argument.  What the state
      updaters do to the state is stated on the first layer; what the
      hook reads right after an update (the result of [mergeFrames],
      the cursor of backfill, the arming of timers) is stated on the
      second, for every choice of React. *)

From Stdlib Require Import ZArith QArith Qminmax Lia Lqa.
From stdpp Require Import base decidable option list sorting gmap.

Local Close Scope Q_scope.
Local Open Scope Z_scope.

(** ** JavaScript array, Set and Math primitives used by the hook *)

Module Js.

(** [arr.length] *)
Definition length {A} (l : list A) : Z := Z.of_nat (List.length l).

(** [arr[i]]: [undefined] outside of [0 .. length-1]. *)
Definition nth {A} (l : list A) (i : Z) : option A :=
  if decide (0 ≤ i) then l !! Z.to_nat i else None.

(** [arr.indexOf(x)] scanning from position [i]. *)
Fixpoint indexOf_from (l : list Z) (x : Z) (i : Z) : Z :=
  match l with
  | [] => -1
  | y :: l' => if decide (y = x) then i else indexOf_from l' x (i + 1)
  end.

(** [arr.indexOf(x)]: first position holding [x], or [-1]. *)
Definition indexOf (l : list Z) (x : Z) : Z := indexOf_from l x 0.

(** [set.add(x)] on a Set kept in insertion order. *)
Definition Set_add (s : list Z) (x : Z) : list Z :=
  if decide (x ∈ s) then s else s ++ [x].

(** [new Set(arr)] *)
Definition Set_of (l : list Z) : list Z := foldl Set_add [] l.

(** [arr.sort((a, b) => a - b)] *)
Definition sort_num (l : list Z) : list Z := merge_sort Z.le l.

(** [Math.max(a, b)] and [Math.min(a, b)] on finite numbers. *)
Definition Math_max (a b : Q) : Q := if Qle_bool a b then b else a.
Definition Math_min (a b : Q) : Q := if Qle_bool a b then a else b.

(** [arr.slice(1)] *)
Definition slice1 {A} (l : list A) : list A := drop 1 l.

End Js.

(** ** Constants of the hook *)

Definition BACKFILL_STEP_MS : Z := 10000.
Definition BACKFILL_CONCURRENCY : nat := 10.
Definition DEFAULT_DESIRED_LAG_MS : Q := inject_Z 10000.
Definition MIN_FRAME_MS : Q := inject_Z 150.
Definition MAX_FRAME_MS : Q := inject_Z 4000.
Definition MAX_SPEED_FACTOR : Q := inject_Z 10.

(** ** Helpers of [utils/timestampUtils] *)

(** What the hook reads from a frame.  [windowEpoch f] stands for
    [toEpochMillis(f.rfc460Timestamp)] on a window frame, [detailsEpoch]
    for the same on a details frame, and [windowIsTerminal f] for
    [isTerminalGameState(f.gameState)].  The frame types and these two
    helpers are declared outside the hook; every result below holds for
    any choice of them. *)
Class FrameAccess (FrameWindow FrameDetails : Type) := {
  windowEpoch : FrameWindow → Z;
  detailsEpoch : FrameDetails → Z;
  windowIsTerminal : FrameWindow → bool
}.

(** Modelled from the spec: [findClosestTimestampIndex] of
    [utils/timestampUtils] is not part of the sources at hand.  The
    specification describes its result as "the index closest to the
    requested timestamp"; the hook treats a negative result as "no
    index".  The model returns the first index whose timestamp has the
    least distance to [epoch], and [-1] on an empty array. *)
Fixpoint findClosest_from (l : list Z) (epoch : Z) (i best bestDiff : Z) : Z :=
  match l with
  | [] => best
  | t :: l' =>
      let diff := Z.abs (t - epoch) in
      if decide (diff < bestDiff)
      then findClosest_from l' epoch (i + 1) i diff
      else findClosest_from l' epoch (i + 1) best bestDiff
  end.

Definition findClosestTimestampIndex (timestamps : list Z) (epoch : Z) : Z :=
  match timestamps with
  | [] => -1
  | t :: l' => findClosest_from l' epoch 1 0 (Z.abs (t - epoch))
  end.

(** Modelled from the spec: [roundToPrevious10s] of
    [utils/timestampUtils] is not part of the sources at hand.  The
    specification has the backfill cursor "rounded down to the feed's
    granularity", a 10-second boundary; on epoch milliseconds that is
    the greatest multiple of 10000 not above the argument. *)
Definition roundToPrevious10s (epoch : Z) : Z := 10000 * (epoch `div` 10000).

(** The index invariant: each timestamp is below all later ones. *)
Definition strictlyIncreasing (l : list Z) : Prop := StronglySorted Z.lt l.

(** Order on what a pointer resolves to: nothing displayed yet comes
    before every timestamp, and timestamps compare as numbers. *)
Definition notBefore (earlier later : option Z) : Prop :=
  match earlier, later with
  | None, _ => True
  | Some a, Some b => a ≤ b
  | Some _, None => False
  end.

(** ** The state of the hook *)

Section Engine.
Context {FrameWindow FrameDetails GameMetadata : Type}.
Context `{!FrameAccess FrameWindow FrameDetails}.

(** [interface FrameIndexState] *)
Record FrameIndexState := mkFrameIndexState {
  framesWindow : gmap Z FrameWindow;
  framesDetails : gmap Z FrameDetails;
  orderedTimestamps : list Z;
  hasFirstFrame : bool;
  isBackfilling : bool;
  livePointer : Z;
  playbackPointer : option Z;
  metadata : option GameMetadata;
  isFinal : bool;
  isLivePaused : bool;
  desiredLagMs : Q;
  speedFactor : Q;
  displayIndex : Z;
  playQueue : list Z
}.

(** [interface MergeResult] *)
Record MergeResult := mkMergeResult {
  changed : bool;
  addedEarlier : bool;
  addedLater : bool;
  hasFramesAfter : bool
}.

Definition createInitialState : FrameIndexState :=
  {| framesWindow := ∅;
     framesDetails := ∅;
     orderedTimestamps := [];
     hasFirstFrame := false;
     isBackfilling := false;
     livePointer := -1;
     playbackPointer := None;
     metadata := None;
     isFinal := false;
     isLivePaused := false;
     desiredLagMs := DEFAULT_DESIRED_LAG_MS;
     speedFactor := inject_Z 1;
     displayIndex := -1;
     playQueue := [] |}.

(** The projections the hook returns to its consumers. *)
Definition displayedTs (s : FrameIndexState) : option Z :=
  if decide (0 ≤ displayIndex s ∧ displayIndex s < Js.length (orderedTimestamps s))
  then Js.nth (orderedTimestamps s) (displayIndex s)
  else None.

Definition isLive (s : FrameIndexState) : bool :=
  bool_decide (playbackPointer s = None).

Definition selectedTimestamp (s : FrameIndexState) : option Z :=
  match playbackPointer s with
  | Some p => if decide (0 ≤ p) then Js.nth (orderedTimestamps s) p else None
  | None => None
  end.

(** ** [mergeFrames] *)

(** [map.has(epoch)] *)
Definition has {V} (m : gmap Z V) (epoch : Z) : bool :=
  bool_decide (is_Some (m !! epoch)).

(** One round of the [forEach] bodies on the set of new later
    timestamps: the epoch is recorded when neither payload map of
    [prev] knows it and it lies after the previous latest timestamp. *)
Definition noteLater (prev : FrameIndexState) (prevLatestTs : option Z)
    (newLaterFrames : list Z) (epoch : Z) : list Z :=
  if negb (has (framesWindow prev) epoch) && negb (has (framesDetails prev) epoch)
  then
    match prevLatestTs with
    | None => Js.Set_add newLaterFrames epoch
    | Some latest =>
        if decide (epoch > latest) then Js.Set_add newLaterFrames epoch
        else newLaterFrames
    end
  else newLaterFrames.

(** The play-queue indices re-located by timestamp after earlier
    frames were added. *)
Definition adjustQueue (prevTimestamps sortedTimestamps queue : list Z) : list Z :=
  flat_map
    (λ queueIndex,
       match Js.nth prevTimestamps queueIndex with
       | Some queueTimestamp =>
           let newIndex := Js.indexOf sortedTimestamps queueTimestamp in
           if decide (newIndex ≠ -1) then [newIndex] else []
       | None => []
       end)
    queue.

Definition mergeFrames (windowFrames : list FrameWindow)
    (detailFrames : list FrameDetails) (metadataArg : option GameMetadata)
    (prev : FrameIndexState) : FrameIndexState * MergeResult :=
  let hasFramesBefore := bool_decide (Js.length (orderedTimestamps prev) > 0) in
  let hasPayload :=
    bool_decide (Js.length windowFrames > 0) || bool_decide (Js.length detailFrames > 0) in
  let shouldSetMetadata :=
    bool_decide (is_Some metadataArg) && negb (bool_decide (is_Some (metadata prev))) in
  if negb hasPayload && negb shouldSetMetadata
  then (prev, mkMergeResult false false false hasFramesBefore)
  else
  let hasTerminalState := existsb windowIsTerminal windowFrames in
  (* the updater passed to setFrameState *)
  let windowEpochs := windowEpoch <$> windowFrames in
  let detailEpochs := detailsEpoch <$> detailFrames in
  let prevLatestTs := last (orderedTimestamps prev) in
  let prevDisplayTs := displayedTs prev in
  let currentTimestampToMaintain :=
    match playbackPointer prev with
    | Some p => Js.nth (orderedTimestamps prev) p
    | None => prevDisplayTs
    end in
  let newLaterFrames :=
    foldl (noteLater prev prevLatestTs)
      (foldl (noteLater prev prevLatestTs) [] windowEpochs) detailEpochs in
  let nextWindow :=
    foldl (λ m frame, <[windowEpoch frame := frame]> m) (framesWindow prev) windowFrames in
  let nextDetails :=
    foldl (λ m frame, <[detailsEpoch frame := frame]> m) (framesDetails prev) detailFrames in
  let timestampSet :=
    foldl Js.Set_add
      (foldl Js.Set_add (Js.Set_of (orderedTimestamps prev)) windowEpochs) detailEpochs in
  let sortedTimestamps := Js.sort_num timestampSet in
  let hasFramesAfter := bool_decide (Js.length sortedTimestamps > 0) in
  let metadataToUse :=
    match metadata prev with Some m => Some m | None => metadataArg end in
  let metadataMutated :=
    negb (bool_decide (is_Some (metadata prev))) && bool_decide (is_Some metadataArg) in
  let timestampsChanged :=
    negb (bool_decide (sortedTimestamps = orderedTimestamps prev)) in
  if negb hasPayload && negb timestampsChanged && negb metadataMutated
  then (prev, mkMergeResult false false false hasFramesAfter)
  else
  let prevEarliest := head (orderedTimestamps prev) in
  let prevLatest := last (orderedTimestamps prev) in
  let didAddEarlier :=
    match head sortedTimestamps with
    | Some first =>
        match prevEarliest with
        | None => true
        | Some earliest => bool_decide (first < earliest)
        end
    | None => false
    end in
  let didAddLater :=
    match last sortedTimestamps with
    | Some final =>
        match prevLatest with
        | None => true
        | Some latest => bool_decide (final > latest)
        end
    | None => false
    end in
  let livePointer' :=
    if decide (Js.length sortedTimestamps > 0)
    then Js.length sortedTimestamps - 1 else -1 in
  let playbackPointer' :=
    match playbackPointer prev with
    | Some p =>
        match Js.nth (orderedTimestamps prev) p with
        | Some prevPointerTs =>
            let newIndex := Js.indexOf sortedTimestamps prevPointerTs in
            if decide (newIndex = -1) then None else Some newIndex
        | None => None
        end
    | None => None
    end in
  let displayIndex1 :=
    if decide (Js.length sortedTimestamps = 0) then -1
    else
      let d :=
        match prevDisplayTs with
        | Some ts =>
            let newIndex := Js.indexOf sortedTimestamps ts in
            if decide (newIndex ≠ -1) then newIndex
            else if decide (playbackPointer prev = None) then livePointer'
            else displayIndex prev
        | None => displayIndex prev
        end in
      let d := if decide (d >= Js.length sortedTimestamps)
               then Js.length sortedTimestamps - 1 else d in
      if decide (d < 0 ∧ playbackPointer' = None ∧ livePointer' >= 0)
      then livePointer' else d in
  let playQueue1 :=
    if decide (playbackPointer prev = None ∧ Js.length newLaterFrames > 0)
    then
      let newLaterSorted := Js.sort_num newLaterFrames in
      let lastQueuedIndex :=
        match last (playQueue prev) with
        | Some q => q
        | None => if decide (displayIndex1 >= 0) then displayIndex1 else livePointer'
        end in
      let newIndices :=
        filter (λ newIndex, newIndex > lastQueuedIndex)
               (Js.indexOf sortedTimestamps <$> newLaterSorted) in
      if decide (Js.length newIndices > 0)
      then Js.sort_num (Js.Set_of (playQueue prev ++ newIndices))
      else playQueue prev
    else playQueue prev in
  let playQueue2 :=
    if decide (didAddEarlier = true ∧ playbackPointer prev = None
               ∧ Js.length (playQueue prev) > 0)
    then Js.sort_num (adjustQueue (orderedTimestamps prev) sortedTimestamps (playQueue prev))
    else playQueue1 in
  let displayIndex2 :=
    if decide (didAddEarlier = true ∧ playbackPointer prev = None)
    then
      match currentTimestampToMaintain with
      | Some ts =>
          let maintainedIndex := Js.indexOf sortedTimestamps ts in
          if decide (maintainedIndex ≠ -1) then maintainedIndex else displayIndex1
      | None => displayIndex1
      end
    else displayIndex1 in
  let displayIndex3 :=
    if decide (playbackPointer prev = None ∧ displayIndex2 >= 0)
    then
      match prevDisplayTs, Js.nth sortedTimestamps displayIndex2 with
      | Some prevTs, Some currentDisplayTimestamp =>
          if decide (currentDisplayTimestamp < prevTs)
          then
            let safeIndex := Js.indexOf sortedTimestamps prevTs in
            if decide (safeIndex ≠ -1) then safeIndex else displayIndex2
          else displayIndex2
      | _, _ => displayIndex2
      end
    else displayIndex2 in
  let existingTerminal :=
    isFinal prev || existsb windowIsTerminal (snd <$> map_to_list nextWindow) in
  let nextIsFinal := existingTerminal || hasTerminalState in
  ({| framesWindow := nextWindow;
      framesDetails := nextDetails;
      orderedTimestamps := sortedTimestamps;
      hasFirstFrame := hasFirstFrame prev;
      isBackfilling := isBackfilling prev;
      livePointer := livePointer';
      playbackPointer := playbackPointer';
      metadata := metadataToUse;
      isFinal := nextIsFinal;
      isLivePaused := isLivePaused prev;
      desiredLagMs := desiredLagMs prev;
      speedFactor := speedFactor prev;
      displayIndex := displayIndex3;
      playQueue := playQueue2 |},
   mkMergeResult true didAddEarlier didAddLater hasFramesAfter).

(** ** Field updates ([{ ...prev, field: value }]) *)

Definition with_isBackfilling (b : bool) (s : FrameIndexState) : FrameIndexState :=
  mkFrameIndexState (framesWindow s) (framesDetails s) (orderedTimestamps s)
    (hasFirstFrame s) b (livePointer s) (playbackPointer s) (metadata s)
    (isFinal s) (isLivePaused s) (desiredLagMs s) (speedFactor s)
    (displayIndex s) (playQueue s).

Definition with_hasFirstFrame (b : bool) (s : FrameIndexState) : FrameIndexState :=
  mkFrameIndexState (framesWindow s) (framesDetails s) (orderedTimestamps s)
    b (isBackfilling s) (livePointer s) (playbackPointer s) (metadata s)
    (isFinal s) (isLivePaused s) (desiredLagMs s) (speedFactor s)
    (displayIndex s) (playQueue s).

Definition with_isLivePaused (b : bool) (s : FrameIndexState) : FrameIndexState :=
  mkFrameIndexState (framesWindow s) (framesDetails s) (orderedTimestamps s)
    (hasFirstFrame s) (isBackfilling s) (livePointer s) (playbackPointer s)
    (metadata s) (isFinal s) b (desiredLagMs s) (speedFactor s)
    (displayIndex s) (playQueue s).

Definition with_desiredLagMs (ms : Q) (s : FrameIndexState) : FrameIndexState :=
  mkFrameIndexState (framesWindow s) (framesDetails s) (orderedTimestamps s)
    (hasFirstFrame s) (isBackfilling s) (livePointer s) (playbackPointer s)
    (metadata s) (isFinal s) (isLivePaused s) ms (speedFactor s)
    (displayIndex s) (playQueue s).

Definition with_speedFactor (factor : Q) (s : FrameIndexState) : FrameIndexState :=
  mkFrameIndexState (framesWindow s) (framesDetails s) (orderedTimestamps s)
    (hasFirstFrame s) (isBackfilling s) (livePointer s) (playbackPointer s)
    (metadata s) (isFinal s) (isLivePaused s) (desiredLagMs s) factor
    (displayIndex s) (playQueue s).

Definition with_playbackPointer (p : option Z) (s : FrameIndexState) : FrameIndexState :=
  mkFrameIndexState (framesWindow s) (framesDetails s) (orderedTimestamps s)
    (hasFirstFrame s) (isBackfilling s) (livePointer s) p (metadata s)
    (isFinal s) (isLivePaused s) (desiredLagMs s) (speedFactor s)
    (displayIndex s) (playQueue s).

Definition with_displayIndex (i : Z) (s : FrameIndexState) : FrameIndexState :=
  mkFrameIndexState (framesWindow s) (framesDetails s) (orderedTimestamps s)
    (hasFirstFrame s) (isBackfilling s) (livePointer s) (playbackPointer s)
    (metadata s) (isFinal s) (isLivePaused s) (desiredLagMs s) (speedFactor s)
    i (playQueue s).

Definition with_playQueue (q : list Z) (s : FrameIndexState) : FrameIndexState :=
  mkFrameIndexState (framesWindow s) (framesDetails s) (orderedTimestamps s)
    (hasFirstFrame s) (isBackfilling s) (livePointer s) (playbackPointer s)
    (metadata s) (isFinal s) (isLivePaused s) (desiredLagMs s) (speedFactor s)
    (displayIndex s) q.

(** ** State updaters of the playback and mode controls *)

(** The updater of [markHasFirstFrame]. *)
Definition markHasFirstFrame_state (prev : FrameIndexState) : FrameIndexState :=
  if hasFirstFrame prev
  then (if isBackfilling prev then with_isBackfilling false prev else prev)
  else with_hasFirstFrame true (with_isBackfilling false prev).

(** The updater of [showNextFrame]. *)
Definition showNextFrame_state (prev : FrameIndexState) : FrameIndexState :=
  match playbackPointer prev with
  | Some p =>
      let nextIndex := p + 1 in
      let livePtr := livePointer prev in
      if decide (nextIndex ≤ livePtr)
      then with_displayIndex nextIndex (with_playbackPointer (Some nextIndex) prev)
      else if negb (isFinal prev)
      then with_isLivePaused false
             (with_displayIndex (livePointer prev) (with_playbackPointer None prev))
      else with_isLivePaused true prev
  | None =>
      match playQueue prev with
      | [] => prev
      | nextIndex :: _ =>
          if isLivePaused prev then prev
          else with_playQueue (Js.slice1 (playQueue prev)) (with_displayIndex nextIndex prev)
      end
  end.

(** The updater of [setSpeedFactor]. *)
Definition setSpeedFactor_state (factor : Q) (prev : FrameIndexState) : FrameIndexState :=
  with_speedFactor (Js.Math_max (1 # 2) (Js.Math_min MAX_SPEED_FACTOR factor)) prev.

(** The updater of [goLive]. *)
Definition goLive_state (prev : FrameIndexState) : FrameIndexState :=
  match playbackPointer prev with
  | None => prev
  | Some _ =>
      with_isLivePaused false
        (with_displayIndex (livePointer prev) (with_playbackPointer None prev))
  end.

(** The per-step delay of the scheduler: the inter-frame delta divided
    by the speed factor, clamped to [MIN_FRAME_MS .. MAX_FRAME_MS].  A
    positive delta over a zero speed factor is [+Infinity] in
    JavaScript, which the clamp turns into [MAX_FRAME_MS]. *)
Definition stepDelay (rawDelta : Z) (factor : Q) : Q :=
  if decide (rawDelta > 0)
  then
    if Qeq_bool factor (inject_Z 0) then MAX_FRAME_MS
    else
      let adjustedDelta := (inject_Z rawDelta / factor)%Q in
      Js.Math_max MIN_FRAME_MS (Js.Math_min MAX_FRAME_MS adjustedDelta)
  else Js.Math_max MIN_FRAME_MS (Js.Math_min MAX_FRAME_MS MIN_FRAME_MS).

(** The inter-frame delta [scheduleNextFrame] bases its delay on, or
    [None] when it arms no timer: in manual mode the gap between the
    playback pointer's timestamp and the next one, in live mode the
    gap between the displayed timestamp and the head of the play
    queue. *)
Definition nextRawDelta (currentState : FrameIndexState) : option Z :=
  match playbackPointer currentState with
  | Some p =>
      if isLivePaused currentState || bool_decide (p >= livePointer currentState)
      then None
      else
        match Js.nth (orderedTimestamps currentState) (p + 1),
              Js.nth (orderedTimestamps currentState) p with
        | Some nextTs, Some currentTs => Some (nextTs - currentTs)
        | _, _ => None
        end
  | None =>
      match playQueue currentState with
      | [] => None
      | nextIndex :: _ =>
          if isLivePaused currentState then None
          else
            match Js.nth (orderedTimestamps currentState) nextIndex with
            | None => None
            | Some nextTs =>
                let previousIndex :=
                  if decide (displayIndex currentState >= 0)
                  then displayIndex currentState else nextIndex - 1 in
                let previousTs :=
                  if decide (previousIndex >= 0)
                  then Js.nth (orderedTimestamps currentState) previousIndex
                  else None in
                Some match previousTs with
                     | Some prevTs => nextTs - prevTs
                     | None => 150
                     end
            end
      end
  end.

(** ** The hook instance: state plus the refs it keeps beside it *)

(** [schedulerTimerRef] holds the delay of the pending timeout whose
    callback is [showNextFrame(); scheduleNextFrame()]. *)
Record Engine := mkEngine {
  state : FrameIndexState;
  isMountedRef : bool;
  backfillRunningRef : bool;
  backfillStartedRef : bool;
  cancelBackfillRef : bool;
  backfillCursorRef : option Z;
  schedulerTimerRef : option Q;
  anchorTsRef : option Z
}.

Definition with_state (s : FrameIndexState) (e : Engine) : Engine :=
  mkEngine s (isMountedRef e) (backfillRunningRef e) (backfillStartedRef e)
    (cancelBackfillRef e) (backfillCursorRef e) (schedulerTimerRef e) (anchorTsRef e).

Definition with_schedulerTimer (t : option Q) (e : Engine) : Engine :=
  mkEngine (state e) (isMountedRef e) (backfillRunningRef e) (backfillStartedRef e)
    (cancelBackfillRef e) (backfillCursorRef e) t (anchorTsRef e).

Definition with_backfillCursor (c : option Z) (e : Engine) : Engine :=
  mkEngine (state e) (isMountedRef e) (backfillRunningRef e) (backfillStartedRef e)
    (cancelBackfillRef e) c (schedulerTimerRef e) (anchorTsRef e).

Definition with_anchorTs (ts : option Z) (e : Engine) : Engine :=
  mkEngine (state e) (isMountedRef e) (backfillRunningRef e) (backfillStartedRef e)
    (cancelBackfillRef e) (backfillCursorRef e) (schedulerTimerRef e) ts.

Definition with_backfillFlags (running started cancel : bool) (e : Engine) : Engine :=
  mkEngine (state e) (isMountedRef e) running started cancel
    (backfillCursorRef e) (schedulerTimerRef e) (anchorTsRef e).

(** A freshly mounted hook. *)
Definition mountEngine : Engine :=
  mkEngine createInitialState true false false false None None (Some 0).

(** [setFrameState(updater)], the updater applied as soon as it is
    handed over. *)
Definition setFrameState (updater : FrameIndexState → FrameIndexState) (e : Engine) : Engine :=
  with_state (updater (state e)) e.

(** [mergeFrames] as a call on the hook when React runs the updater
    during the call; [mergeFramesH] is the call in general. *)
Definition mergeFramesE (windowFrames : list FrameWindow)
    (detailFrames : list FrameDetails) (metadataArg : option GameMetadata)
    (e : Engine) : Engine * MergeResult :=
  let r := mergeFrames windowFrames detailFrames metadataArg (state e) in
  (with_state r.1 e, r.2).

Definition markHasFirstFrame (e : Engine) : Engine :=
  with_backfillCursor None (setFrameState markHasFirstFrame_state e).

Definition stopScheduler (e : Engine) : Engine :=
  with_schedulerTimer None e.

Definition showNextFrame (e : Engine) : Engine :=
  if negb (isMountedRef e) then e else setFrameState showNextFrame_state e.

Definition scheduleNextFrame (e : Engine) : Engine :=
  if negb (isMountedRef e) then e
  else
    let currentState := state e in
    match playbackPointer currentState with
    | Some p =>
        if isLivePaused currentState || bool_decide (p >= livePointer currentState)
        then with_schedulerTimer None e
        else
          let nextIndex := p + 1 in
          match Js.nth (orderedTimestamps currentState) nextIndex,
                Js.nth (orderedTimestamps currentState) p with
          | Some nextTs, Some currentTs =>
              let rawDelta := nextTs - currentTs in
              with_schedulerTimer (Some (stepDelay rawDelta (speedFactor currentState))) e
          | _, _ => with_schedulerTimer None e
          end
    | None =>
        match playQueue currentState with
        | [] => with_schedulerTimer None e
        | nextIndex :: _ =>
            if isLivePaused currentState then with_schedulerTimer None e
            else
              match Js.nth (orderedTimestamps currentState) nextIndex with
              | None => with_schedulerTimer None e
              | Some nextTs =>
                  let previousIndex :=
                    if decide (displayIndex currentState >= 0)
                    then displayIndex currentState else nextIndex - 1 in
                  let previousTs :=
                    if decide (previousIndex >= 0)
                    then Js.nth (orderedTimestamps currentState) previousIndex
                    else None in
                  let rawDelta :=
                    match previousTs with
                    | Some prevTs => nextTs - prevTs
                    | None => 150
                    end in
                  with_schedulerTimer
                    (Some (stepDelay rawDelta (speedFactor currentState))) e
              end
        end
    end.

(** The pending timeout fires; [scheduleNextFrame] reads the state
    that [showNextFrame] leaves, as it does when React runs the
    updater during the call ([schedulerTickH] is the general case). *)
Definition schedulerTick (e : Engine) : Engine :=
  scheduleNextFrame (showNextFrame e).

Definition startScheduler (e : Engine) : Engine :=
  match schedulerTimerRef e with
  | Some _ => e
  | None =>
      let currentState := state e in
      let e1 :=
        if decide (Js.length (orderedTimestamps currentState) > 0)
        then
          let displayTs :=
            if decide (displayIndex currentState >= 0)
            then Js.nth (orderedTimestamps currentState) (displayIndex currentState)
            else Js.nth (orderedTimestamps currentState) 0 in
          with_anchorTs displayTs e
        else e in
      scheduleNextFrame e1
  end.

Definition pauseLive (e : Engine) : Engine :=
  setFrameState (with_isLivePaused true) (stopScheduler e).

(** [resumeLive] when React runs the updater during the call, so that
    [startScheduler] reads the cleared pause flag ([resumeLiveH] is the
    general case). *)
Definition resumeLive (e : Engine) : Engine :=
  startScheduler (setFrameState (with_isLivePaused false) e).

Definition setDesiredLagMs (ms : Q) (e : Engine) : Engine :=
  setFrameState (with_desiredLagMs ms) e.

Definition setSpeedFactor (factor : Q) (e : Engine) : Engine :=
  setFrameState (setSpeedFactor_state factor) e.

Definition goLive (e : Engine) : Engine :=
  let e1 := setFrameState goLive_state e in
  match schedulerTimerRef e1 with
  | None => startScheduler e1
  | Some _ => e1
  end.

(** [setPlaybackByEpoch], the [scrubTo] command.  [stopScheduler] is
    called from inside the updater, on the path that changes the
    state. *)
Definition setPlaybackByEpoch (epoch : Z) (e : Engine) : Engine :=
  let prev := state e in
  if decide (Js.length (orderedTimestamps prev) = 0) then e
  else
    let index := findClosestTimestampIndex (orderedTimestamps prev) epoch in
    if decide (index < 0) then e
    else if decide (playbackPointer prev = Some index) then e
    else
      with_state
        (with_isLivePaused true
           (with_displayIndex index (with_playbackPointer (Some index) prev)))
        (stopScheduler e).

(** ** [runBackfill] *)

(** What one [fetchChunk] call resolves to. *)
Definition Chunk : Type :=
  list FrameWindow * list FrameDetails * option GameMetadata.

(** The restart of the scheduler that follows backfill work while the
    session is live and not paused. *)
Definition ensureScheduler (e : Engine) : Engine :=
  if bool_decide (Js.length (orderedTimestamps (state e)) > 0)
     && bool_decide (playbackPointer (state e) = None)
     && negb (isLivePaused (state e))
     && bool_decide (schedulerTimerRef e = None)
  then startScheduler e else e.

(** The bookkeeping of one batch while its settled results are
    processed; [earliestFetchedTimestamp = None] is the initial
    [Number.POSITIVE_INFINITY]. *)
Record BatchProgress := mkBatchProgress {
  batchEngine : Engine;
  anyProgress : bool;
  sawFrames : bool;
  earliestFetchedTimestamp : option Z
}.

(** One settled request.  [None] is a request that gave up after its
    retries (the promise resolved to [null]) or was rejected.  The
    result of [mergeFrames] is the one of an updater run during the
    call ([processResultH] is the general case). *)
Definition processResult (acc : BatchProgress) (result : option Chunk * Z)
    : BatchProgress :=
  match result with
  | (Some (windowFrames, detailFrames, metadataArg), targetCursor) =>
      if bool_decide (Js.length windowFrames > 0)
         || bool_decide (Js.length detailFrames > 0)
      then
        let r := mergeFramesE windowFrames detailFrames metadataArg (batchEngine acc) in
        mkBatchProgress r.1
          (if changed r.2 then true else anyProgress acc)
          true
          (match earliestFetchedTimestamp acc with
           | None => Some targetCursor
           | Some earliest =>
               if decide (targetCursor < earliest) then Some targetCursor
               else Some earliest
           end)
      else acc
  | (None, _) => acc
  end.

(** One pass through the body of the [while] loop.  [fetch] gives the
    final outcome of the request for each target cursor.  The boolean
    is [true] when the loop goes round again and [false] on [break].
    Every read of [stateRef.current] sees the updaters handed over
    before it applied ([backfillPassH] is the general case). *)
Definition backfillIteration (fetch : Z → option Chunk) (e : Engine) : Engine * bool :=
  let currentState := state e in
  if hasFirstFrame currentState then (e, false)
  else if decide (Js.length (orderedTimestamps currentState) = 0) then (e, false)
  else
    let initialised :=
      match backfillCursorRef e with
      | Some _ => Some e
      | None =>
          match Js.nth (orderedTimestamps currentState) 0 with
          | None => None
          | Some anchorTs =>
              Some (with_backfillCursor
                      (Some (roundToPrevious10s anchorTs - BACKFILL_STEP_MS)) e)
          end
      end in
    match initialised with
    | None => (e, false)
    | Some e1 =>
        let currentCursor := default 0 (backfillCursorRef e1) in
        let targetTimestamps :=
          (λ i : nat, currentCursor - BACKFILL_STEP_MS * Z.of_nat i)
            <$> seq 0 BACKFILL_CONCURRENCY in
        if decide (Js.length targetTimestamps = 0) then (markHasFirstFrame e1, false)
        else
          let results := (λ targetCursor, (fetch targetCursor, targetCursor))
                           <$> targetTimestamps in
          let acc := foldl processResult (mkBatchProgress e1 false false None) results in
          let e2 := batchEngine acc in
          if anyProgress acc
          then
            match Js.nth (orderedTimestamps (state e2)) 0 with
            | None => (markHasFirstFrame e2, false)
            | Some updatedEarliest =>
                (ensureScheduler
                   (with_backfillCursor
                      (Some (roundToPrevious10s updatedEarliest - BACKFILL_STEP_MS)) e2),
                 true)
            end
          else if negb (sawFrames acc) then (markHasFirstFrame e2, false)
          else
            let fallbackCursor :=
              match earliestFetchedTimestamp acc with
              | Some earliest => Some (earliest - BACKFILL_STEP_MS)
              | None =>
                  match Js.nth (orderedTimestamps (state e2)) 0 with
                  | Some updatedEarliest =>
                      Some (roundToPrevious10s updatedEarliest - BACKFILL_STEP_MS)
                  | None => None
                  end
              end in
            match fallbackCursor with
            | None => (markHasFirstFrame e2, false)
            | Some c => (ensureScheduler (with_backfillCursor (Some c) e2), true)
            end
    end.

(** The [while] loop, for at most [fuel] passes through its body.
    [None]: the loop is still running after [fuel] passes. *)
Fixpoint backfillLoop (fuel : nat) (fetch : Z → option Chunk) (e : Engine)
    : option Engine :=
  if isMountedRef e && negb (cancelBackfillRef e)
  then
    match fuel with
    | O => None
    | S fuel' =>
        let r := backfillIteration fetch e in
        if r.2 then backfillLoop fuel' fetch r.1 else Some r.1
    end
  else Some e.

(** The [finally] block of [runBackfill], [stateRef.current] showing
    the state with every updater applied ([backfillFinallyH] is the
    general case). *)
Definition backfillFinally (e : Engine) : Engine :=
  let e1 := with_backfillFlags false (hasFirstFrame (state e)) (cancelBackfillRef e) e in
  let e2 := setFrameState
              (λ prev, if isBackfilling prev then with_isBackfilling false prev else prev)
              e1 in
  ensureScheduler e2.

(** [runBackfill] for a non-empty [gameId]. *)
Definition runBackfill (fuel : nat) (fetch : Z → option Chunk) (e : Engine)
    : option Engine :=
  if backfillRunningRef e then Some e
  else
    let e1 := with_backfillFlags true (backfillStartedRef e) false e in
    let e2 := setFrameState
                (λ prev, if isBackfilling prev then prev else with_isBackfilling true prev)
                e1 in
    backfillFinally <$> backfillLoop fuel fetch e2.

(** ** The pieces of [mergeFrames], named

    The same computations as in the main path of [mergeFrames], one
    definition per local of the updater; [mergeFrames_unfold] below
    shows that [mergeFrames] is built of exactly these. *)

Definition mergedTimestamps (prev : FrameIndexState)
    (windowFrames : list FrameWindow) (detailFrames : list FrameDetails) : list Z :=
  Js.sort_num
    (foldl Js.Set_add
       (foldl Js.Set_add (Js.Set_of (orderedTimestamps prev))
          (windowEpoch <$> windowFrames))
       (detailsEpoch <$> detailFrames)).

Definition mergedLater (prev : FrameIndexState)
    (windowFrames : list FrameWindow) (detailFrames : list FrameDetails) : list Z :=
  foldl (noteLater prev (last (orderedTimestamps prev)))
    (foldl (noteLater prev (last (orderedTimestamps prev))) []
       (windowEpoch <$> windowFrames))
    (detailsEpoch <$> detailFrames).

Definition mergedWindow (prev : FrameIndexState) (windowFrames : list FrameWindow)
    : gmap Z FrameWindow :=
  foldl (λ m frame, <[windowEpoch frame := frame]> m) (framesWindow prev) windowFrames.

Definition mergedDetails (prev : FrameIndexState) (detailFrames : list FrameDetails)
    : gmap Z FrameDetails :=
  foldl (λ m frame, <[detailsEpoch frame := frame]> m) (framesDetails prev) detailFrames.

Definition mergedMetadata (prev : FrameIndexState) (metadataArg : option GameMetadata)
    : option GameMetadata :=
  match metadata prev with Some m => Some m | None => metadataArg end.

Definition didAddEarlier (prev : FrameIndexState) (sortedTimestamps : list Z) : bool :=
  match head sortedTimestamps with
  | Some first =>
      match head (orderedTimestamps prev) with
      | None => true
      | Some earliest => bool_decide (first < earliest)
      end
  | None => false
  end.

Definition didAddLater (prev : FrameIndexState) (sortedTimestamps : list Z) : bool :=
  match last sortedTimestamps with
  | Some final =>
      match last (orderedTimestamps prev) with
      | None => true
      | Some latest => bool_decide (final > latest)
      end
  | None => false
  end.

Definition mergedLivePointer (sortedTimestamps : list Z) : Z :=
  if decide (Js.length sortedTimestamps > 0)
  then Js.length sortedTimestamps - 1 else -1.

Definition mergedPlayback (prev : FrameIndexState) (sortedTimestamps : list Z)
    : option Z :=
  match playbackPointer prev with
  | Some p =>
      match Js.nth (orderedTimestamps prev) p with
      | Some prevPointerTs =>
          let newIndex := Js.indexOf sortedTimestamps prevPointerTs in
          if decide (newIndex = -1) then None else Some newIndex
      | None => None
      end
  | None => None
  end.

Definition mergedDisplay1 (prev : FrameIndexState) (sortedTimestamps : list Z) : Z :=
  if decide (Js.length sortedTimestamps = 0) then -1
  else
    let d :=
      match displayedTs prev with
      | Some ts =>
          let newIndex := Js.indexOf sortedTimestamps ts in
          if decide (newIndex ≠ -1) then newIndex
          else if decide (playbackPointer prev = None)
               then mergedLivePointer sortedTimestamps
               else displayIndex prev
      | None => displayIndex prev
      end in
    let d := if decide (d >= Js.length sortedTimestamps)
             then Js.length sortedTimestamps - 1 else d in
    if decide (d < 0 ∧ mergedPlayback prev sortedTimestamps = None
               ∧ mergedLivePointer sortedTimestamps >= 0)
    then mergedLivePointer sortedTimestamps else d.

Definition mergedDisplay2 (prev : FrameIndexState) (sortedTimestamps : list Z) : Z :=
  if decide (didAddEarlier prev sortedTimestamps = true ∧ playbackPointer prev = None)
  then
    match (match playbackPointer prev with
           | Some p => Js.nth (orderedTimestamps prev) p
           | None => displayedTs prev
           end) with
    | Some ts =>
        let maintainedIndex := Js.indexOf sortedTimestamps ts in
        if decide (maintainedIndex ≠ -1) then maintainedIndex
        else mergedDisplay1 prev sortedTimestamps
    | None => mergedDisplay1 prev sortedTimestamps
    end
  else mergedDisplay1 prev sortedTimestamps.

Definition mergedDisplay (prev : FrameIndexState) (sortedTimestamps : list Z) : Z :=
  if decide (playbackPointer prev = None ∧ mergedDisplay2 prev sortedTimestamps >= 0)
  then
    match displayedTs prev,
          Js.nth sortedTimestamps (mergedDisplay2 prev sortedTimestamps) with
    | Some prevTs, Some currentDisplayTimestamp =>
        if decide (currentDisplayTimestamp < prevTs)
        then
          let safeIndex := Js.indexOf sortedTimestamps prevTs in
          if decide (safeIndex ≠ -1) then safeIndex
          else mergedDisplay2 prev sortedTimestamps
        else mergedDisplay2 prev sortedTimestamps
    | _, _ => mergedDisplay2 prev sortedTimestamps
    end
  else mergedDisplay2 prev sortedTimestamps.

Definition mergedQueue (prev : FrameIndexState) (sortedTimestamps newLaterFrames : list Z)
    : list Z :=
  if decide (didAddEarlier prev sortedTimestamps = true ∧ playbackPointer prev = None
             ∧ Js.length (playQueue prev) > 0)
  then Js.sort_num (adjustQueue (orderedTimestamps prev) sortedTimestamps (playQueue prev))
  else
    if decide (playbackPointer prev = None ∧ Js.length newLaterFrames > 0)
    then
      let lastQueuedIndex :=
        match last (playQueue prev) with
        | Some q => q
        | None =>
            if decide (mergedDisplay1 prev sortedTimestamps >= 0)
            then mergedDisplay1 prev sortedTimestamps
            else mergedLivePointer sortedTimestamps
        end in
      let newIndices :=
        filter (λ newIndex, newIndex > lastQueuedIndex)
               (Js.indexOf sortedTimestamps <$> Js.sort_num newLaterFrames) in
      if decide (Js.length newIndices > 0)
      then Js.sort_num (Js.Set_of (playQueue prev ++ newIndices))
      else playQueue prev
    else playQueue prev.

Definition mergedFinal (prev : FrameIndexState) (windowFrames : list FrameWindow) : bool :=
  (isFinal prev
   || existsb windowIsTerminal (snd <$> map_to_list (mergedWindow prev windowFrames)))
  || existsb windowIsTerminal windowFrames.

(** The state built on the main path of [mergeFrames]. *)
Definition mergedState (windowFrames : list FrameWindow)
    (detailFrames : list FrameDetails) (metadataArg : option GameMetadata)
    (prev : FrameIndexState) : FrameIndexState :=
  let sortedTimestamps := mergedTimestamps prev windowFrames detailFrames in
  {| framesWindow := mergedWindow prev windowFrames;
     framesDetails := mergedDetails prev detailFrames;
     orderedTimestamps := sortedTimestamps;
     hasFirstFrame := hasFirstFrame prev;
     isBackfilling := isBackfilling prev;
     livePointer := mergedLivePointer sortedTimestamps;
     playbackPointer := mergedPlayback prev sortedTimestamps;
     metadata := mergedMetadata prev metadataArg;
     isFinal := mergedFinal prev windowFrames;
     isLivePaused := isLivePaused prev;
     desiredLagMs := desiredLagMs prev;
     speedFactor := speedFactor prev;
     displayIndex := mergedDisplay prev sortedTimestamps;
     playQueue :=
       mergedQueue prev sortedTimestamps (mergedLater prev windowFrames detailFrames) |}.

(** The two guards of [mergeFrames] that leave the state as it is. *)
Definition mergeSkips (windowFrames : list FrameWindow)
    (detailFrames : list FrameDetails) (metadataArg : option GameMetadata)
    (prev : FrameIndexState) : bool :=
  let hasPayload :=
    bool_decide (Js.length windowFrames > 0) || bool_decide (Js.length detailFrames > 0) in
  (negb hasPayload
   && negb (bool_decide (is_Some metadataArg)
            && negb (bool_decide (is_Some (metadata prev)))))
  || (negb hasPayload
      && negb (negb (bool_decide
                 (mergedTimestamps prev windowFrames detailFrames
                  = orderedTimestamps prev)))
      && negb (negb (bool_decide (is_Some (metadata prev)))
               && bool_decide (is_Some metadataArg))).

(** ** What a backfill request brings *)

(** A request that brought no frame: it resolved to an empty chunk,
    or gave up. *)
Definition noFrames (r : option Chunk) : Prop :=
  match r with
  | Some (windowFrames, detailFrames, _) => windowFrames = [] ∧ detailFrames = []
  | None => True
  end.

(** ** Commands and events as one step function *)

Inductive Action :=
  | AMerge (windowFrames : list FrameWindow) (detailFrames : list FrameDetails)
           (metadataArg : option GameMetadata)
  | ASchedulerTick
  | AStartScheduler
  | APauseLive
  | AResumeLive
  | ASetDesiredLagMs (ms : Q)
  | ASetSpeedFactor (factor : Q)
  | AGoLive
  | ASetPlaybackByEpoch (epoch : Z)
  | AMarkHasFirstFrame
  | ABackfillIteration (fetch : Z → option Chunk).

Definition step (e : Engine) (a : Action) : Engine :=
  match a with
  | AMerge w d m => (mergeFramesE w d m e).1
  | ASchedulerTick => schedulerTick e
  | AStartScheduler => startScheduler e
  | APauseLive => pauseLive e
  | AResumeLive => resumeLive e
  | ASetDesiredLagMs ms => setDesiredLagMs ms e
  | ASetSpeedFactor factor => setSpeedFactor factor e
  | AGoLive => goLive e
  | ASetPlaybackByEpoch epoch => setPlaybackByEpoch epoch e
  | AMarkHasFirstFrame => markHasFirstFrame e
  | ABackfillIteration fetch => (backfillIteration fetch e).1
  end.

Definition run (e : Engine) (actions : list Action) : Engine :=
  foldl step e actions.

Definition isSetSpeedFactor (a : Action) : bool :=
  match a with ASetSpeedFactor _ => true | _ => false end.

(** A sequence of merges applied to a state. *)
Definition MergeInput : Type :=
  list FrameWindow * list FrameDetails * option GameMetadata.

Definition mergeOne (s : FrameIndexState) (i : MergeInput) : FrameIndexState :=
  (mergeFrames i.1.1 i.1.2 i.2 s).1.

Definition mergeAll (s : FrameIndexState) (inputs : list MergeInput) : FrameIndexState :=
  foldl mergeOne s inputs.

(** The states a session passes through: the start state and the
    state after each merge, in order. *)
Fixpoint mergeTrace (s : FrameIndexState) (inputs : list MergeInput)
    : list FrameIndexState :=
  match inputs with
  | [] => [s]
  | i :: rest => s :: mergeTrace (mergeOne s i) rest
  end.

End Engine.

Arguments FrameIndexState : clear implicits.
Arguments Engine : clear implicits.
Arguments MergeResult : clear implicits.
Arguments Chunk : clear implicits.
Arguments BatchProgress : clear implicits.
Arguments Action : clear implicits.
Arguments noFrames {_ _ _} _ /.

(** ** What the hook hands to its consumers, and the rest of its controls *)

Section Consumers.
Context {FrameWindow FrameDetails GameMetadata : Type}.
Context `{!FrameAccess FrameWindow FrameDetails}.

Abbreviation StateP := (FrameIndexState FrameWindow FrameDetails GameMetadata).
Abbreviation EngineP := (Engine FrameWindow FrameDetails GameMetadata).
Abbreviation ChunkP := (Chunk FrameWindow FrameDetails GameMetadata).

(** [currentIndex]: the playback pointer in manual mode, otherwise the
    display index, otherwise the live pointer. *)
Definition currentIndex (s : StateP) : Z :=
  match playbackPointer s with
  | Some p => p
  | None => if decide (displayIndex s >= 0) then displayIndex s else livePointer s
  end.

Definition currentTimestamp (s : StateP) : option Z :=
  if decide (currentIndex s >= 0 ∧ currentIndex s < Js.length (orderedTimestamps s))
  then Js.nth (orderedTimestamps s) (currentIndex s)
  else None.

Definition currentWindow (s : StateP) : option FrameWindow :=
  match currentTimestamp s with
  | Some ts => framesWindow s !! ts
  | None => None
  end.

(** [currentDetails]: the details frame at the current timestamp, else
    the one at the previous timestamp, else the one at the next. *)
Definition currentDetails (s : StateP) : option FrameDetails :=
  let direct :=
    match currentTimestamp s with
    | Some ts => framesDetails s !! ts
    | None => None
    end in
  match direct, currentTimestamp s with
  | None, Some _ =>
      let previousTs :=
        if decide (currentIndex s - 1 >= 0)
        then Js.nth (orderedTimestamps s) (currentIndex s - 1) else None in
      let nextTs :=
        if decide (currentIndex s + 1 < Js.length (orderedTimestamps s))
        then Js.nth (orderedTimestamps s) (currentIndex s + 1) else None in
      match (match previousTs with
             | Some ts => framesDetails s !! ts
             | None => None
             end) with
      | Some frame => Some frame
      | None =>
          match nextTs with
          | Some ts => framesDetails s !! ts
          | None => None
          end
      end
  | _, _ => direct
  end.

(** [orderedWindowFrames] and [orderedDetailFrames]: the payloads in
    the order of the index, timestamps without that payload left out. *)
Definition orderedWindowFrames (s : StateP) : list FrameWindow :=
  omap (λ ts, framesWindow s !! ts) (orderedTimestamps s).

Definition orderedDetailFrames (s : StateP) : list FrameDetails :=
  omap (λ ts, framesDetails s !! ts) (orderedTimestamps s).

(** ** Forward polling *)

Definition with_isFinal (b : bool) (s : StateP) : StateP :=
  mkFrameIndexState (framesWindow s) (framesDetails s) (orderedTimestamps s)
    (hasFirstFrame s) (isBackfilling s) (livePointer s) (playbackPointer s)
    (metadata s) b (isLivePaused s) (desiredLagMs s) (speedFactor s)
    (displayIndex s) (playQueue s).

(** The hook together with the refs of the forward poller.
    [pollIntervalRef] and [finalStateBackoffRef] hold the delay of the
    pending timeout. *)
Record Poller := mkPoller {
  engine : EngineP;
  pollIntervalRef : option Z;
  pollingInFlightRef : bool;
  finalStateBackoffRef : option Z
}.

Definition with_engine (e : EngineP) (p : Poller) : Poller :=
  mkPoller e (pollIntervalRef p) (pollingInFlightRef p) (finalStateBackoffRef p).

Definition with_pollInterval (t : option Z) (p : Poller) : Poller :=
  mkPoller (engine p) t (pollingInFlightRef p) (finalStateBackoffRef p).

Definition with_pollingInFlight (b : bool) (p : Poller) : Poller :=
  mkPoller (engine p) (pollIntervalRef p) b (finalStateBackoffRef p).

Definition with_finalStateBackoff (t : option Z) (p : Poller) : Poller :=
  mkPoller (engine p) (pollIntervalRef p) (pollingInFlightRef p) t.

Definition LIVE_POLL_INTERVAL_MS : Z := 1000.
Definition FINAL_STATE_BACKOFF_MS : Z := 60000.

(** [scheduleNextPoll(delayMs)] *)
Definition scheduleNextPoll (delayMs : Z) (p : Poller) : Poller :=
  if negb (isMountedRef (engine p)) || cancelBackfillRef (engine p) then p
  else with_pollInterval (Some delayMs) p.

(** Polling halts: the poll timeout is cleared and the backoff timeout
    armed anew. *)
Definition haltForBackoff (p : Poller) : Poller :=
  with_pollingInFlight false
    (with_finalStateBackoff (Some FINAL_STATE_BACKOFF_MS) (with_pollInterval None p)).

(** [poll] up to its [await]: the boolean tells whether a fetch was
    issued, in which case [pollSettled] is its continuation. *)
Definition poll (p : Poller) : Poller * bool :=
  if pollingInFlightRef p then (scheduleNextPoll LIVE_POLL_INTERVAL_MS p, false)
  else if negb (isMountedRef (engine p)) || cancelBackfillRef (engine p) then (p, false)
  else
    let p1 := with_pollingInFlight true p in
    let s := state (engine p1) in
    if negb (isFinal s)
       && existsb windowIsTerminal (snd <$> map_to_list (framesWindow s))
    then
      (haltForBackoff
         (with_engine (setFrameState (with_isFinal true) (engine p1)) p1), false)
    else if isFinal s then (haltForBackoff p1, false)
    else (p1, true).

(** [poll] from the point where the fetch settles: [Some chunk] when it
    resolved, [None] when it threw.  [stateRef.current] is read as
    showing the merge already applied, which is the case when React
    runs the updater during the call. *)
Definition pollSettled (result : option ChunkP) (p : Poller) : Poller :=
  let p1 :=
    match result with
    | Some (windowFrames, detailFrames, metadataArg) =>
        let e1 := (mergeFramesE windowFrames detailFrames metadataArg (engine p)).1 in
        let p' := with_engine (ensureScheduler e1) p in
        if isFinal (state (engine p')) && bool_decide (is_Some (pollIntervalRef p'))
        then with_pollInterval None p' else p'
    | None => p
    end in
  let p2 :=
    if isMountedRef (engine p1) && negb (cancelBackfillRef (engine p1))
       && negb (isFinal (state (engine p1)))
    then scheduleNextPoll LIVE_POLL_INTERVAL_MS p1 else p1 in
  with_pollingInFlight false p2.

(** One whole poll whose fetch, if one is issued, settles with
    [result]. *)
Definition pollRound (result : option ChunkP) (p : Poller) : Poller :=
  let r := poll p in
  if r.2 then pollSettled result r.1 else r.1.

(** A fetch that brings nothing: it failed, or resolved without
    frames and without metadata. *)
Definition quietResult (r : option ChunkP) : Prop :=
  match r with
  | Some (windowFrames, detailFrames, metadataArg) =>
      windowFrames = [] ∧ detailFrames = [] ∧ metadataArg = None
  | None => True
  end.

(** The poller after a series of polls that settle with the given
    results, and after a number of firings of the backoff timeout. *)
Definition pollRounds (results : list (option ChunkP)) (p : Poller) : Poller :=
  foldl (λ q r, pollRound r q) p results.

(** ** Invariants of the state *)

(** The index and its cursors fit together: the timestamps are strictly
    increasing and are exactly the keys of the two payload maps, each
    frame is stored under its own epoch, the live pointer is the last
    position, and the display index, the playback pointer and the play
    queue hold positions of the index. *)
Definition wellFormed (s : StateP) : Prop :=
  strictlyIncreasing (orderedTimestamps s)
  ∧ livePointer s = Js.length (orderedTimestamps s) - 1
  ∧ (∀ t, t ∈ orderedTimestamps s
          ↔ is_Some (framesWindow s !! t) ∨ is_Some (framesDetails s !! t))
  ∧ (∀ t f, framesWindow s !! t = Some f → windowEpoch f = t)
  ∧ (∀ t f, framesDetails s !! t = Some f → detailsEpoch f = t)
  ∧ (orderedTimestamps s = [] → displayIndex s = -1)
  ∧ (orderedTimestamps s ≠ [] →
     0 ≤ displayIndex s < Js.length (orderedTimestamps s))
  ∧ (∀ p, playbackPointer s = Some p → 0 ≤ p < Js.length (orderedTimestamps s))
  ∧ Forall (λ q, 0 ≤ q < Js.length (orderedTimestamps s)) (playQueue s).

(** The state update of [setPlaybackByEpoch] on the path that changes
    the state. *)
Definition scrubbedTo (epoch : Z) (s : StateP) : StateP :=
  let index := findClosestTimestampIndex (orderedTimestamps s) epoch in
  with_isLivePaused true (with_displayIndex index (with_playbackPointer (Some index) s)).

(** A property of the state that every state update of the hook keeps. *)
Definition keptByUpdates (P : StateP → Prop) : Prop :=
  (∀ w d m s, P s → P (mergeFrames w d m s).1)
  ∧ (∀ s, P s → P (showNextFrame_state s))
  ∧ (∀ s, P s → P (markHasFirstFrame_state s))
  ∧ (∀ s, P s → P (goLive_state s))
  ∧ (∀ epoch s, orderedTimestamps s ≠ [] → P s → P (scrubbedTo epoch s))
  ∧ (∀ b s, P s → P (with_isLivePaused b s))
  ∧ (∀ b s, P s → P (with_isBackfilling b s))
  ∧ (∀ b s, P s → P (with_isFinal b s))
  ∧ (∀ ms s, P s → P (with_desiredLagMs ms s))
  ∧ (∀ factor s, P s → P (with_speedFactor factor s)).

(** The epochs a merge input brings. *)
Definition inputEpochs (i : MergeInput (GameMetadata := GameMetadata)) : list Z :=
  (windowEpoch <$> i.1.1) ++ (detailsEpoch <$> i.1.2).

End Consumers.

Arguments Poller : clear implicits.

(** ** The hook under React's scheduling of state updates

    [setFrameState] hands its updater to React's [setState].  React
    runs the updater during the call only when nothing is queued for
    the component; otherwise the updater waits for the next render.
    [stateRef.current] is assigned inside the updater, so the code that
    reads it right after a [setFrameState] call may still see the
    state from before the update, and [mergeFrames] returns the flags
    its updater sets only when the updater ran during the call.

    A [Hook] is an [Engine], whose [state] has every updater handed
    over so far applied (it is the state of the next render), together
    with what [stateRef.current] shows.  Every function that hands
    over an updater takes [atOnce]: whether React runs it during the
    call.  Which updaters React runs at once is React's business, so
    the properties of this layer are stated for every choice. *)

Section Deferred.
Context {FrameWindow FrameDetails GameMetadata : Type}.
Context `{!FrameAccess FrameWindow FrameDetails}.

Abbreviation StateD := (FrameIndexState FrameWindow FrameDetails GameMetadata).
Abbreviation EngineD := (Engine FrameWindow FrameDetails GameMetadata).
Abbreviation ChunkD := (Chunk FrameWindow FrameDetails GameMetadata).
Abbreviation ResultD := (MergeResult).
Abbreviation PollerD := (Poller FrameWindow FrameDetails GameMetadata).

Record Hook := mkHook {
  applied : EngineD;
  stateRef : StateD
}.

(** A render: the queued updaters have run. *)
Definition render (h : Hook) : Hook := mkHook (applied h) (state (applied h)).

(** A hook with nothing queued. *)
Definition hookOf (e : EngineD) : Hook := mkHook e (state e).

(** [setFrameState(updater)]: the state of the next render has the
    updater applied; [stateRef] shows it when React ran the updater
    during the call. *)
Definition setFrameStateH (atOnce : bool) (updater : StateD → StateD) (h : Hook) : Hook :=
  let e := setFrameState updater (applied h) in
  mkHook e (if atOnce then state e else stateRef h).

(** Assignments to refs. *)
Definition onRefs (f : EngineD → EngineD) (h : Hook) : Hook :=
  mkHook (f (applied h)) (stateRef h).

(** A function of the hook that reads the state from
    [stateRef.current] and assigns refs only: it runs on the engine as
    [stateRef] shows it, and the refs it leaves are kept. *)
Definition onStateRef (f : EngineD → EngineD) (h : Hook) : Hook :=
  mkHook (with_state (state (applied h)) (f (with_state (stateRef h) (applied h))))
         (stateRef h).

(** *** [mergeFrames] *)

(** The updater that [mergeFrames] hands over, with the values it
    assigns to the variables [changed], [addedEarlier], [addedLater]
    and [hasFramesAfter] of the enclosing call. *)
Definition mergeUpdater (windowFrames : list FrameWindow)
    (detailFrames : list FrameDetails) (metadataArg : option GameMetadata)
    (prev : StateD) : StateD * ResultD :=
  let hasPayload :=
    bool_decide (Js.length windowFrames > 0) || bool_decide (Js.length detailFrames > 0) in
  let sortedTimestamps := mergedTimestamps prev windowFrames detailFrames in
  let hasFramesAfter := bool_decide (Js.length sortedTimestamps > 0) in
  let metadataMutated :=
    negb (bool_decide (is_Some (metadata prev))) && bool_decide (is_Some metadataArg) in
  let timestampsChanged :=
    negb (bool_decide (sortedTimestamps = orderedTimestamps prev)) in
  if negb hasPayload && negb timestampsChanged && negb metadataMutated
  then (prev, mkMergeResult false false false hasFramesAfter)
  else (mergedState windowFrames detailFrames metadataArg prev,
        mkMergeResult true (didAddEarlier prev sortedTimestamps)
          (didAddLater prev sortedTimestamps) hasFramesAfter).

(** The call: the guard reads [stateRef.current]; the result holds the
    updater's flags when the updater ran during the call, and the
    initial values of the variables otherwise. *)
Definition mergeFramesH (atOnce : bool) (windowFrames : list FrameWindow)
    (detailFrames : list FrameDetails) (metadataArg : option GameMetadata)
    (h : Hook) : Hook * ResultD :=
  let hasFramesAfter := bool_decide (Js.length (orderedTimestamps (stateRef h)) > 0) in
  let hasPayload :=
    bool_decide (Js.length windowFrames > 0) || bool_decide (Js.length detailFrames > 0) in
  let shouldSetMetadata :=
    bool_decide (is_Some metadataArg)
    && negb (bool_decide (is_Some (metadata (stateRef h)))) in
  if negb hasPayload && negb shouldSetMetadata
  then (h, mkMergeResult false false false hasFramesAfter)
  else
    (setFrameStateH atOnce
       (λ prev, (mergeUpdater windowFrames detailFrames metadataArg prev).1) h,
     if atOnce
     then (mergeUpdater windowFrames detailFrames metadataArg (state (applied h))).2
     else mkMergeResult false false false hasFramesAfter).

(** *** The scheduler *)

Definition showNextFrameH (atOnce : bool) (h : Hook) : Hook :=
  if negb (isMountedRef (applied h)) then h
  else setFrameStateH atOnce showNextFrame_state h.

Definition scheduleNextFrameH (h : Hook) : Hook := onStateRef scheduleNextFrame h.

Definition startSchedulerH (h : Hook) : Hook := onStateRef startScheduler h.

Definition ensureSchedulerH (h : Hook) : Hook := onStateRef ensureScheduler h.

(** The callback of the scheduler timeout:
    [showNextFrame(); scheduleNextFrame()]. *)
Definition schedulerTickH (atOnce : bool) (h : Hook) : Hook :=
  scheduleNextFrameH (showNextFrameH atOnce h).

(** The pending scheduler timeout fires, if there is one. *)
Definition fireSchedulerTimerH (atOnce : bool) (h : Hook) : Hook :=
  match schedulerTimerRef (applied h) with
  | Some _ => schedulerTickH atOnce h
  | None => h
  end.

(** A series of timeouts, one per entry of [ticks]; the delay of a
    timeout is at least [MIN_FRAME_MS], so a render comes before the
    next one fires. *)
Definition afterTimersH (ticks : list bool) (h : Hook) : Hook :=
  foldl (λ h' atOnce, render (fireSchedulerTimerH atOnce h')) h ticks.

Definition pauseLiveH (atOnce : bool) (h : Hook) : Hook :=
  setFrameStateH atOnce (with_isLivePaused true) (onRefs stopScheduler h).

Definition resumeLiveH (atOnce : bool) (h : Hook) : Hook :=
  startSchedulerH (setFrameStateH atOnce (with_isLivePaused false) h).

(** *** Backfill *)

Definition markHasFirstFrameH (atOnce : bool) (h : Hook) : Hook :=
  onRefs (with_backfillCursor None) (setFrameStateH atOnce markHasFirstFrame_state h).

Definition stopBackfillH (atOnce : bool) (h : Hook) : Hook :=
  if negb (backfillRunningRef (applied h)) then h
  else
    setFrameStateH atOnce
      (λ prev, if isBackfilling prev then with_isBackfilling false prev else prev)
      (onRefs (λ e, with_backfillCursor None (with_backfillFlags false false true e)) h).

(** React's choices during one pass of the backfill loop:
    [renderedInFlight] tells whether it rendered while the requests of
    the batch were in flight, [mergeAtOnce i] whether it ran the
    updater of the merge of the [i]-th settled request at once, and
    [markAtOnce] the same for [markHasFirstFrame]. *)
Record PassSchedule := mkPassSchedule {
  renderedInFlight : bool;
  mergeAtOnce : nat → bool;
  markAtOnce : bool
}.

(** The bookkeeping of one batch; [settledH] counts the results gone
    through. *)
Record BatchProgressH := mkBatchProgressH {
  batchHook : Hook;
  anyProgressH : bool;
  sawFramesH : bool;
  earliestFetchedH : option Z;
  settledH : nat
}.

Definition processResultH (atOnce : nat → bool) (acc : BatchProgressH)
    (result : option ChunkD * Z) : BatchProgressH :=
  match result with
  | (Some (windowFrames, detailFrames, metadataArg), targetCursor) =>
      if bool_decide (Js.length windowFrames > 0)
         || bool_decide (Js.length detailFrames > 0)
      then
        let r := mergeFramesH (atOnce (settledH acc)) windowFrames detailFrames
                   metadataArg (batchHook acc) in
        mkBatchProgressH r.1
          (if changed r.2 then true else anyProgressH acc)
          true
          (match earliestFetchedH acc with
           | None => Some targetCursor
           | Some earliest =>
               if decide (targetCursor < earliest) then Some targetCursor
               else Some earliest
           end)
          (S (settledH acc))
      else mkBatchProgressH (batchHook acc) (anyProgressH acc) (sawFramesH acc)
             (earliestFetchedH acc) (S (settledH acc))
  | (None, _) =>
      mkBatchProgressH (batchHook acc) (anyProgressH acc) (sawFramesH acc)
        (earliestFetchedH acc) (S (settledH acc))
  end.

(** The body of the loop up to [await Promise.allSettled]: the checks
    on [stateRef.current], the cursor, the target timestamps.  [None]
    is a [break]. *)
Definition backfillTargetsH (sched : PassSchedule) (h : Hook) : Hook * option (list Z) :=
  let currentState := stateRef h in
  if hasFirstFrame currentState then (h, None)
  else if decide (Js.length (orderedTimestamps currentState) = 0) then (h, None)
  else
    let initialised :=
      match backfillCursorRef (applied h) with
      | Some _ => Some h
      | None =>
          match Js.nth (orderedTimestamps currentState) 0 with
          | None => None
          | Some anchorTs =>
              Some (onRefs
                      (with_backfillCursor
                         (Some (roundToPrevious10s anchorTs - BACKFILL_STEP_MS))) h)
          end
      end in
    match initialised with
    | None => (h, None)
    | Some h1 =>
        let currentCursor := default 0 (backfillCursorRef (applied h1)) in
        let targetTimestamps :=
          (λ i : nat, currentCursor - BACKFILL_STEP_MS * Z.of_nat i)
            <$> seq 0 BACKFILL_CONCURRENCY in
        if decide (Js.length targetTimestamps = 0)
        then (markHasFirstFrameH (markAtOnce sched) h1, None)
        else (h1, Some targetTimestamps)
    end.

(** The body of the loop from the point where the requests have
    settled, up to the [await delay] that ends the pass.  The boolean
    is [true] when the loop goes round again. *)
Definition backfillSettledH (sched : PassSchedule)
    (results : list (option ChunkD * Z)) (h1 : Hook) : Hook * bool :=
  let acc := foldl (processResultH (mergeAtOnce sched))
               (mkBatchProgressH h1 false false None 0) results in
  let h2 := batchHook acc in
  if anyProgressH acc
  then
    match Js.nth (orderedTimestamps (stateRef h2)) 0 with
    | None => (markHasFirstFrameH (markAtOnce sched) h2, false)
    | Some updatedEarliest =>
        (ensureSchedulerH
           (onRefs
              (with_backfillCursor
                 (Some (roundToPrevious10s updatedEarliest - BACKFILL_STEP_MS))) h2),
         true)
    end
  else if negb (sawFramesH acc) then (markHasFirstFrameH (markAtOnce sched) h2, false)
  else
    let fallbackCursor :=
      match earliestFetchedH acc with
      | Some earliest => Some (earliest - BACKFILL_STEP_MS)
      | None =>
          match Js.nth (orderedTimestamps (stateRef h2)) 0 with
          | Some updatedEarliest =>
              Some (roundToPrevious10s updatedEarliest - BACKFILL_STEP_MS)
          | None => None
          end
      end in
    match fallbackCursor with
    | None => (markHasFirstFrameH (markAtOnce sched) h2, false)
    | Some c => (ensureSchedulerH (onRefs (with_backfillCursor (Some c)) h2), true)
    end.

(** The target timestamps of the pass that starts on [h]. *)
Definition batchTargetsH (h : Hook) : list Z :=
  match orderedTimestamps (stateRef h) with
  | [] => []
  | anchorTs :: _ =>
      let currentCursor :=
        default (roundToPrevious10s anchorTs - BACKFILL_STEP_MS)
          (backfillCursorRef (applied h)) in
      (λ i : nat, currentCursor - BACKFILL_STEP_MS * Z.of_nat i)
        <$> seq 0 BACKFILL_CONCURRENCY
  end.

(** One pass through the body of the loop.  React may render while
    [await Promise.allSettled] waits for the requests; the
    [await delay] at the end of the pass lasts 700 ms or more, so a
    render comes before the next pass. *)
Definition backfillPassH (fetch : Z → option ChunkD) (sched : PassSchedule)
    (h : Hook) : Hook * bool :=
  match backfillTargetsH sched h with
  | (h1, None) => (h1, false)
  | (h1, Some targetTimestamps) =>
      let r := backfillSettledH sched
                 ((λ targetCursor, (fetch targetCursor, targetCursor))
                    <$> targetTimestamps)
                 (if renderedInFlight sched then render h1 else h1) in
      if r.2 then (render r.1, true) else (r.1, false)
  end.

(** The [while] loop for at most [fuel] passes, pass number [pass]
    first.  [None]: the loop is still running after [fuel] passes. *)
Fixpoint backfillLoopH (fuel : nat) (fetch : Z → option ChunkD)
    (sched : nat → PassSchedule) (pass : nat) (h : Hook) : option Hook :=
  if isMountedRef (applied h) && negb (cancelBackfillRef (applied h))
  then
    match fuel with
    | O => None
    | S fuel' =>
        let r := backfillPassH fetch (sched pass) h in
        if r.2 then backfillLoopH fuel' fetch sched (S pass) r.1 else Some r.1
    end
  else Some h.

(** React's choices during a whole run. *)
Record RunSchedule := mkRunSchedule {
  startAtOnce : bool;
  passSchedule : nat → PassSchedule;
  finallyAtOnce : bool
}.

(** The [finally] block of [runBackfill]. *)
Definition backfillFinallyH (atOnce : bool) (h : Hook) : Hook :=
  let h1 :=
    onRefs (with_backfillFlags false (hasFirstFrame (stateRef h))
              (cancelBackfillRef (applied h))) h in
  ensureSchedulerH
    (setFrameStateH atOnce
       (λ prev, if isBackfilling prev then with_isBackfilling false prev else prev) h1).

(** [runBackfill] for a non-empty [gameId]. *)
Definition runBackfillH (fuel : nat) (fetch : Z → option ChunkD)
    (sched : RunSchedule) (h : Hook) : option Hook :=
  if backfillRunningRef (applied h) then Some h
  else
    let h1 := onRefs (λ e, with_backfillFlags true (backfillStartedRef e) false e) h in
    let h2 := setFrameStateH (startAtOnce sched)
                (λ prev, if isBackfilling prev then prev else with_isBackfilling true prev)
                h1 in
    backfillFinallyH (finallyAtOnce sched)
      <$> backfillLoopH fuel fetch (passSchedule sched) 0 h2.

(** *** The upstream of a backfill run *)

(** [N] frames at a fixed spacing [step], the first one at [base]. *)
Definition frameTs (base step : Z) (i : nat) : Z := base + step * Z.of_nat i.

Definition history (base step : Z) (N : nat) : list Z := frameTs base step <$> seq 0 N.

(** The timestamps a chunk carries. *)
Definition chunkEpochs (chunk : ChunkD) : list Z :=
  (windowEpoch <$> chunk.1.1) ++ (detailsEpoch <$> chunk.1.2).

(** The frames number [a], [a+1], ..., [a+k-1]. *)
Definition historyFrom (base step : Z) (a k : nat) : list Z :=
  frameTs base step <$> seq a k.

(** The upstream serves the frames at the timestamps [ts] by
    10-second slices: the request for the slice that starts at
    [cursor], a multiple of 10 s as every request of the hook is,
    resolves, and brings exactly the frames stamped within
    [cursor, cursor + 10 s).  A request for a slice before the first
    frame therefore brings none. *)
Definition servesSlices (fetch : Z → option ChunkD) (ts : list Z) : Prop :=
  ∀ cursor, cursor `mod` 10000 = 0 →
    ∃ chunk,
      fetch cursor = Some chunk
      ∧ ∀ t, t ∈ chunkEpochs chunk ↔ t ∈ ts ∧ cursor ≤ t < cursor + BACKFILL_STEP_MS.

(** The frames at [ts] leave no 10-second slice between the slice
    [lo] of the first one and the slice [hi] of the last one empty. *)
Definition fillsSlices (ts : list Z) (lo hi : Z) : Prop :=
  strictlyIncreasing ts
  ∧ lo `mod` 10000 = 0
  ∧ (∀ t, t ∈ ts → lo ≤ t)
  ∧ (∀ cursor, cursor `mod` 10000 = 0 → lo ≤ cursor ≤ hi →
       ∃ t, t ∈ ts ∧ cursor ≤ t < cursor + 10000).

(** What the bookkeeping of a batch satisfies while the requests for
    the slices from [cursor] downwards are gone through, the batch
    having started on [h1]: the state with the updaters applied holds
    the timestamps known at the start and those of the slices gone
    through; [stateRef] lies between the two; the flags and the
    earliest fetched slice are as the loop computes them. *)
Definition batchKeeps (ts : list Z) (cursor : Z) (h1 : Hook) (acc : BatchProgressH)
    : Prop :=
  let known := orderedTimestamps (stateRef h1) in
  let fetched t :=
    t ∈ ts
    ∧ cursor + 10000 - 10000 * Z.of_nat (settledH acc) ≤ t < cursor + 10000 in
  let later := state (applied (batchHook acc)) in
  let seen := stateRef (batchHook acc) in
  isMountedRef (applied (batchHook acc)) = isMountedRef (applied h1)
  ∧ cancelBackfillRef (applied (batchHook acc)) = cancelBackfillRef (applied h1)
  ∧ backfillCursorRef (applied (batchHook acc)) = backfillCursorRef (applied h1)
  ∧ hasFirstFrame later = false
  ∧ hasFirstFrame seen = false
  ∧ strictlyIncreasing (orderedTimestamps later)
  ∧ (∀ t, t ∈ orderedTimestamps later ↔ t ∈ known ∨ fetched t)
  ∧ strictlyIncreasing (orderedTimestamps seen)
  ∧ (∀ t, t ∈ known → t ∈ orderedTimestamps seen)
  ∧ (∀ t, t ∈ orderedTimestamps seen → t ∈ known ∨ fetched t)
  ∧ (anyProgressH acc = true →
     ∃ t, t ∈ orderedTimestamps seen ∧ t < cursor + 10000)
  ∧ (sawFramesH acc = true ↔ ∃ t, fetched t)
  ∧ match earliestFetchedH acc with
    | None => sawFramesH acc = false
    | Some earliest =>
        earliest `mod` 10000 = 0
        ∧ earliest ≤ cursor
        ∧ (∃ t, fetched t ∧ earliest ≤ t < earliest + 10000)
        ∧ (∀ t, fetched t → earliest ≤ t)
    end.

(** The loop of [runBackfill] is about to start a pass: the hook is
    mounted and not cancelled, the start of the event is not
    confirmed, [stateRef] shows the index that the state holds, which
    has exactly the frames of [ts] from the slice [A] on, and the
    cursor is [c], at or above the slice before [A] (unset, it becomes
    that slice). *)
Definition readyAt (ts : list Z) (lo hi A c : Z) (h : Hook) : Prop :=
  isMountedRef (applied h) = true
  ∧ cancelBackfillRef (applied h) = false
  ∧ hasFirstFrame (stateRef h) = false
  ∧ hasFirstFrame (state (applied h)) = false
  ∧ orderedTimestamps (stateRef h) = orderedTimestamps (state (applied h))
  ∧ strictlyIncreasing (orderedTimestamps (state (applied h)))
  ∧ (∀ t, t ∈ orderedTimestamps (state (applied h)) ↔ t ∈ ts ∧ A ≤ t)
  ∧ A `mod` 10000 = 0 ∧ lo ≤ A ≤ hi
  ∧ c `mod` 10000 = 0 ∧ A - 10000 ≤ c ≤ hi
  ∧ (backfillCursorRef (applied h) = Some c
     ∨ (backfillCursorRef (applied h) = None ∧ c = A - 10000)).

(** The number of passes that are enough from there. *)
Definition passesLeft (lo A c : Z) : Z :=
  (c - lo + 100000) `div` 100000 + (A - lo + 90000) `div` 100000 + 1.

(** A settled request that carries at least one frame. *)
Definition bringsFrames (r : option ChunkD) : Prop :=
  match r with
  | Some (windowFrames, detailFrames, _) => windowFrames ≠ [] ∨ detailFrames ≠ []
  | None => False
  end.

(** *** Forward polling *)

(** The poller with what [stateRef.current] shows; [engine (polling p)]
    has every updater applied. *)
Record PollerH := mkPollerH {
  polling : PollerD;
  pollerStateRef : StateD
}.

Definition pollerOfH (p : PollerD) : PollerH := mkPollerH p (state (engine p)).

Definition renderP (p : PollerH) : PollerH :=
  mkPollerH (polling p) (state (engine (polling p))).

Definition onPoller (f : PollerD → PollerD) (p : PollerH) : PollerH :=
  mkPollerH (f (polling p)) (pollerStateRef p).

Definition setFrameStateP (atOnce : bool) (updater : StateD → StateD) (p : PollerH)
    : PollerH :=
  let e := setFrameState updater (engine (polling p)) in
  mkPollerH (with_engine e (polling p)) (if atOnce then state e else pollerStateRef p).

(** [poll] up to its [await]; the boolean tells whether a fetch was
    issued. *)
Definition pollH (atOnce : bool) (p : PollerH) : PollerH * bool :=
  if pollingInFlightRef (polling p)
  then (onPoller (scheduleNextPoll LIVE_POLL_INTERVAL_MS) p, false)
  else if negb (isMountedRef (engine (polling p))) || cancelBackfillRef (engine (polling p))
  then (p, false)
  else
    let p1 := onPoller (with_pollingInFlight true) p in
    let s := pollerStateRef p1 in
    if negb (isFinal s)
       && existsb windowIsTerminal (snd <$> map_to_list (framesWindow s))
    then (onPoller haltForBackoff (setFrameStateP atOnce (with_isFinal true) p1), false)
    else if isFinal s then (onPoller haltForBackoff p1, false)
    else (p1, true).

Definition startLivePollingH (atOnce : bool) (p : PollerH) : PollerH * bool :=
  pollH atOnce (onPoller (with_pollInterval None) p).

(** The backoff timeout fires, if there is one: [resetAtOnce] for the
    update that resets [isFinal], [pollAtOnce] for the one of the poll
    it starts. *)
Definition fireBackoffTimerH (resetAtOnce pollAtOnce : bool) (p : PollerH)
    : PollerH * bool :=
  match finalStateBackoffRef (polling p) with
  | None => (p, false)
  | Some _ =>
      if negb (isMountedRef (engine (polling p))) || cancelBackfillRef (engine (polling p))
      then (p, false)
      else startLivePollingH pollAtOnce
             (setFrameStateP resetAtOnce (with_isFinal false) p)
  end.

(** A series of firings of the backoff timeout; each entry tells
    whether a render came before the firing, and React's two
    choices. *)
Definition afterBackoffsH (firings : list (bool * bool * bool)) (p : PollerH) : PollerH :=
  foldl (λ q (firing : bool * bool * bool),
           (fireBackoffTimerH firing.1.2 firing.2
              (if firing.1.1 then renderP q else q)).1)
        p firings.

End Deferred.

Arguments Hook : clear implicits.
Arguments BatchProgressH : clear implicits.
Arguments PollerH : clear implicits.

(** ** A synthetic feed for concrete runs

    A window frame is its epoch together with its terminal tag; a
    details frame is its epoch; metadata is a number. *)

Module Synthetic.

#[export] Instance access : FrameAccess (Z * bool) Z :=
  {| windowEpoch := fst; detailsEpoch := id; windowIsTerminal := snd |}.

Definition State : Type := FrameIndexState (Z * bool) Z nat.
Definition Eng : Type := Engine (Z * bool) Z nat.

(** A running (non-terminal) window frame at [t]. *)
Definition frame (t : Z) : Z * bool := (t, false).

(** The state reached from a fresh hook by one forward poll that
    returned window frames at the given timestamps. *)
Definition polled (ts : list Z) : State :=
  (mergeFrames (frame <$> ts) [] None createInitialState).1.

Definition engineOf (s : State) : Eng :=
  mkEngine s true false false false None None (Some 0).

(** Index [0, 10000, 20000], live, display at t = 20000. *)
Definition live3 : State := polled [0; 10000; 20000].

(** Index [0, 10000, 20000, 30000], live. *)
Definition live4 : State := polled [0; 10000; 20000; 30000].

(** Two frames of history at 10-second spacing, served one 10-second
    slice per request. *)
Definition history2 (cursor : Z) : option (Chunk (Z * bool) Z nat) :=
  if decide (cursor = 0) then Some ([frame 0], [], None)
  else if decide (cursor = 10000) then Some ([frame 10000], [], None)
  else Some ([], [], None).

(** The same four frames, the last one carrying a terminal game
    state. *)
Definition final4 : State :=
  (mergeFrames [frame 0; frame 10000; frame 20000; (30000, true)] [] None
     createInitialState).1.

(** Manual-Paused at index 1 of [live4], after [scrubTo(10000)]. *)
Definition scrubbed4 : Eng := setPlaybackByEpoch 10000 (engineOf live4).

(** Manual-Playing at index 1 of [live4]: scrubbed, then resumed. *)
Definition playing4 : Eng := resumeLive scrubbed4.

(** Manual mode on the last index of a finished match. *)
Definition atEndFinal4 : Eng := setPlaybackByEpoch 30000 (engineOf final4).

(** Manual mode on index 0 of [live3], playing. *)
Definition playing3 : Eng := resumeLive (setPlaybackByEpoch 0 (engineOf live3)).

(** Three frames one second apart, manual mode on index 0, playing. *)
Definition dense3 : State := polled [0; 1000; 2000].
Definition playingDense3 : Eng := resumeLive (setPlaybackByEpoch 0 (engineOf dense3)).

(** A backfill chunk of three earlier frames, and a later poll. *)
Definition earlier3 : MergeInput (FrameWindow := Z * bool) (FrameDetails := Z)
                                 (GameMetadata := nat) :=
  (frame <$> [-30000; -20000; -10000], [], None).
Definition later1 : MergeInput (FrameWindow := Z * bool) (FrameDetails := Z)
                               (GameMetadata := nat) :=
  ([frame 30000], [30000], Some 7%nat).

(** A hook that has polled the latest frame of [history2] and has not
    started backfill yet. *)
Definition behind2 : Eng := engineOf (polled [10000]).

End Synthetic.


(** More concrete sessions. *)

Module Sessions.
Import Synthetic.

Definition ActionS : Type := Action (Z * bool) Z nat.
Definition PollerS : Type := Poller (Z * bool) Z nat.

(** A freshly mounted hook. *)
Definition mounted : Eng := mountEngine.

(** A poll brings three frames with details, the viewer scrubs back,
    backfill merges an earlier frame, playback runs one step. *)
Definition session : list ActionS :=
  [ AMerge (frame <$> [0; 10000; 20000]) [0; 10000] (Some 7%nat);
    ASetPlaybackByEpoch 9000;
    AMerge [frame (-10000)] [-10000] None;
    AResumeLive;
    ASchedulerTick ].

(** A poller around an engine, nothing pending. *)
Definition pollerOf (e : Eng) : PollerS := mkPoller e None false None.

(** The actions that lead a fresh hook to the live index [0 .. 30000],
    and from there to Manual-Paused on index 1. *)
Definition toLive4 : list ActionS :=
  [ AMerge (frame <$> [0; 10000; 20000; 30000]) [] None ].
Definition toScrubbed4 : list ActionS := toLive4 ++ [ ASetPlaybackByEpoch 10000 ].
Definition toPlaying4 : list ActionS := toScrubbed4 ++ [ AResumeLive ].

(** *** Sessions under React's scheduling *)

Definition HookS : Type := Hook (Z * bool) Z nat.

(** A hook whose first poll brought window frames at [ts], rendered,
    backfill not started yet. *)
Definition behind (ts : list Z) : HookS := hookOf (engineOf (polled ts)).

(** An upstream that holds window frames at [ts] and serves them one
    10-second slice per request. *)
Definition served (ts : list Z) (cursor : Z) : option (Chunk (Z * bool) Z nat) :=
  Some (frame <$> filter (λ t, cursor ≤ t < cursor + BACKFILL_STEP_MS) ts, [], None).

(** React runs every updater during the call that hands it over. *)
Definition allAtOnce : RunSchedule :=
  mkRunSchedule true (λ _, mkPassSchedule false (λ _, true) true) true.

(** React defers every updater to the next render. *)
Definition allDeferred : RunSchedule :=
  mkRunSchedule false (λ _, mkPassSchedule false (λ _, false) false) false.

(** React renders while the requests are in flight; in each pass it
    runs the updater of the merge of request number [i] at once and
    defers the other merges.  With [i] the first request that brings
    frames this is what React does when nothing else is queued for
    the component. *)
Definition atOnceAt (i : nat) : RunSchedule :=
  mkRunSchedule true
    (λ _, mkPassSchedule true (λ j, bool_decide (j = i)) true) false.

Definition firstAtOnce : RunSchedule := atOnceAt 0.

(** Manual playback at index 1 of [live4] with its timeout pending,
    rendered. *)
Definition playingH4 : HookS := hookOf playing4.

(** A poller around a hook, rendered, nothing pending. *)
Definition PollerHS : Type := PollerH (Z * bool) Z nat.
Definition finalPoller4 : PollerHS :=
  pollerOfH (mkPoller (engineOf final4) None false None).

(** A hook on which a backfill run is in progress. *)
Definition backfilling2 : HookS := hookOf (with_backfillFlags true true false behind2).

(** A live session that shows t = 20000 and has two later frames
    queued: a poll brought [0, 10000, 20000], a second one 30000 and
    40000. *)
Definition toQueued5 : list ActionS :=
  [ AMerge (frame <$> [0; 10000; 20000]) [] None;
    AMerge (frame <$> [30000; 40000]) [] None ].
Definition toStarted5 : list ActionS := toQueued5 ++ [ AStartScheduler ].
Definition queued5 : Eng := run mounted toQueued5.

(** The same session with the scheduler started, rendered. *)
Definition queuedH5 : HookS := hookOf (startScheduler queued5).

End Sessions.

(** * Facts about the JavaScript primitives *)

Lemma Js_length_nonneg {A} (l : list A) : 0 ≤ Js.length l.
Proof. unfold Js.length. lia. Qed.

Lemma Js_length_zero {A} (l : list A) : Js.length l = 0 ↔ l = [].
Proof. unfold Js.length. destruct l; simpl; split; intros; try done; lia. Qed.

Lemma Js_nth_Some {A} (l : list A) (i : Z) (x : A) :
  Js.nth l i = Some x ↔ 0 ≤ i ∧ l !! Z.to_nat i = Some x.
Proof. unfold Js.nth. destruct (decide (0 ≤ i)); [tauto|]. split; [done|tauto]. Qed.

Lemma Js_nth_range {A} (l : list A) (i : Z) (x : A) :
  Js.nth l i = Some x → 0 ≤ i < Js.length l.
Proof.
  intros [Hi Hl]%Js_nth_Some. apply lookup_lt_Some in Hl.
  unfold Js.length. lia.
Qed.

Lemma Js_nth_elem_of {A} (l : list A) (i : Z) (x : A) :
  Js.nth l i = Some x → x ∈ l.
Proof. intros [_ Hl]%Js_nth_Some. by eapply list_elem_of_lookup_2. Qed.

Lemma Js_nth_zero {A} (l : list A) : Js.nth l 0 = head l.
Proof. unfold Js.nth. simpl. by destruct l. Qed.

Lemma indexOf_from_notin (l : list Z) (x i : Z) :
  x ∉ l → Js.indexOf_from l x i = -1.
Proof.
  revert i. induction l as [|y l IH]; intros i Hx; simpl; [done|].
  apply not_elem_of_cons in Hx as [Hne Hx].
  case_decide; [congruence|]. by apply IH.
Qed.

Lemma indexOf_from_elem (l : list Z) (x i : Z) :
  x ∈ l →
  ∃ k : nat, Js.indexOf_from l x i = i + Z.of_nat k ∧ l !! k = Some x
             ∧ ∀ j : nat, (j < k)%nat → l !! j ≠ Some x.
Proof.
  revert i. induction l as [|y l IH]; intros i Hx; simpl.
  - by apply elem_of_nil in Hx.
  - case_decide as Hy.
    + subst y. exists 0%nat. repeat split; [lia|]. intros j Hj. lia.
    + apply elem_of_cons in Hx as [Hx|Hx]; [congruence|].
      destruct (IH (i + 1) Hx) as (k & Hk & Hlk & Hmin).
      exists (S k). repeat split; [lia|done|].
      intros [|j] Hj; simpl; [congruence|]. apply Hmin. lia.
Qed.

Lemma indexOf_notin (l : list Z) (x : Z) : x ∉ l → Js.indexOf l x = -1.
Proof. apply indexOf_from_notin. Qed.

Lemma indexOf_elem (l : list Z) (x : Z) :
  x ∈ l →
  0 ≤ Js.indexOf l x < Js.length l ∧ Js.nth l (Js.indexOf l x) = Some x.
Proof.
  intros Hx. destruct (indexOf_from_elem l x 0 Hx) as (k & Hk & Hlk & _).
  unfold Js.indexOf. rewrite Hk. pose proof (lookup_lt_Some _ _ _ Hlk).
  unfold Js.length. split; [lia|].
  apply Js_nth_Some. split; [lia|]. by replace (Z.to_nat (0 + Z.of_nat k)) with k by lia.
Qed.

Lemma indexOf_nth_NoDup (l : list Z) (i x : Z) :
  NoDup l → Js.nth l i = Some x → Js.indexOf l x = i.
Proof.
  intros Hnd [Hi Hl]%Js_nth_Some.
  destruct (indexOf_from_elem l x 0) as (k & Hk & Hlk & _).
  { by eapply list_elem_of_lookup_2. }
  unfold Js.indexOf. rewrite Hk.
  pose proof (NoDup_lookup _ _ _ _ Hnd Hlk Hl). lia.
Qed.

(** Sets in insertion order. *)

Lemma Set_add_elem_of (s : list Z) (x y : Z) :
  y ∈ Js.Set_add s x ↔ y ∈ s ∨ y = x.
Proof.
  unfold Js.Set_add. case_decide as Hx.
  - split; [tauto|]. intros [?| ->]; done.
  - rewrite elem_of_app, list_elem_of_singleton. tauto.
Qed.

Lemma Set_add_NoDup (s : list Z) (x : Z) : NoDup s → NoDup (Js.Set_add s x).
Proof.
  intros Hs. unfold Js.Set_add. case_decide as Hx; [done|].
  apply NoDup_app. split; [done|]. split; [|apply NoDup_singleton].
  intros y Hy ->%list_elem_of_singleton. done.
Qed.

Lemma Set_add_known (s : list Z) (x : Z) : x ∈ s → Js.Set_add s x = s.
Proof. intros Hx. unfold Js.Set_add. by rewrite decide_True. Qed.

Lemma foldl_Set_add_elem_of (l s : list Z) (y : Z) :
  y ∈ foldl Js.Set_add s l ↔ y ∈ s ∨ y ∈ l.
Proof.
  revert s. induction l as [|x l IH]; intros s; simpl.
  - rewrite elem_of_nil. tauto.
  - rewrite IH, Set_add_elem_of, elem_of_cons. tauto.
Qed.

Lemma foldl_Set_add_NoDup (l s : list Z) :
  NoDup s → NoDup (foldl Js.Set_add s l).
Proof.
  revert s. induction l as [|x l IH]; intros s Hs; simpl; [done|].
  by apply IH, Set_add_NoDup.
Qed.

Lemma foldl_Set_add_known (l s : list Z) :
  (∀ x, x ∈ l → x ∈ s) → foldl Js.Set_add s l = s.
Proof.
  revert s. induction l as [|x l IH]; intros s Hl; simpl; [done|].
  rewrite Set_add_known by (apply Hl; left).
  apply IH. intros y Hy. apply Hl. by right.
Qed.

Lemma foldl_Set_add_fresh (l s : list Z) :
  NoDup l → (∀ x, x ∈ l → x ∉ s) → foldl Js.Set_add s l = s ++ l.
Proof.
  revert s. induction l as [|x l IH]; intros s Hnd Hfresh; simpl.
  - by rewrite app_nil_r.
  - apply NoDup_cons in Hnd as [Hx Hnd].
    unfold Js.Set_add at 2. rewrite decide_False by (apply Hfresh; left).
    rewrite IH; [by rewrite <- app_assoc|done|].
    intros y Hy. rewrite elem_of_app, list_elem_of_singleton.
    intros [Hs| ->]; [|done]. eapply Hfresh; [by right|done].
Qed.

Lemma Set_of_elem_of (l : list Z) (y : Z) : y ∈ Js.Set_of l ↔ y ∈ l.
Proof.
  unfold Js.Set_of. rewrite foldl_Set_add_elem_of, elem_of_nil. tauto.
Qed.

Lemma Set_of_NoDup (l : list Z) : NoDup (Js.Set_of l).
Proof. apply foldl_Set_add_NoDup, NoDup_nil_2. Qed.

Lemma Set_of_id (l : list Z) : NoDup l → Js.Set_of l = l.
Proof.
  intros Hnd. unfold Js.Set_of. rewrite foldl_Set_add_fresh; [done..|].
  intros x _. apply not_elem_of_nil.
Qed.

(** Numeric sort. *)

Lemma strictlyIncreasing_NoDup (l : list Z) : strictlyIncreasing l → NoDup l.
Proof.
  induction 1 as [|x l Hl IH Hx]; constructor; [|done].
  intros Hin. rewrite Forall_forall in Hx. specialize (Hx _ Hin). lia.
Qed.

Lemma strictlyIncreasing_le (l : list Z) :
  strictlyIncreasing l → StronglySorted Z.le l.
Proof.
  induction 1 as [|x l Hl IH Hx]; constructor; [done|].
  eapply Forall_impl; [exact Hx|]. intros; simpl in *; lia.
Qed.

Lemma sorted_NoDup_strict (l : list Z) :
  StronglySorted Z.le l → NoDup l → strictlyIncreasing l.
Proof.
  induction 1 as [|x l Hl IH Hx]; intros Hnd; constructor.
  - apply IH. by apply NoDup_cons in Hnd as [_ ?].
  - apply NoDup_cons in Hnd as [Hnin _].
    rewrite Forall_forall in *. intros y Hy.
    specialize (Hx _ Hy). assert (x ≠ y) by (intros ->; done). lia.
Qed.

Lemma sort_num_elem_of (l : list Z) (x : Z) : x ∈ Js.sort_num l ↔ x ∈ l.
Proof. unfold Js.sort_num. by rewrite merge_sort_Permutation. Qed.

Lemma sort_num_length (l : list Z) : Js.length (Js.sort_num l) = Js.length l.
Proof. unfold Js.sort_num, Js.length. by rewrite merge_sort_Permutation. Qed.

Lemma sort_num_sorted (l : list Z) : StronglySorted Z.le (Js.sort_num l).
Proof. apply (StronglySorted_merge_sort Z.le). Qed.

Lemma sort_num_strict (l : list Z) : NoDup l → strictlyIncreasing (Js.sort_num l).
Proof.
  intros Hnd. apply sorted_NoDup_strict; [apply sort_num_sorted|].
  unfold Js.sort_num. by rewrite merge_sort_Permutation.
Qed.

Lemma sort_num_id (l : list Z) : StronglySorted Z.le l → Js.sort_num l = l.
Proof.
  intros Hl. apply (StronglySorted_unique Z.le); [apply sort_num_sorted|done|].
  apply merge_sort_Permutation.
Qed.

(** * Facts about [mergeFrames] *)

Section MergeFacts.
Context {FrameWindow FrameDetails GameMetadata : Type}.
Context `{!FrameAccess FrameWindow FrameDetails}.

Abbreviation State := (FrameIndexState FrameWindow FrameDetails GameMetadata).
Implicit Types (prev s : State) (w : list FrameWindow) (d : list FrameDetails).
Implicit Types (m : option GameMetadata) (sorted : list Z).

(** [mergeFrames] written with the named pieces. *)
Lemma mergeFrames_eq w d m prev :
  mergeFrames w d m prev
  = let hasPayload :=
      bool_decide (Js.length w > 0) || bool_decide (Js.length d > 0) in
    let sorted := mergedTimestamps prev w d in
    if negb hasPayload
       && negb (bool_decide (is_Some m) && negb (bool_decide (is_Some (metadata prev))))
    then (prev, mkMergeResult false false false
                  (bool_decide (Js.length (orderedTimestamps prev) > 0)))
    else if negb hasPayload
            && negb (negb (bool_decide (sorted = orderedTimestamps prev)))
            && negb (negb (bool_decide (is_Some (metadata prev)))
                     && bool_decide (is_Some m))
    then (prev, mkMergeResult false false false (bool_decide (Js.length sorted > 0)))
    else (mergedState w d m prev,
          mkMergeResult true (didAddEarlier prev sorted) (didAddLater prev sorted)
            (bool_decide (Js.length sorted > 0))).
Proof. reflexivity. Qed.

(** [mergeFrames] either leaves the state alone or builds
    [mergedState]. *)
Lemma mergeFrames_unfold w d m prev :
  (mergeFrames w d m prev).1
  = if mergeSkips w d m prev then prev else mergedState w d m prev.
Proof.
  rewrite mergeFrames_eq. unfold mergeSkips. cbv zeta.
  destruct (negb (bool_decide (Js.length w > 0) || bool_decide (Js.length d > 0))
            && negb (bool_decide (is_Some m)
                     && negb (bool_decide (is_Some (metadata prev))))); [reflexivity|].
  rewrite orb_false_l.
  match goal with |- (if ?c then _ else _).1 = _ => destruct c end; reflexivity.
Qed.

Lemma mergeFrames_flags w d m prev :
  mergeSkips w d m prev = false →
  (mergeFrames w d m prev).2
  = mkMergeResult true
      (didAddEarlier prev (mergedTimestamps prev w d))
      (didAddLater prev (mergedTimestamps prev w d))
      (bool_decide (Js.length (mergedTimestamps prev w d) > 0)).
Proof.
  rewrite mergeFrames_eq. unfold mergeSkips. cbv zeta.
  destruct (negb (bool_decide (Js.length w > 0) || bool_decide (Js.length d > 0))
            && negb (bool_decide (is_Some m)
                     && negb (bool_decide (is_Some (metadata prev))))); [discriminate|].
  rewrite orb_false_l. intros ->. reflexivity.
Qed.

Lemma mergeFrames_skip_flags w d m prev :
  mergeSkips w d m prev = true →
  changed (mergeFrames w d m prev).2 = false
  ∧ addedEarlier (mergeFrames w d m prev).2 = false
  ∧ addedLater (mergeFrames w d m prev).2 = false.
Proof.
  rewrite mergeFrames_eq. unfold mergeSkips. cbv zeta.
  destruct (negb (bool_decide (Js.length w > 0) || bool_decide (Js.length d > 0))
            && negb (bool_decide (is_Some m)
                     && negb (bool_decide (is_Some (metadata prev)))));
    [intros _; repeat split; reflexivity|].
  rewrite orb_false_l. intros ->. repeat split; reflexivity.
Qed.

Lemma mergedTimestamps_elem_of prev w d (x : Z) :
  x ∈ mergedTimestamps prev w d
  ↔ x ∈ orderedTimestamps prev ∨ x ∈ windowEpoch <$> w ∨ x ∈ detailsEpoch <$> d.
Proof.
  unfold mergedTimestamps.
  rewrite sort_num_elem_of, !foldl_Set_add_elem_of, Set_of_elem_of. tauto.
Qed.

Lemma mergedTimestamps_strict prev w d :
  strictlyIncreasing (mergedTimestamps prev w d).
Proof.
  unfold mergedTimestamps.
  apply sort_num_strict. do 2 apply foldl_Set_add_NoDup. apply Set_of_NoDup.
Qed.

Lemma mergedTimestamps_known prev w d :
  strictlyIncreasing (orderedTimestamps prev) →
  (∀ x, x ∈ windowEpoch <$> w → x ∈ orderedTimestamps prev) →
  (∀ x, x ∈ detailsEpoch <$> d → x ∈ orderedTimestamps prev) →
  mergedTimestamps prev w d = orderedTimestamps prev.
Proof.
  intros Hs Hw Hd. unfold mergedTimestamps.
  rewrite Set_of_id by by apply strictlyIncreasing_NoDup.
  rewrite (foldl_Set_add_known (windowEpoch <$> w)) by exact Hw.
  rewrite (foldl_Set_add_known (detailsEpoch <$> d)) by exact Hd.
  by apply sort_num_id, strictlyIncreasing_le.
Qed.

Lemma displayedTs_Some s (t : Z) :
  displayedTs s = Some t → Js.nth (orderedTimestamps s) (displayIndex s) = Some t.
Proof. unfold displayedTs. by case_decide. Qed.

Lemma displayedTs_nth s :
  displayedTs s = Js.nth (orderedTimestamps s) (displayIndex s).
Proof.
  unfold displayedTs. case_decide as Hr; [done|].
  destruct (Js.nth _ _) eqn:Hn; [|done].
  apply Js_nth_range in Hn. lia.
Qed.

(** The display index is re-located by its timestamp, in live and in
    manual mode alike. *)
Lemma mergedDisplay_relocates prev sorted (t : Z) :
  displayedTs prev = Some t → t ∈ sorted →
  mergedDisplay prev sorted = Js.indexOf sorted t.
Proof.
  intros Ht Hin.
  destruct (indexOf_elem sorted t Hin) as [Hrange Hnth].
  assert (H1 : mergedDisplay1 prev sorted = Js.indexOf sorted t).
  { unfold mergedDisplay1. rewrite Ht. cbv zeta.
    rewrite (decide_False (P := Js.length sorted = 0)) by lia.
    rewrite (decide_True (P := Js.indexOf sorted t ≠ -1)) by lia.
    rewrite (decide_False (P := Js.indexOf sorted t >= Js.length sorted)) by lia.
    rewrite decide_False by lia. done. }
  assert (H2 : mergedDisplay2 prev sorted = Js.indexOf sorted t).
  { unfold mergedDisplay2. case_decide as Hc; [|done].
    destruct Hc as [_ Hlive]. rewrite Hlive, Ht. cbv zeta.
    by rewrite decide_True by lia. }
  unfold mergedDisplay. rewrite H2, Ht, Hnth.
  case_decide; [|done]. by rewrite decide_False by lia.
Qed.

Lemma mergedPlayback_relocates prev sorted (p t : Z) :
  playbackPointer prev = Some p →
  Js.nth (orderedTimestamps prev) p = Some t → t ∈ sorted →
  mergedPlayback prev sorted = Some (Js.indexOf sorted t).
Proof.
  intros Hp Ht Hin. destruct (indexOf_elem sorted t Hin) as [Hrange _].
  unfold mergedPlayback. rewrite Hp, Ht. cbv zeta.
  by rewrite decide_False by lia.
Qed.

Lemma mergeFrames_keeps_live w d m prev :
  playbackPointer prev = None → playbackPointer (mergeFrames w d m prev).1 = None.
Proof.
  intros Hp. rewrite mergeFrames_unfold. destruct (mergeSkips _ _ _ _); [done|].
  simpl. unfold mergedPlayback. by rewrite Hp.
Qed.

(** One merge keeps the displayed timestamp. *)
Lemma mergeFrames_displayedTs w d m prev (t : Z) :
  displayedTs prev = Some t → displayedTs (mergeFrames w d m prev).1 = Some t.
Proof.
  intros Ht. rewrite mergeFrames_unfold. destruct (mergeSkips _ _ _ _); [done|].
  assert (Hin : t ∈ mergedTimestamps prev w d).
  { apply mergedTimestamps_elem_of. left.
    eapply Js_nth_elem_of, displayedTs_Some, Ht. }
  rewrite displayedTs_nth. simpl.
  rewrite (mergedDisplay_relocates _ _ t Ht Hin).
  by apply indexOf_elem.
Qed.

Lemma mergeAll_displayedTs (inputs : list MergeInput) s (t : Z) :
  displayedTs s = Some t → displayedTs (mergeAll s inputs) = Some t.
Proof.
  revert s. induction inputs as [|i inputs IH]; intros s Ht; simpl; [done|].
  apply IH. by apply mergeFrames_displayedTs.
Qed.

Lemma mergeAll_app s (xs ys : list MergeInput) :
  mergeAll s (xs ++ ys) = mergeAll (mergeAll s xs) ys.
Proof. unfold mergeAll. apply foldl_app. Qed.

End MergeFacts.

(** * The merged index and its pointers *)

Section MergeClaims.
Context {FrameWindow FrameDetails GameMetadata : Type}.
Context `{!FrameAccess FrameWindow FrameDetails}.

Abbreviation State' := (FrameIndexState FrameWindow FrameDetails GameMetadata).
Implicit Types (prev s : State') (w : list FrameWindow) (d : list FrameDetails).
Implicit Types (m : option GameMetadata).

Lemma notBefore_refl (o : option Z) : notBefore o o.
Proof. destruct o; simpl; [lia|done]. Qed.

Lemma mergeTrace_displayed (inputs : list MergeInput) s :
  Forall (notBefore (displayedTs s)) (displayedTs <$> mergeTrace s inputs).
Proof.
  destruct (displayedTs s) as [t|] eqn:Ht.
  - revert s Ht. induction inputs as [|i inputs IH]; intros s Ht; simpl.
    + rewrite Ht. repeat constructor. simpl; lia.
    + rewrite Ht. constructor; [simpl; lia|].
      apply IH. by apply mergeFrames_displayedTs.
  - apply Forall_forall. intros o _. done.
Qed.

(** C1. In live regime (no playback pointer) the timestamp that the
    display index resolves to after one [mergeFrames] call is not
    before the one it resolved to before the call; and along every
    sequence of merges the displayed timestamps are non-decreasing:
    each is not before any earlier one. *)
Theorem live_display_never_rewinds s w d m (inputs : list MergeInput) :
  playbackPointer s = None →
  notBefore (displayedTs s) (displayedTs (mergeFrames w d m s).1)
  ∧ StronglySorted notBefore (displayedTs <$> mergeTrace s inputs).
Proof.
  intros _. split.
  - destruct (displayedTs s) as [t|] eqn:Ht; [|done].
    rewrite (mergeFrames_displayedTs w d m s t Ht). simpl. lia.
  - revert s. induction inputs as [|i inputs IH]; intros s; simpl.
    + repeat constructor.
    + constructor; [apply IH|].
      pose proof (mergeTrace_displayed (i :: inputs) s) as Hall.
      simpl in Hall. by apply Forall_cons in Hall as [_ Hall].
Qed.

Lemma mergeOne_strict s (i : MergeInput) :
  strictlyIncreasing (orderedTimestamps s) →
  strictlyIncreasing (orderedTimestamps (mergeOne s i)).
Proof.
  intros Hs. unfold mergeOne. rewrite mergeFrames_unfold.
  destruct (mergeSkips _ _ _ _); [done|]. apply mergedTimestamps_strict.
Qed.

Lemma mergeAll_strict (inputs : list MergeInput) s :
  strictlyIncreasing (orderedTimestamps s) →
  strictlyIncreasing (orderedTimestamps (mergeAll s inputs)).
Proof.
  revert s. induction inputs as [|i inputs IH]; intros s Hs; simpl; [done|].
  by apply IH, mergeOne_strict.
Qed.

(** C2. After any sequence of [mergeFrames] calls on a fresh state,
    whatever window and details frames each call brings (out of order,
    overlapping, repeated), [orderedTimestamps] is strictly increasing
    and holds no timestamp twice. *)
Theorem merged_index_strictly_increasing (inputs : list MergeInput) :
  strictlyIncreasing
    (orderedTimestamps (mergeAll (createInitialState (GameMetadata := GameMetadata)) inputs))
  ∧ NoDup
      (orderedTimestamps (mergeAll (createInitialState (GameMetadata := GameMetadata)) inputs)).
Proof.
  assert (Hs : strictlyIncreasing
    (orderedTimestamps (mergeAll (createInitialState (GameMetadata := GameMetadata)) inputs))).
  { apply mergeAll_strict. constructor. }
  split; [done|]. by apply strictlyIncreasing_NoDup.
Qed.

Lemma mergeFrames_changed w d m prev :
  changed (mergeFrames w d m prev).2 = negb (mergeSkips w d m prev).
Proof.
  destruct (mergeSkips w d m prev) eqn:Hskip.
  - by apply mergeFrames_skip_flags.
  - by rewrite mergeFrames_flags.
Qed.

(** C3. A merge re-locates both index-valued pointers by timestamp.
    If the display index resolved to [t] before the merge it resolves
    to [t] after it, and whenever the merge rebuilt the index the new
    display index is the position of [t] in the new sorted order.  If
    the playback pointer resolved to [t'] before the merge, it is
    still set after it and resolves to [t']. *)
Theorem merge_relocates_pointers_by_timestamp w d m prev :
  let next := (mergeFrames w d m prev).1 in
  (∀ t, displayedTs prev = Some t →
        displayedTs next = Some t
        ∧ (changed (mergeFrames w d m prev).2 = true →
           displayIndex next = Js.indexOf (orderedTimestamps next) t))
  ∧ (∀ p t', playbackPointer prev = Some p →
        Js.nth (orderedTimestamps prev) p = Some t' →
        ∃ p', playbackPointer next = Some p'
              ∧ Js.nth (orderedTimestamps next) p' = Some t'
              ∧ (changed (mergeFrames w d m prev).2 = true →
                 p' = Js.indexOf (orderedTimestamps next) t')).
Proof.
  cbv zeta. split.
  - intros t Ht. split; [by apply mergeFrames_displayedTs|].
    rewrite mergeFrames_changed, mergeFrames_unfold.
    destruct (mergeSkips _ _ _ _); [done|]. intros _. simpl.
    apply mergedDisplay_relocates; [done|].
    apply mergedTimestamps_elem_of. left.
    eapply Js_nth_elem_of, displayedTs_Some, Ht.
  - intros p t' Hp Ht'.
    rewrite mergeFrames_changed, mergeFrames_unfold.
    destruct (mergeSkips _ _ _ _); [by exists p|]. simpl.
    assert (Hin : t' ∈ mergedTimestamps prev w d).
    { apply mergedTimestamps_elem_of. left. by eapply Js_nth_elem_of. }
    exists (Js.indexOf (mergedTimestamps prev w d) t').
    split; [by eapply mergedPlayback_relocates|].
    split; [by apply indexOf_elem|done].
Qed.

End MergeClaims.

(** * Merging the same input again *)

Lemma indexOf_found (l : list Z) (x : Z) : Js.indexOf l x ≠ -1 → x ∈ l.
Proof.
  intros Hne. destruct (decide (x ∈ l)) as [|Hnin]; [done|].
  by apply indexOf_notin in Hnin.
Qed.

Section InsertAll.
Context {V : Type} (key : V → Z).

Let insertAll (m0 : gmap Z V) (fs : list V) : gmap Z V :=
  foldl (λ m f, <[key f := f]> m) m0 fs.

Lemma insertAll_other (fs : list V) (m0 : gmap Z V) (k : Z) :
  k ∉ key <$> fs → insertAll m0 fs !! k = m0 !! k.
Proof.
  revert m0. induction fs as [|f fs IH]; intros m0 Hk; simpl; [done|].
  rewrite fmap_cons in Hk. apply not_elem_of_cons in Hk as [Hne Hk].
  unfold insertAll in *. simpl. rewrite IH by done. by rewrite lookup_insert_ne.
Qed.

Lemma insertAll_same (fs : list V) (m0 m1 : gmap Z V) (k : Z) :
  k ∈ key <$> fs → insertAll m0 fs !! k = insertAll m1 fs !! k.
Proof.
  revert m0 m1. induction fs as [|f fs IH]; intros m0 m1 Hk.
  - by apply elem_of_nil in Hk.
  - destruct (decide (k ∈ key <$> fs)) as [Hin|Hnin].
    + unfold insertAll in *. simpl. by apply IH.
    + rewrite fmap_cons in Hk. apply elem_of_cons in Hk as [->|Hk]; [|done].
      pose proof (insertAll_other fs (<[key f:=f]> m0) (key f) Hnin) as H0.
      pose proof (insertAll_other fs (<[key f:=f]> m1) (key f) Hnin) as H1.
      unfold insertAll in *. simpl. rewrite H0, H1.
      by rewrite !lookup_insert_eq.
Qed.

Lemma insertAll_known (fs : list V) (m0 : gmap Z V) (k : Z) :
  k ∈ key <$> fs → is_Some (insertAll m0 fs !! k).
Proof.
  revert m0. induction fs as [|f fs IH]; intros m0 Hk.
  - by apply elem_of_nil in Hk.
  - destruct (decide (k ∈ key <$> fs)) as [Hin|Hnin].
    + unfold insertAll in *. simpl. by apply IH.
    + rewrite fmap_cons in Hk. apply elem_of_cons in Hk as [->|Hk]; [|done].
      pose proof (insertAll_other fs (<[key f:=f]> m0) (key f) Hnin) as H0.
      unfold insertAll in *. simpl. rewrite H0, lookup_insert_eq. by eexists.
Qed.

Lemma insertAll_twice (fs : list V) (m0 : gmap Z V) :
  insertAll (insertAll m0 fs) fs = insertAll m0 fs.
Proof.
  apply map_eq. intros k. destruct (decide (k ∈ key <$> fs)) as [Hin|Hnin].
  - by apply insertAll_same.
  - by apply insertAll_other.
Qed.

End InsertAll.

Section Idempotence.
Context {FrameWindow FrameDetails GameMetadata : Type}.
Context `{!FrameAccess FrameWindow FrameDetails}.

Abbreviation State'' := (FrameIndexState FrameWindow FrameDetails GameMetadata).
Implicit Types (prev s : State'') (w : list FrameWindow) (d : list FrameDetails).
Implicit Types (m : option GameMetadata) (sorted : list Z).

Lemma mergedLivePointer_range sorted :
  sorted ≠ [] → mergedLivePointer sorted = Js.length sorted - 1 ∧ 0 ≤ mergedLivePointer sorted.
Proof.
  intros Hne. unfold mergedLivePointer.
  assert (Js.length sorted ≠ 0) by by rewrite Js_length_zero.
  pose proof (Js_length_nonneg sorted).
  rewrite decide_True by lia. lia.
Qed.

Lemma didAddEarlier_same s : didAddEarlier s (orderedTimestamps s) = false.
Proof.
  unfold didAddEarlier. destruct (head (orderedTimestamps s)); [|done].
  apply bool_decide_eq_false. lia.
Qed.

Lemma didAddLater_same s : didAddLater s (orderedTimestamps s) = false.
Proof.
  unfold didAddLater. destruct (last (orderedTimestamps s)); [|done].
  apply bool_decide_eq_false. lia.
Qed.

(** On the main path the new display index is below the length of
    the index, and it is negative only in manual mode. *)
Lemma mergedDisplay1_range prev sorted :
  sorted ≠ [] →
  mergedDisplay1 prev sorted < Js.length sorted
  ∧ (mergedDisplay1 prev sorted < 0 → mergedPlayback prev sorted ≠ None).
Proof.
  intros Hne. destruct (mergedLivePointer_range sorted Hne) as [Hlive Hlive0].
  assert (Js.length sorted ≠ 0) by by rewrite Js_length_zero.
  unfold mergedDisplay1. rewrite decide_False by done. cbv zeta.
  match goal with
  | |- context [decide (?x >= Js.length sorted)] => generalize x; intros d0
  end.
  pose proof (Js_length_nonneg sorted).
  destruct (decide (d0 >= Js.length sorted)); case_decide as Hc;
    (split; [lia|]); intros Hneg Hp; try lia; apply Hc; repeat split; (done || lia).
Qed.

Lemma mergedDisplay2_range prev sorted :
  sorted ≠ [] →
  mergedDisplay2 prev sorted < Js.length sorted
  ∧ (mergedDisplay2 prev sorted < 0 → mergedPlayback prev sorted ≠ None).
Proof.
  intros Hne. pose proof (mergedDisplay1_range prev sorted Hne) as H1.
  unfold mergedDisplay2. case_decide; [|done].
  destruct (match playbackPointer prev with
            | Some p => Js.nth (orderedTimestamps prev) p
            | None => displayedTs prev
            end) as [ts|]; [|done].
  cbv zeta. case_decide as Hfound; [|done].
  apply indexOf_found, indexOf_elem in Hfound. lia.
Qed.

Lemma mergedDisplay_range prev sorted :
  sorted ≠ [] →
  mergedDisplay prev sorted < Js.length sorted
  ∧ (mergedDisplay prev sorted < 0 → mergedPlayback prev sorted ≠ None).
Proof.
  intros Hne. pose proof (mergedDisplay2_range prev sorted Hne) as H2.
  unfold mergedDisplay. case_decide; [|done].
  destruct (displayedTs prev) as [prevTs|]; [|done].
  destruct (Js.nth sorted (mergedDisplay2 prev sorted)) as [cur|]; [|done].
  case_decide; [|done]. cbv zeta. case_decide as Hfound; [|done].
  apply indexOf_found, indexOf_elem in Hfound. lia.
Qed.

Lemma mergedDisplay_nil prev : mergedDisplay prev [] = -1.
Proof.
  assert (H1 : mergedDisplay1 prev [] = -1) by done.
  assert (H2 : mergedDisplay2 prev [] = -1).
  { unfold mergedDisplay2. rewrite decide_False; [done|]. by intros [? _]. }
  unfold mergedDisplay. rewrite H2. rewrite decide_False; [done|]. lia.
Qed.

(** A display index that already fits the index it points into is
    kept by a merge that brings no new timestamp. *)
Lemma mergedDisplay_fixed s :
  strictlyIncreasing (orderedTimestamps s) →
  (orderedTimestamps s = [] → displayIndex s = -1) →
  displayIndex s < Js.length (orderedTimestamps s) →
  (displayIndex s < 0 → orderedTimestamps s ≠ [] →
   mergedPlayback s (orderedTimestamps s) ≠ None) →
  mergedDisplay s (orderedTimestamps s) = displayIndex s.
Proof.
  intros Hstrict Hnil Hlt Hneg.
  destruct (displayedTs s) as [t|] eqn:Ht.
  - rewrite (mergedDisplay_relocates s _ t Ht).
    + apply indexOf_nth_NoDup; [by apply strictlyIncreasing_NoDup|].
      by apply displayedTs_Some.
    + eapply Js_nth_elem_of, displayedTs_Some, Ht.
  - destruct (decide (orderedTimestamps s = [])) as [Hempty|Hne].
    { rewrite Hempty at 1. rewrite Hnil by done. apply mergedDisplay_nil. }
    assert (Hd0 : displayIndex s < 0).
    { unfold displayedTs in Ht. case_decide as Hr; [|lia].
      destruct (Js.nth _ _) eqn:Hn; [done|].
      unfold Js.nth in Hn. rewrite decide_True in Hn by lia.
      apply lookup_ge_None in Hn. unfold Js.length in *. lia. }
    assert (H1 : mergedDisplay1 s (orderedTimestamps s) = displayIndex s).
    { unfold mergedDisplay1. rewrite Ht.
      assert (Js.length (orderedTimestamps s) ≠ 0) by by rewrite Js_length_zero.
      pose proof (Js_length_nonneg (orderedTimestamps s)).
      rewrite decide_False by done. cbv zeta.
      rewrite (decide_False (P := displayIndex s >= _)) by lia.
      rewrite decide_False; [done|]. intros (_ & Hp & _). by apply Hneg. }
    assert (H2 : mergedDisplay2 s (orderedTimestamps s) = displayIndex s).
    { unfold mergedDisplay2. rewrite didAddEarlier_same.
      rewrite decide_False; [done|]. by intros [? _]. }
    unfold mergedDisplay. rewrite H2, Ht. by case_decide.
Qed.

Lemma mergedPlayback_in_range prev sorted (i : Z) :
  mergedPlayback prev sorted = Some i → ∃ ts, Js.nth sorted i = Some ts.
Proof.
  unfold mergedPlayback.
  destruct (playbackPointer prev) as [p|]; [|done].
  destruct (Js.nth (orderedTimestamps prev) p) as [ts|]; [|done].
  cbv zeta. case_decide as Hfound; [done|]. intros [= <-].
  exists ts. by apply indexOf_found, indexOf_elem in Hfound as [_ Hnth].
Qed.

Lemma mergedPlayback_fixed s :
  NoDup (orderedTimestamps s) →
  (∀ i, playbackPointer s = Some i → ∃ ts, Js.nth (orderedTimestamps s) i = Some ts) →
  mergedPlayback s (orderedTimestamps s) = playbackPointer s.
Proof.
  intros Hnd Hrange. unfold mergedPlayback.
  destruct (playbackPointer s) as [i|]; [|done].
  destruct (Hrange i eq_refl) as [ts Hts]. rewrite Hts. cbv zeta.
  rewrite (indexOf_nth_NoDup _ _ _ Hnd Hts).
  apply Js_nth_range in Hts. by rewrite decide_False by lia.
Qed.

Lemma noteLater_known s (latest : option Z) (l acc : list Z) :
  (∀ x, x ∈ l → has (framesWindow s) x = true ∨ has (framesDetails s) x = true) →
  foldl (noteLater s latest) acc l = acc.
Proof.
  revert acc. induction l as [|x l IH]; intros acc Hl; simpl; [done|].
  assert (Hx : noteLater s latest acc x = acc).
  { unfold noteLater. destruct (Hl x) as [-> | ->]; [by left|done|].
    by rewrite andb_false_r. }
  rewrite Hx. apply IH. intros y Hy. apply Hl. by right.
Qed.

(** The main path of [mergeFrames] reaches a fixed point at once:
    building the merged state from its own result gives it back. *)
Lemma mergedState_twice w d m prev :
  mergedState w d m (mergedState w d m prev) = mergedState w d m prev.
Proof.
  set (s1 := mergedState w d m prev).
  assert (Hstrict : strictlyIncreasing (orderedTimestamps s1))
    by apply mergedTimestamps_strict.
  assert (Hts : mergedTimestamps s1 w d = orderedTimestamps s1).
  { apply mergedTimestamps_known; [done|..]; intros x Hx;
      apply mergedTimestamps_elem_of; tauto. }
  assert (Hwin : mergedWindow s1 w = framesWindow s1)
    by apply (insertAll_twice windowEpoch).
  assert (Hdet : mergedDetails s1 d = framesDetails s1)
    by apply (insertAll_twice detailsEpoch).
  assert (Hpp : mergedPlayback s1 (orderedTimestamps s1) = playbackPointer s1).
  { apply mergedPlayback_fixed; [by apply strictlyIncreasing_NoDup|].
    intros i Hi. exact (mergedPlayback_in_range prev _ i Hi). }
  assert (Hdisp : mergedDisplay s1 (orderedTimestamps s1) = displayIndex s1).
  { assert (Hd1 : displayIndex s1 = mergedDisplay prev (orderedTimestamps s1))
      by reflexivity.
    apply mergedDisplay_fixed; [done|..].
    - intros Hnil. rewrite Hd1, Hnil. apply mergedDisplay_nil.
    - destruct (decide (orderedTimestamps s1 = [])) as [Hnil|Hne].
      + rewrite Hd1, Hnil, mergedDisplay_nil. unfold Js.length. simpl. lia.
      + rewrite Hd1. by apply mergedDisplay_range.
    - intros Hneg Hne. rewrite Hpp. rewrite Hd1 in Hneg.
      by apply (mergedDisplay_range prev). }
  assert (Hlater : mergedLater s1 w d = []).
  { unfold mergedLater.
    rewrite (noteLater_known s1 _ (windowEpoch <$> w)).
    - apply noteLater_known. intros x Hx. right.
      apply bool_decide_eq_true. by apply (insertAll_known detailsEpoch).
    - intros x Hx. left.
      apply bool_decide_eq_true. by apply (insertAll_known windowEpoch). }
  assert (Hqueue : mergedQueue s1 (orderedTimestamps s1) [] = playQueue s1).
  { unfold mergedQueue. rewrite didAddEarlier_same.
    rewrite decide_False by (by intros [? _]).
    rewrite decide_False; [done|]. intros [_ Hlen]. done. }
  assert (Hmeta : mergedMetadata s1 m = metadata s1).
  { unfold mergedMetadata. simpl. unfold mergedMetadata.
    destruct (metadata prev); [done|]. by destruct m. }
  assert (Hfinal : mergedFinal s1 w = isFinal s1).
  { unfold mergedFinal. rewrite Hwin. simpl. unfold mergedFinal.
    destruct (isFinal prev), (existsb windowIsTerminal (snd <$> map_to_list _)),
      (existsb windowIsTerminal w); done. }
  unfold mergedState at 1. cbv zeta.
  rewrite Hts, Hwin, Hdet, Hpp, Hdisp, Hlater, Hqueue, Hmeta, Hfinal.
  reflexivity.
Qed.

(** C4. [mergeFrames] is idempotent.  Calling it a second time with
    the same window frames, details frames and metadata gives back
    the state the first call produced, field for field, and the
    second call reports neither earlier nor later timestamps
    added. *)
Theorem mergeFrames_idempotent w d m prev :
  let first := (mergeFrames w d m prev).1 in
  (mergeFrames w d m first).1 = first
  ∧ addedEarlier (mergeFrames w d m first).2 = false
  ∧ addedLater (mergeFrames w d m first).2 = false.
Proof.
  cbv zeta. rewrite (mergeFrames_unfold w d m prev).
  destruct (mergeSkips w d m prev) eqn:Hskip.
  - rewrite mergeFrames_unfold, Hskip. split; [done|].
    by apply mergeFrames_skip_flags.
  - set (s1 := mergedState w d m prev).
    rewrite mergeFrames_unfold.
    destruct (mergeSkips w d m s1) eqn:Hskip1.
    + split; [done|]. by apply mergeFrames_skip_flags.
    + split; [apply mergedState_twice|].
      rewrite mergeFrames_flags by done. simpl.
      assert (Hts : mergedTimestamps s1 w d = orderedTimestamps s1).
      { apply mergedTimestamps_known; [apply mergedTimestamps_strict|..];
          intros x Hx; apply mergedTimestamps_elem_of; tauto. }
      rewrite Hts. split; [apply didAddEarlier_same|apply didAddLater_same].
Qed.

End Idempotence.

(** * The closest index *)

Lemma findClosest_from_spec (rest pre : list Z) (epoch best bestDiff tb : Z) :
  pre ≠ [] →
  Js.nth pre best = Some tb →
  bestDiff = Z.abs (tb - epoch) →
  (∀ j t, Js.nth pre j = Some t → bestDiff ≤ Z.abs (t - epoch)) →
  let r := findClosest_from rest epoch (Js.length pre) best bestDiff in
  ∃ tr, Js.nth (pre ++ rest) r = Some tr
        ∧ ∀ j t, Js.nth (pre ++ rest) j = Some t → Z.abs (tr - epoch) ≤ Z.abs (t - epoch).
Proof.
  revert pre best bestDiff tb.
  induction rest as [|x rest IH]; intros pre best bestDiff tb Hne Hbest Hdiff Hmin; simpl.
  - rewrite app_nil_r. exists tb. split; [done|]. intros j t Hj.
    specialize (Hmin j t Hj). lia.
  - assert (Hlen : Js.length (pre ++ [x]) = Js.length pre + 1).
    { unfold Js.length. rewrite length_app. simpl. lia. }
    assert (Hnew : Js.nth (pre ++ [x]) (Js.length pre) = Some x).
    { apply Js_nth_Some. split; [apply Js_length_nonneg|].
      unfold Js.length. rewrite Nat2Z.id. by rewrite list_lookup_middle. }
    assert (Hold : ∀ j t, Js.nth (pre ++ [x]) j = Some t →
                          Js.nth pre j = Some t ∨ t = x).
    { intros j t [Hj Hl]%Js_nth_Some.
      apply lookup_app_Some in Hl as [Hl|[_ Hl]].
      - left. by apply Js_nth_Some.
      - right. apply list_lookup_singleton_Some in Hl as [_ ?]. done. }
    replace (pre ++ x :: rest) with ((pre ++ [x]) ++ rest)
      by (by rewrite <- app_assoc).
    rewrite <- Hlen. case_decide as Hlt.
    + eapply (IH (pre ++ [x]) _ _ x); [by destruct pre|exact Hnew|done|].
      intros j t Hj. destruct (Hold j t Hj) as [Hp| ->]; [|lia].
      specialize (Hmin j t Hp). lia.
    + eapply (IH (pre ++ [x]) _ _ tb); [by destruct pre| |done|].
      * apply Js_nth_Some in Hbest as [H0 Hl]. apply Js_nth_Some. split; [done|].
        by apply lookup_app_l_Some.
      * intros j t Hj. destruct (Hold j t Hj) as [Hp| ->]; [exact (Hmin j t Hp)|lia].
Qed.

(** On a non-empty array the modelled helper returns an index that
    holds a timestamp, and no other timestamp is nearer to [epoch]. *)
Lemma findClosestTimestampIndex_closest (timestamps : list Z) (epoch : Z) :
  timestamps ≠ [] →
  ∃ tr, Js.nth timestamps (findClosestTimestampIndex timestamps epoch) = Some tr
        ∧ ∀ j t, Js.nth timestamps j = Some t → Z.abs (tr - epoch) ≤ Z.abs (t - epoch).
Proof.
  destruct timestamps as [|t0 rest]; [done|]. intros _.
  unfold findClosestTimestampIndex.
  apply (findClosest_from_spec rest [t0] epoch 0 _ t0); [done..|].
  intros j t [Hj Hl]%Js_nth_Some.
  apply list_lookup_singleton_Some in Hl as [_ ->]. lia.
Qed.

(** * Playback and mode controls *)

Section ModeClaims.
Context {FrameWindow FrameDetails GameMetadata : Type}.
Context `{!FrameAccess FrameWindow FrameDetails}.

Abbreviation Eng' := (Engine FrameWindow FrameDetails GameMetadata).
Implicit Types (e : Eng').

Lemma scheduleNextFrame_state e : state (scheduleNextFrame e) = state e.
Proof.
  unfold scheduleNextFrame. destruct (negb (isMountedRef e)); [done|].
  cbv zeta. destruct (playbackPointer (state e)) as [p|].
  - destruct (_ || _); [done|].
    destruct (Js.nth (orderedTimestamps (state e)) (p + 1)),
      (Js.nth (orderedTimestamps (state e)) p); done.
  - destruct (playQueue (state e)) as [|nextIndex q]; [done|].
    destruct (isLivePaused (state e)); [done|].
    by destruct (Js.nth (orderedTimestamps (state e)) nextIndex).
Qed.

Lemma startScheduler_state e : state (startScheduler e) = state e.
Proof.
  unfold startScheduler. destruct (schedulerTimerRef e); [done|].
  cbv zeta. rewrite scheduleNextFrame_state.
  by case_decide.
Qed.

Lemma ensureScheduler_state e : state (ensureScheduler e) = state e.
Proof.
  unfold ensureScheduler. destruct (_ && _); [apply startScheduler_state|done].
Qed.

(** C6. A playback step taken on the last frame (the playback pointer
    is at the live pointer): when the match is not final the session
    goes back to live-follow, with the playback pointer cleared, the
    display index at the live pointer and the pause flag off; when
    the match is final both pointers stay where they are and the
    pause flag is set. *)
Theorem showNextFrame_on_last_frame e (p : Z) :
  isMountedRef e = true →
  playbackPointer (state e) = Some p →
  p = livePointer (state e) →
  if isFinal (state e)
  then playbackPointer (state (showNextFrame e)) = Some p
       ∧ displayIndex (state (showNextFrame e)) = displayIndex (state e)
       ∧ isLivePaused (state (showNextFrame e)) = true
  else playbackPointer (state (showNextFrame e)) = None
       ∧ displayIndex (state (showNextFrame e)) = livePointer (state e)
       ∧ isLivePaused (state (showNextFrame e)) = false.
Proof.
  intros Hm Hp Hlive. unfold showNextFrame. rewrite Hm. simpl.
  unfold showNextFrame_state. rewrite Hp. cbv zeta.
  rewrite decide_False by lia.
  destruct (isFinal (state e)); simpl; by rewrite ?Hp.
Qed.

(** C7, as the hook has it.  On a non-empty index, [scrubTo] towards
    [epoch] finds the index of the timestamp nearest to [epoch].
    Unless the playback pointer is already there, the session enters
    Manual-Paused: playback pointer and display index are set to that
    index, the scheduler timer is cleared, the pause flag is set and
    the session is no longer live.  When the playback pointer is
    already at that index the call changes nothing. *)
Theorem setPlaybackByEpoch_enters_manual_paused e (epoch : Z) :
  orderedTimestamps (state e) ≠ [] →
  let index := findClosestTimestampIndex (orderedTimestamps (state e)) epoch in
  let e' := setPlaybackByEpoch epoch e in
  (∃ nearest, Js.nth (orderedTimestamps (state e)) index = Some nearest
     ∧ ∀ j t, Js.nth (orderedTimestamps (state e)) j = Some t →
              Z.abs (nearest - epoch) ≤ Z.abs (t - epoch))
  ∧ (playbackPointer (state e) ≠ Some index →
     playbackPointer (state e') = Some index
     ∧ displayIndex (state e') = index
     ∧ schedulerTimerRef e' = None
     ∧ isLivePaused (state e') = true
     ∧ isLive (state e') = false)
  ∧ (playbackPointer (state e) = Some index → e' = e).
Proof.
  intros Hne. cbv zeta.
  destruct (findClosestTimestampIndex_closest _ epoch Hne) as (nearest & Hnth & Hmin).
  split; [by exists nearest|].
  pose proof (Js_nth_range _ _ _ Hnth) as Hrange.
  unfold setPlaybackByEpoch. cbv zeta.
  rewrite decide_False by by rewrite Js_length_zero.
  rewrite decide_False by lia.
  split; intros Hpp.
  - by rewrite decide_False by done.
  - by rewrite decide_True by done.
Qed.

(** C8. From manual mode [goLive] clears the playback pointer, puts
    the display index on the live pointer and clears the pause flag;
    every other field of the state is as before. *)
Theorem goLive_from_manual e (p : Z) :
  playbackPointer (state e) = Some p →
  let s := state e in
  let s' := state (goLive e) in
  playbackPointer s' = None
  ∧ displayIndex s' = livePointer s
  ∧ isLivePaused s' = false
  ∧ speedFactor s' = speedFactor s
  ∧ framesWindow s' = framesWindow s
  ∧ framesDetails s' = framesDetails s
  ∧ orderedTimestamps s' = orderedTimestamps s
  ∧ metadata s' = metadata s
  ∧ desiredLagMs s' = desiredLagMs s
  ∧ hasFirstFrame s' = hasFirstFrame s
  ∧ playQueue s' = playQueue s
  ∧ livePointer s' = livePointer s
  ∧ isFinal s' = isFinal s
  ∧ isBackfilling s' = isBackfilling s.
Proof.
  intros Hp. cbv zeta.
  assert (Hs : state (goLive e) = goLive_state (state e)).
  { unfold goLive. cbv zeta.
    destruct (schedulerTimerRef _); [done|]. by rewrite startScheduler_state. }
  rewrite Hs. unfold goLive_state. rewrite Hp. simpl. done.
Qed.

End ModeClaims.

(** * Speed factor and step delay *)

Lemma Math_max_spec (a b : Q) :
  (Js.Math_max a b == Qmax a b)%Q ∧ (a <= Js.Math_max a b)%Q ∧ (b <= Js.Math_max a b)%Q.
Proof.
  unfold Js.Math_max. destruct (Qle_bool a b) eqn:Hab.
  - apply Qle_bool_iff in Hab. rewrite (Q.max_r a b Hab). repeat split; lra.
  - assert (Hba : (b <= a)%Q).
    { destruct (Qlt_le_dec a b) as [Hlt|Hle]; [|done].
      apply Qlt_le_weak, Qle_bool_iff in Hlt. congruence. }
    rewrite (Q.max_l a b Hba). repeat split; lra.
Qed.

Lemma Math_min_spec (a b : Q) :
  (Js.Math_min a b == Qmin a b)%Q ∧ (Js.Math_min a b <= a)%Q ∧ (Js.Math_min a b <= b)%Q.
Proof.
  unfold Js.Math_min. destruct (Qle_bool a b) eqn:Hab.
  - apply Qle_bool_iff in Hab. rewrite (Q.min_l a b Hab). repeat split; lra.
  - assert (Hba : (b <= a)%Q).
    { destruct (Qlt_le_dec a b) as [Hlt|Hle]; [|done].
      apply Qlt_le_weak, Qle_bool_iff in Hlt. congruence. }
    rewrite (Q.min_r a b Hba). repeat split; lra.
Qed.

Lemma clamp_inside (lo hi x : Q) :
  (lo <= x)%Q → (x <= hi)%Q → (Js.Math_max lo (Js.Math_min hi x) == x)%Q.
Proof.
  intros Hlo Hhi.
  destruct (Math_max_spec lo (Js.Math_min hi x)) as [-> _].
  destruct (Math_min_spec hi x) as [-> _].
  rewrite (Q.min_r hi x Hhi). by apply Q.max_r.
Qed.

Lemma clamp_range (lo hi x : Q) :
  (lo <= hi)%Q →
  (lo <= Js.Math_max lo (Js.Math_min hi x) <= hi)%Q.
Proof.
  intros Hlh.
  destruct (Math_max_spec lo (Js.Math_min hi x)) as [Heq [Hl _]].
  split; [done|]. rewrite Heq.
  destruct (Math_min_spec hi x) as [_ [Hh _]].
  apply Q.max_lub; done.
Qed.

Lemma Qle_bool_false (a b : Q) : Qle_bool a b = false → (b < a)%Q.
Proof.
  intros Hab. destruct (Qlt_le_dec b a) as [Hlt|Hle]; [done|].
  apply Qle_bool_iff in Hle. congruence.
Qed.

Lemma clamp_low (lo hi x : Q) :
  (lo <= hi)%Q → (x <= lo)%Q → (Js.Math_max lo (Js.Math_min hi x) == lo)%Q.
Proof.
  intros Hlh Hx. unfold Js.Math_max, Js.Math_min.
  destruct (Qle_bool hi x) eqn:H1;
    [apply Qle_bool_iff in H1|apply Qle_bool_false in H1];
    match goal with |- context [Qle_bool ?a ?b] => destruct (Qle_bool a b) eqn:H2 end;
    try apply Qle_bool_iff in H2; try apply Qle_bool_false in H2; lra.
Qed.

Lemma clamp_high (lo hi x : Q) :
  (lo <= hi)%Q → (hi <= x)%Q → (Js.Math_max lo (Js.Math_min hi x) == hi)%Q.
Proof.
  intros Hlh Hx. unfold Js.Math_max, Js.Math_min.
  destruct (Qle_bool hi x) eqn:H1;
    [apply Qle_bool_iff in H1|apply Qle_bool_false in H1];
    match goal with |- context [Qle_bool ?a ?b] => destruct (Qle_bool a b) eqn:H2 end;
    try apply Qle_bool_iff in H2; try apply Qle_bool_false in H2; lra.
Qed.

Lemma stepDelay_range (rawDelta : Z) (factor : Q) :
  (MIN_FRAME_MS <= stepDelay rawDelta factor <= MAX_FRAME_MS)%Q.
Proof.
  assert (Hmm : (MIN_FRAME_MS <= MAX_FRAME_MS)%Q) by (by vm_compute).
  unfold stepDelay. case_decide; [|by apply clamp_range].
  destruct (Qeq_bool factor (inject_Z 0)); [|by apply clamp_range].
  split; [done|apply Qle_refl].
Qed.

(** With a positive delta whose quotient by the factor lies inside the
    clamp, the delay is that quotient. *)
Lemma stepDelay_unclamped (rawDelta : Z) (factor : Q) :
  rawDelta > 0 → ¬ (factor == 0)%Q →
  (MIN_FRAME_MS <= inject_Z rawDelta / factor)%Q →
  (inject_Z rawDelta / factor <= MAX_FRAME_MS)%Q →
  (stepDelay rawDelta factor == inject_Z rawDelta / factor)%Q.
Proof.
  intros Hpos Hf Hlo Hhi. unfold stepDelay. rewrite decide_True by done.
  destruct (Qeq_bool factor (inject_Z 0)) eqn:Hz.
  - apply Qeq_bool_iff in Hz. done.
  - by apply clamp_inside.
Qed.

Lemma stepDelay_at_one (rawDelta : Z) :
  rawDelta > 0 →
  stepDelay rawDelta 1
  = Js.Math_max MIN_FRAME_MS (Js.Math_min MAX_FRAME_MS (inject_Z rawDelta / 1)).
Proof. intros Hpos. unfold stepDelay. by rewrite decide_True by done. Qed.

(** A delay at factor 1 that lies in [300, 4000) is the raw delta
    itself, and the delay at factor 2 is half of it. *)
Lemma stepDelay_halves (rawDelta : Z) (d1 : Q) :
  stepDelay rawDelta 1 = d1 →
  (300 <= d1)%Q → (d1 < 4000)%Q →
  (stepDelay rawDelta 2 == d1 / 2)%Q.
Proof.
  intros Hd1 Hlo Hhi.
  assert (Hmm : (MIN_FRAME_MS <= MAX_FRAME_MS)%Q) by (by vm_compute).
  assert (Hmin : (MIN_FRAME_MS == 150)%Q) by reflexivity.
  assert (Hmax : (MAX_FRAME_MS == 4000)%Q) by reflexivity.
  destruct (decide (rawDelta > 0)) as [Hpos|Hnpos].
  - assert (Hraw : (d1 == inject_Z rawDelta)%Q).
    { rewrite <- Hd1 in Hlo, Hhi |- *. rewrite stepDelay_at_one in * by done.
      destruct (Qlt_le_dec (inject_Z rawDelta / 1) MAX_FRAME_MS) as [Hlt|Hge].
      - destruct (Qlt_le_dec (inject_Z rawDelta / 1) MIN_FRAME_MS) as [Hsmall|Hbig].
        + exfalso. rewrite clamp_low in Hlo by lra. lra.
        + rewrite clamp_inside by lra. field.
      - exfalso. rewrite clamp_high in Hhi by lra. lra. }
    rewrite stepDelay_unclamped; try done.
    + rewrite Hraw. reflexivity.
    + rewrite <- Hraw. unfold Qdiv. change (/ 2)%Q with (1 # 2)%Q. lra.
    + rewrite <- Hraw. unfold Qdiv. change (/ 2)%Q with (1 # 2)%Q. lra.
  - exfalso. unfold stepDelay in Hd1. rewrite decide_False in Hd1 by done.
    vm_compute in Hd1. subst d1. lra.
Qed.

Section SpeedClaims.
Context {FrameWindow FrameDetails GameMetadata : Type}.
Context `{!FrameAccess FrameWindow FrameDetails}.

Abbreviation Eng'' := (Engine FrameWindow FrameDetails GameMetadata).
Abbreviation Chunk'' := (Chunk FrameWindow FrameDetails GameMetadata).
Abbreviation Action'' := (Action FrameWindow FrameDetails GameMetadata).
Implicit Types (e : Eng'').

(** The timer [scheduleNextFrame] arms: the step delay of the raw
    delta at the current speed factor. *)
Lemma scheduleNextFrame_timer e :
  isMountedRef e = true →
  schedulerTimerRef (scheduleNextFrame e)
  = (λ rawDelta, stepDelay rawDelta (speedFactor (state e)))
      <$> nextRawDelta (state e).
Proof.
  intros Hm. unfold scheduleNextFrame, nextRawDelta. rewrite Hm. simpl.
  destruct (playbackPointer (state e)) as [p|].
  - destruct (_ || _); [done|].
    destruct (Js.nth (orderedTimestamps (state e)) (p + 1)),
      (Js.nth (orderedTimestamps (state e)) p); done.
  - destruct (playQueue (state e)) as [|nextIndex q]; [done|].
    destruct (isLivePaused (state e)); [done|].
    by destruct (Js.nth (orderedTimestamps (state e)) nextIndex).
Qed.

Lemma nextRawDelta_setSpeedFactor e (factor : Q) :
  nextRawDelta (state (setSpeedFactor factor e)) = nextRawDelta (state e).
Proof. reflexivity. Qed.

Lemma mergeFramesE_speedFactor w d m e :
  speedFactor (state (mergeFramesE w d m e).1) = speedFactor (state e).
Proof.
  unfold mergeFramesE. simpl. rewrite mergeFrames_unfold.
  by destruct (mergeSkips _ _ _ _).
Qed.

Lemma markHasFirstFrame_speedFactor e :
  speedFactor (state (markHasFirstFrame e)) = speedFactor (state e).
Proof.
  unfold markHasFirstFrame, markHasFirstFrame_state. simpl.
  destruct (hasFirstFrame (state e)); [|done].
  by destruct (isBackfilling (state e)).
Qed.

Lemma showNextFrame_speedFactor e :
  speedFactor (state (showNextFrame e)) = speedFactor (state e).
Proof.
  unfold showNextFrame. destruct (negb (isMountedRef e)); [done|]. simpl.
  unfold showNextFrame_state. destruct (playbackPointer (state e)) as [p|].
  - cbv zeta. case_decide; [done|]. by destruct (negb (isFinal (state e))).
  - destruct (playQueue (state e)); [done|].
    by destruct (isLivePaused (state e)).
Qed.

Lemma processResult_speedFactor (results : list (option Chunk'' * Z))
    (acc : BatchProgress FrameWindow FrameDetails GameMetadata) :
  speedFactor (state (batchEngine (foldl processResult acc results)))
  = speedFactor (state (batchEngine acc)).
Proof.
  revert acc. induction results as [|r results IH]; intros acc; simpl; [done|].
  rewrite IH. destruct r as [[[[w d] m]|] targetCursor]; simpl; [|done].
  destruct (_ || _); [|done]. simpl. apply mergeFramesE_speedFactor.
Qed.

Lemma backfillIteration_speedFactor (fetch : Z → option Chunk'') e :
  speedFactor (state (backfillIteration fetch e).1) = speedFactor (state e).
Proof.
  unfold backfillIteration. cbv zeta.
  destruct (hasFirstFrame (state e)); [reflexivity|].
  case_decide; [reflexivity|].
  set (init := match backfillCursorRef e with
               | Some _ => Some e
               | None => _
               end).
  assert (Hinit : ∀ e1, init = Some e1 → state e1 = state e).
  { subst init. intros e1. destruct (backfillCursorRef e); [by intros [= <-]|].
    destruct (Js.nth (orderedTimestamps (state e)) 0); [by intros [= <-]|done]. }
  destruct init as [e1|]; [|reflexivity]. specialize (Hinit e1 eq_refl).
  case_decide.
  { cbn [fst]. rewrite markHasFirstFrame_speedFactor. by rewrite Hinit. }
  match goal with
  | |- context [foldl processResult ?a ?r] =>
      pose proof (processResult_speedFactor r a) as Hfold;
      cbn [batchEngine] in Hfold;
      generalize dependent (foldl processResult a r)
  end.
  intros acc Hfold. rewrite Hinit in Hfold.
  destruct (anyProgress acc).
  - destruct (Js.nth (orderedTimestamps (state (batchEngine acc))) 0); cbn [fst].
    + rewrite ensureScheduler_state. exact Hfold.
    + rewrite markHasFirstFrame_speedFactor. exact Hfold.
  - destruct (negb (sawFrames acc)); cbn [fst].
    { rewrite markHasFirstFrame_speedFactor. exact Hfold. }
    destruct (earliestFetchedTimestamp acc); cbn [fst].
    { rewrite ensureScheduler_state. exact Hfold. }
    destruct (Js.nth (orderedTimestamps (state (batchEngine acc))) 0); cbn [fst].
    + rewrite ensureScheduler_state. exact Hfold.
    + rewrite markHasFirstFrame_speedFactor. exact Hfold.
Qed.

Lemma step_speedFactor e (a : Action'') :
  isSetSpeedFactor a = false →
  speedFactor (state (step e a)) = speedFactor (state e).
Proof.
  destruct a; simpl; intros Hns; try done.
  - apply mergeFramesE_speedFactor.
  - unfold schedulerTick. rewrite scheduleNextFrame_state.
    apply showNextFrame_speedFactor.
  - by rewrite startScheduler_state.
  - unfold resumeLive. by rewrite startScheduler_state.
  - unfold goLive. cbv zeta.
    assert (Hg : speedFactor (goLive_state (state e)) = speedFactor (state e)).
    { unfold goLive_state. by destruct (playbackPointer (state e)). }
    destruct (schedulerTimerRef _); [done|]. by rewrite startScheduler_state.
  - unfold setPlaybackByEpoch. cbv zeta. by repeat case_decide.
  - apply markHasFirstFrame_speedFactor.
  - apply backfillIteration_speedFactor.
Qed.

Lemma run_speedFactor (actions : list Action'') e :
  forallb (λ a, negb (isSetSpeedFactor a)) actions = true →
  speedFactor (state (run e actions)) = speedFactor (state e).
Proof.
  revert e. induction actions as [|a actions IH]; intros e Hall; simpl; [done|].
  simpl in Hall. apply andb_true_iff in Hall as [Ha Hall].
  unfold run in *. rewrite IH by done.
  apply step_speedFactor. by apply negb_true_iff.
Qed.

(** The delay for a positive delta and a speed factor other than zero. *)
Lemma stepDelay_formula (rawDelta : Z) (factor : Q) :
  rawDelta > 0 → ¬ (factor == 0)%Q →
  stepDelay rawDelta factor
  = Js.Math_max MIN_FRAME_MS (Js.Math_min MAX_FRAME_MS (inject_Z rawDelta / factor)).
Proof.
  intros Hpos Hf. unfold stepDelay. rewrite decide_True by done.
  destruct (Qeq_bool factor (inject_Z 0)) eqn:Hz; [|done].
  apply Qeq_bool_iff in Hz. done.
Qed.

(** C9, as the hook has it.  The delay [scheduleNextFrame] arms is the
    inter-frame delta divided by the speed factor and then clamped to
    150..4000 ms, for every speed factor other than zero; the delta is
    the gap from the playback pointer's timestamp to the next one in
    manual mode, and from the displayed timestamp to the head of the
    play queue in live mode.  For the same state, when the delay armed
    at speed factor 1 is at least 300 ms and below 4000 ms, so that
    neither delay is clamped, the delay armed at speed factor 2 is
    exactly half of it.  And no sequence of merges, scheduler ticks,
    backfill batches and mode commands changes the speed factor unless
    it contains a [setSpeedFactor] call. *)
Theorem speed_factor_scales_unclamped_delay :
  (∀ e (rawDelta : Z),
      isMountedRef e = true →
      nextRawDelta (state e) = Some rawDelta →
      rawDelta > 0 → ¬ (speedFactor (state e) == 0)%Q →
      schedulerTimerRef (scheduleNextFrame e)
      = Some (Js.Math_max MIN_FRAME_MS
                (Js.Math_min MAX_FRAME_MS
                   (inject_Z rawDelta / speedFactor (state e)))))
  ∧ (∀ e (p nextTs currentTs : Z),
      playbackPointer (state e) = Some p →
      isLivePaused (state e) = false →
      p < livePointer (state e) →
      Js.nth (orderedTimestamps (state e)) (p + 1) = Some nextTs →
      Js.nth (orderedTimestamps (state e)) p = Some currentTs →
      nextRawDelta (state e) = Some (nextTs - currentTs))
  ∧ (∀ e (nextIndex nextTs prevTs : Z) (queue : list Z),
      playbackPointer (state e) = None →
      isLivePaused (state e) = false →
      playQueue (state e) = nextIndex :: queue →
      displayIndex (state e) >= 0 →
      Js.nth (orderedTimestamps (state e)) nextIndex = Some nextTs →
      Js.nth (orderedTimestamps (state e)) (displayIndex (state e)) = Some prevTs →
      nextRawDelta (state e) = Some (nextTs - prevTs))
  ∧ (∀ e (d1 : Q),
      isMountedRef e = true →
      schedulerTimerRef (scheduleNextFrame (setSpeedFactor 1 e)) = Some d1 →
      (300 <= d1)%Q → (d1 < 4000)%Q →
      ∃ d2, schedulerTimerRef (scheduleNextFrame (setSpeedFactor 2 e)) = Some d2
            ∧ (d2 == d1 / 2)%Q)
  ∧ (∀ e (actions : list Action''),
      forallb (λ a, negb (isSetSpeedFactor a)) actions = true →
      speedFactor (state (run e actions)) = speedFactor (state e)).
Proof.
  split; [|split; [|split; [|split]]].
  - intros e rawDelta Hm Hraw Hpos Hf.
    rewrite scheduleNextFrame_timer by done. rewrite Hraw. cbn [fmap option_fmap option_map].
    f_equal. by apply stepDelay_formula.
  - intros e p nextTs currentTs Hp Hpause Hlt Hnext Hcur.
    unfold nextRawDelta. rewrite Hp, Hpause. cbn [orb].
    rewrite bool_decide_eq_false_2 by lia. by rewrite Hnext, Hcur.
  - intros e nextIndex nextTs prevTs queue Hp Hpause Hq Hd Hnext Hprev.
    unfold nextRawDelta. rewrite Hp, Hq, Hpause, Hnext. cbv zeta.
    rewrite (decide_True (P := displayIndex (state e) >= 0)) by done.
    rewrite (decide_True (P := displayIndex (state e) >= 0)) by done.
    by rewrite Hprev.
  - intros e d1 Hm Hd1 Hlo Hhi.
    rewrite scheduleNextFrame_timer in Hd1 |- * by done.
    rewrite nextRawDelta_setSpeedFactor in Hd1 |- *.
    destruct (nextRawDelta (state e)) as [rawDelta|]; [|done].
    simpl in Hd1 |- *. injection Hd1 as Hd1.
    eexists. split; [reflexivity|].
    by apply stepDelay_halves.
  - intros e actions. apply run_speedFactor.
Qed.

(** C10. [setSpeedFactor x] stores [max(0.5, min(10, x))], which lies
    between 0.5 and 10, and touches nothing else: every other field
    of the state and every ref is as before. *)
Theorem setSpeedFactor_clamps e (x : Q) :
  let s := state e in
  let s' := state (setSpeedFactor x e) in
  speedFactor s' = Js.Math_max (1 # 2) (Js.Math_min MAX_SPEED_FACTOR x)
  ∧ (speedFactor s' == Qmax (1 # 2) (Qmin 10 x))%Q
  ∧ ((1 # 2) <= speedFactor s')%Q ∧ (speedFactor s' <= 10)%Q
  ∧ framesWindow s' = framesWindow s
  ∧ framesDetails s' = framesDetails s
  ∧ orderedTimestamps s' = orderedTimestamps s
  ∧ hasFirstFrame s' = hasFirstFrame s
  ∧ isBackfilling s' = isBackfilling s
  ∧ livePointer s' = livePointer s
  ∧ playbackPointer s' = playbackPointer s
  ∧ metadata s' = metadata s
  ∧ isFinal s' = isFinal s
  ∧ isLivePaused s' = isLivePaused s
  ∧ desiredLagMs s' = desiredLagMs s
  ∧ displayIndex s' = displayIndex s
  ∧ playQueue s' = playQueue s
  ∧ setSpeedFactor x e = with_state s' e.
Proof.
  cbv zeta. split; [reflexivity|].
  split.
  { simpl. destruct (Math_max_spec (1 # 2) (Js.Math_min MAX_SPEED_FACTOR x)) as [-> _].
    destruct (Math_min_spec MAX_SPEED_FACTOR x) as [-> _]. reflexivity. }
  split; [|split].
  - simpl. apply clamp_range. by vm_compute.
  - simpl. apply (clamp_range (1 # 2) MAX_SPEED_FACTOR x). by vm_compute.
  - repeat split; reflexivity.
Qed.

End SpeedClaims.

(** * Backfill *)

Lemma strictlyIncreasing_same_elements (l1 l2 : list Z) :
  strictlyIncreasing l1 → strictlyIncreasing l2 →
  (∀ x, x ∈ l1 ↔ x ∈ l2) → l1 = l2.
Proof.
  intros H1 H2 Heq.
  apply (StronglySorted_unique Z.le); [by apply strictlyIncreasing_le..|].
  apply NoDup_Permutation; [by apply strictlyIncreasing_NoDup..|done].
Qed.

Section BackfillFacts.
Context {FrameWindow FrameDetails GameMetadata : Type}.
Context `{!FrameAccess FrameWindow FrameDetails}.

Abbreviation EngB := (Engine FrameWindow FrameDetails GameMetadata).
Abbreviation ChunkB := (Chunk FrameWindow FrameDetails GameMetadata).
Abbreviation ProgressB := (BatchProgress FrameWindow FrameDetails GameMetadata).
Implicit Types (e : EngB) (fetch : Z → option ChunkB) (acc : ProgressB).
Implicit Types (w : list FrameWindow) (d : list FrameDetails).
Implicit Types (m : option GameMetadata).

(** The refs the loop reads are left alone by the scheduler. *)
Lemma scheduleNextFrame_refs e :
  isMountedRef (scheduleNextFrame e) = isMountedRef e
  ∧ cancelBackfillRef (scheduleNextFrame e) = cancelBackfillRef e
  ∧ backfillCursorRef (scheduleNextFrame e) = backfillCursorRef e.
Proof.
  unfold scheduleNextFrame. destruct (negb (isMountedRef e)); [done|].
  cbv zeta. destruct (playbackPointer (state e)) as [p|].
  - destruct (_ || _); [done|].
    destruct (Js.nth (orderedTimestamps (state e)) (p + 1)),
      (Js.nth (orderedTimestamps (state e)) p); done.
  - destruct (playQueue (state e)) as [|nextIndex q]; [done|].
    destruct (isLivePaused (state e)); [done|].
    by destruct (Js.nth (orderedTimestamps (state e)) nextIndex).
Qed.

Lemma startScheduler_refs e :
  isMountedRef (startScheduler e) = isMountedRef e
  ∧ cancelBackfillRef (startScheduler e) = cancelBackfillRef e
  ∧ backfillCursorRef (startScheduler e) = backfillCursorRef e.
Proof.
  unfold startScheduler. destruct (schedulerTimerRef e); [done|].
  cbv zeta.
  match goal with |- context [scheduleNextFrame ?x] =>
    destruct (scheduleNextFrame_refs x) as (-> & -> & ->) end.
  by case_decide.
Qed.

Lemma ensureScheduler_refs e :
  isMountedRef (ensureScheduler e) = isMountedRef e
  ∧ cancelBackfillRef (ensureScheduler e) = cancelBackfillRef e
  ∧ backfillCursorRef (ensureScheduler e) = backfillCursorRef e.
Proof.
  unfold ensureScheduler. destruct (_ && _); [apply startScheduler_refs|done].
Qed.

Lemma hasPayload_true w d :
  w ≠ [] ∨ d ≠ [] →
  bool_decide (Js.length w > 0) || bool_decide (Js.length d > 0) = true.
Proof.
  intros [Hne|Hne].
  - rewrite bool_decide_eq_true_2; [done|].
    destruct w; [done|]. unfold Js.length. simpl. lia.
  - rewrite (bool_decide_eq_true_2 (Js.length d > 0)); [apply orb_true_r|].
    destruct d; [done|]. unfold Js.length. simpl. lia.
Qed.

End BackfillFacts.

(** * Concrete runs *)

Section Runs.
Import Synthetic.

(** The backfill scenario: index [0, 10000, 20000], live, display at
    t = 20000; three earlier frames arrive. *)
Example backfill_scenario :
  let next := (mergeFrames (frame <$> [-30000; -20000; -10000]) [] None live3).1 in
  orderedTimestamps live3 = [0; 10000; 20000]
  ∧ displayIndex live3 = 2
  ∧ orderedTimestamps next = [-30000; -20000; -10000; 0; 10000; 20000]
  ∧ displayIndex next = 5
  ∧ displayedTs next = Some 20000.
Proof. by vm_compute. Qed.

(** The scrub scenario: [scrubTo(10000)] on [0, 10000, 20000, 30000]. *)
Example scrub_scenario :
  playbackPointer (state scrubbed4) = Some 1
  ∧ isLive (state scrubbed4) = false
  ∧ isLivePaused (state scrubbed4) = true.
Proof. by vm_compute. Qed.

Lemma live_display_never_rewinds_witness :
  playbackPointer live3 = None
  ∧ notBefore (displayedTs live3)
      (displayedTs (mergeFrames (frame <$> [-30000; -20000; -10000]) [] None live3).1)
  ∧ StronglySorted notBefore (displayedTs <$> mergeTrace live3 [earlier3; later1]).
Proof.
  split; [reflexivity|].
  apply (live_display_never_rewinds live3 (frame <$> [-30000; -20000; -10000]) []
           None [earlier3; later1]).
  reflexivity.
Defined.

Lemma merge_relocates_pointers_witness :
  let next := (mergeFrames (frame <$> [-30000; -20000; -10000]) [] None live3).1 in
  let manual := state scrubbed4 in
  let next' := (mergeFrames (frame <$> [-30000; -20000; -10000]) [] None manual).1 in
  displayedTs live3 = Some 20000
  ∧ displayIndex live3 = 2
  ∧ displayedTs next = Some 20000
  ∧ displayIndex next = 5
  ∧ playbackPointer manual = Some 1
  ∧ Js.nth (orderedTimestamps manual) 1 = Some 10000
  ∧ ∃ p', playbackPointer next' = Some p'
          ∧ Js.nth (orderedTimestamps next') p' = Some 10000.
Proof.
  cbv zeta.
  destruct (merge_relocates_pointers_by_timestamp
              (frame <$> [-30000; -20000; -10000]) [] None live3)
    as [Hdisplay _].
  destruct (merge_relocates_pointers_by_timestamp
              (frame <$> [-30000; -20000; -10000]) [] None (state scrubbed4))
    as [_ Hplayback].
  destruct (Hdisplay 20000 eq_refl) as [Hts Hindex].
  split; [reflexivity|]. split; [reflexivity|]. split; [exact Hts|].
  split; [rewrite (Hindex eq_refl); reflexivity|].
  split; [reflexivity|]. split; [reflexivity|].
  destruct (Hplayback 1 10000 eq_refl eq_refl) as (p' & Hp & Hn & _).
  exists p'. split; assumption.
Defined.

Lemma showNextFrame_on_last_frame_witness :
  isMountedRef atEndFinal4 = true
  ∧ playbackPointer (state atEndFinal4) = Some 3
  ∧ 3 = livePointer (state atEndFinal4)
  ∧ isFinal (state atEndFinal4) = true
  ∧ playbackPointer (state (showNextFrame atEndFinal4)) = Some 3
  ∧ displayIndex (state (showNextFrame atEndFinal4)) = displayIndex (state atEndFinal4)
  ∧ isLivePaused (state (showNextFrame atEndFinal4)) = true.
Proof.
  split; [reflexivity|]. split; [reflexivity|]. split; [reflexivity|].
  split; [reflexivity|].
  exact (showNextFrame_on_last_frame atEndFinal4 3 eq_refl eq_refl eq_refl).
Defined.

(** Scrubbing a playing session to the frame it is on is a no-op: the
    pause flag stays off and the timer stays armed. *)
Lemma setPlaybackByEpoch_same_index_keeps_playing :
  orderedTimestamps (state playing4) ≠ []
  ∧ playbackPointer (state playing4) = Some 1
  ∧ findClosestTimestampIndex (orderedTimestamps (state playing4)) 10000 = 1
  ∧ isLivePaused (state playing4) = false
  ∧ schedulerTimerRef playing4 = Some (inject_Z 4000)
  ∧ ¬ (isLivePaused (state (setPlaybackByEpoch 10000 playing4)) = true
       ∧ schedulerTimerRef (setPlaybackByEpoch 10000 playing4) = None).
Proof.
  split; [by vm_compute|]. split; [by vm_compute|]. split; [by vm_compute|].
  split; [by vm_compute|]. split; [by vm_compute|].
  intros [Hpaused _]. vm_compute in Hpaused. discriminate.
Qed.

Lemma setPlaybackByEpoch_enters_manual_paused_witness :
  let e := engineOf live4 in
  let e' := setPlaybackByEpoch 10000 e in
  orderedTimestamps (state e) ≠ []
  ∧ playbackPointer (state e) ≠ Some 1
  ∧ playbackPointer (state e') = Some 1
  ∧ displayIndex (state e') = 1
  ∧ schedulerTimerRef e' = None
  ∧ isLivePaused (state e') = true
  ∧ isLive (state e') = false.
Proof.
  cbv zeta.
  assert (Hne : orderedTimestamps (state (engineOf live4)) ≠ []) by discriminate.
  assert (Hpp : playbackPointer (state (engineOf live4)) ≠ Some 1) by discriminate.
  split; [exact Hne|]. split; [exact Hpp|].
  destruct (setPlaybackByEpoch_enters_manual_paused (engineOf live4) 10000 Hne)
    as (_ & Hchange & _).
  exact (Hchange Hpp).
Defined.

Lemma goLive_from_manual_witness :
  playbackPointer (state scrubbed4) = Some 1
  ∧ playbackPointer (state (goLive scrubbed4)) = None
  ∧ displayIndex (state (goLive scrubbed4)) = 3
  ∧ isLivePaused (state (goLive scrubbed4)) = false
  ∧ speedFactor (state (goLive scrubbed4)) = speedFactor (state scrubbed4).
Proof.
  split; [reflexivity|].
  destruct (goLive_from_manual scrubbed4 1 eq_refl)
    as (Hp & Hd & Hl & Hs & _).
  split; [exact Hp|]. split; [exact Hd|]. split; [exact Hl|exact Hs].
Defined.

(** Frames 10 s apart: at speed factor 1 and at speed factor 2 the
    scheduler arms the same 4000 ms, the upper clamp. *)
Lemma clamped_delay_is_not_halved :
  Js.nth (orderedTimestamps (state playing3)) 0 = Some 0
  ∧ Js.nth (orderedTimestamps (state playing3)) 1 = Some 10000
  ∧ playbackPointer (state playing3) = Some 0
  ∧ schedulerTimerRef (scheduleNextFrame (setSpeedFactor 1 playing3))
    = Some (inject_Z 4000)
  ∧ schedulerTimerRef (scheduleNextFrame (setSpeedFactor 2 playing3))
    = Some (inject_Z 4000)
  ∧ ¬ (inject_Z 4000 == inject_Z 4000 / 2)%Q.
Proof.
  split; [by vm_compute|]. split; [by vm_compute|]. split; [by vm_compute|].
  split; [by vm_compute|]. split; [by vm_compute|].
  intros Heq. vm_compute in Heq. discriminate.
Qed.

Lemma speed_factor_scales_unclamped_delay_witness :
  isMountedRef playingDense3 = true
  ∧ schedulerTimerRef (scheduleNextFrame (setSpeedFactor 1 playingDense3))
    = Some (inject_Z 1000 / 1)%Q
  ∧ (300 <= inject_Z 1000 / 1)%Q ∧ (inject_Z 1000 / 1 < 4000)%Q
  ∧ (∃ d2, schedulerTimerRef (scheduleNextFrame (setSpeedFactor 2 playingDense3))
           = Some d2
           ∧ (d2 == (inject_Z 1000 / 1) / 2)%Q)
  ∧ speedFactor (state (run playingDense3 [AMerge [frame 9000] [] None; ASchedulerTick]))
    = speedFactor (state playingDense3).
Proof.
  destruct (speed_factor_scales_unclamped_delay
              (FrameWindow := Z * bool) (FrameDetails := Z) (GameMetadata := nat))
    as (_ & _ & _ & Hhalf & Hkeep).
  split; [reflexivity|]. split; [reflexivity|].
  split; [by vm_compute|]. split; [by vm_compute|].
  split.
  - apply (Hhalf playingDense3 (inject_Z 1000 / 1)%Q); [reflexivity..| |];
      by vm_compute.
  - apply Hkeep. reflexivity.
Defined.

End Runs.


(** * Invariants of the index and its cursors *)

Section InsertAllMore.
Context {V : Type} (key : V → Z).

Lemma insertAll_is_Some (fs : list V) (m0 : gmap Z V) (k : Z) :
  is_Some (foldl (λ m f, <[key f := f]> m) m0 fs !! k)
  ↔ is_Some (m0 !! k) ∨ k ∈ key <$> fs.
Proof.
  destruct (decide (k ∈ key <$> fs)) as [Hin|Hnin].
  - split; [by right|]. intros _. by apply insertAll_known.
  - rewrite (insertAll_other key fs m0 k Hnin). tauto.
Qed.

Lemma insertAll_lookup_inv (fs : list V) (m0 : gmap Z V) (k : Z) (f : V) :
  foldl (λ m f, <[key f := f]> m) m0 fs !! k = Some f →
  m0 !! k = Some f ∨ (f ∈ fs ∧ key f = k).
Proof.
  revert m0. induction fs as [|g fs IH]; intros m0; simpl; [by left|].
  intros Hl. destruct (IH _ Hl) as [Hm|[Hin Hk]].
  - destruct (decide (key g = k)) as [<-|Hne].
    + rewrite lookup_insert_eq in Hm. injection Hm as ->. right. split; [by left|done].
    + rewrite lookup_insert_ne in Hm by done. by left.
  - right. split; [by right|done].
Qed.

(** The frame merged last under a key is the one a lookup finds. *)
Lemma insertAll_last_wins (fs1 fs2 : list V) (f : V) (m0 : gmap Z V) :
  key f ∉ key <$> fs2 →
  foldl (λ m f, <[key f := f]> m) m0 (fs1 ++ f :: fs2) !! key f = Some f.
Proof.
  intros Hnot. rewrite foldl_app. simpl.
  rewrite (insertAll_other key fs2 _ (key f) Hnot). apply lookup_insert_eq.
Qed.

End InsertAllMore.

Lemma Js_length_mono (l k : list Z) :
  NoDup l → (∀ x, x ∈ l → x ∈ k) → Js.length l ≤ Js.length k.
Proof.
  intros Hnd Hsub. unfold Js.length.
  pose proof (submseteq_length _ _ (NoDup_submseteq _ _ Hnd Hsub)). lia.
Qed.

Lemma indexOf_in_range (l : list Z) (x : Z) :
  x ∈ l → 0 ≤ Js.indexOf l x < Js.length l.
Proof. intros Hx. by apply indexOf_elem. Qed.

Lemma Js_nth_in_range {A} (l : list A) (i : Z) :
  0 ≤ i < Js.length l → is_Some (Js.nth l i).
Proof.
  intros Hi. unfold Js.nth. rewrite decide_True by lia.
  apply lookup_lt_is_Some. unfold Js.length in Hi. lia.
Qed.

Section Invariants.
Context {FrameWindow FrameDetails GameMetadata : Type}.
Context `{!FrameAccess FrameWindow FrameDetails}.

Abbreviation StateI := (FrameIndexState FrameWindow FrameDetails GameMetadata).
Abbreviation EngineI := (Engine FrameWindow FrameDetails GameMetadata).
Abbreviation ChunkI := (Chunk FrameWindow FrameDetails GameMetadata).
Abbreviation ActionI := (Action FrameWindow FrameDetails GameMetadata).
Implicit Types (prev s : StateI) (e : EngineI).
Implicit Types (w : list FrameWindow) (d : list FrameDetails).
Implicit Types (m : option GameMetadata) (sorted : list Z).

Lemma displayedTs_in_range s :
  0 ≤ displayIndex s < Js.length (orderedTimestamps s) → is_Some (displayedTs s).
Proof. intros Hr. rewrite displayedTs_nth. by apply Js_nth_in_range. Qed.

Lemma noteLater_subset prev (latest : option Z) (l acc : list Z) (y : Z) :
  y ∈ foldl (noteLater prev latest) acc l → y ∈ acc ∨ y ∈ l.
Proof.
  revert acc. induction l as [|x l IH]; intros acc; simpl; [by left|].
  intros Hy. destruct (IH _ Hy) as [Hacc|Hl]; [|right; by right].
  unfold noteLater in Hacc.
  destruct (negb _ && negb _); [|by left].
  destruct latest as [latest|].
  - case_decide; [|by left].
    apply Set_add_elem_of in Hacc as [?| ->]; [by left|right; by left].
  - apply Set_add_elem_of in Hacc as [?| ->]; [by left|right; by left].
Qed.

Lemma mergedLater_subset prev w d (y : Z) :
  y ∈ mergedLater prev w d → y ∈ mergedTimestamps prev w d.
Proof.
  unfold mergedLater. intros Hy. apply mergedTimestamps_elem_of.
  apply noteLater_subset in Hy as [Hy|Hy]; [|by right; right].
  apply noteLater_subset in Hy as [Hy|Hy]; [by apply elem_of_nil in Hy|].
  right. by left.
Qed.

Lemma adjustQueue_in_range (prevTs sorted queue : list Z) (x : Z) :
  x ∈ adjustQueue prevTs sorted queue → 0 ≤ x < Js.length sorted.
Proof.
  unfold adjustQueue. rewrite list_elem_of_In, in_flat_map.
  intros (q & _ & Hx). destruct (Js.nth prevTs q) as [ts|]; [|by destruct Hx].
  cbv zeta in Hx. case_decide as Hfound; [|by destruct Hx].
  destruct Hx as [<-|[]]. by apply indexOf_in_range, indexOf_found.
Qed.

Lemma mergedDisplay_nonneg prev sorted :
  wellFormed prev → sorted ≠ [] →
  (∀ x, x ∈ orderedTimestamps prev → x ∈ sorted) →
  0 ≤ mergedDisplay prev sorted.
Proof.
  intros (_ & _ & _ & _ & _ & Hnil & Hrange & Hpp & _) Hne Hsub.
  destruct (displayedTs prev) as [t|] eqn:Ht.
  - rewrite (mergedDisplay_relocates prev sorted t Ht).
    + apply indexOf_in_range, Hsub. eapply Js_nth_elem_of, displayedTs_Some, Ht.
    + apply Hsub. eapply Js_nth_elem_of, displayedTs_Some, Ht.
  - assert (Hempty : orderedTimestamps prev = []).
    { destruct (decide (orderedTimestamps prev = [])) as [|Hne']; [done|].
      destruct (displayedTs_in_range prev (Hrange Hne')) as [t Ht']. congruence. }
    assert (Hlive : mergedPlayback prev sorted = None).
    { unfold mergedPlayback. destruct (playbackPointer prev) as [p|] eqn:Hp; [|done].
      specialize (Hpp p eq_refl). rewrite Hempty in Hpp. unfold Js.length in Hpp.
      simpl in Hpp. lia. }
    destruct (mergedDisplay_range prev sorted Hne) as [_ Hneg].
    destruct (decide (mergedDisplay prev sorted < 0)) as [Hlt|]; [|lia].
    by destruct (Hneg Hlt).
Qed.

Lemma mergedQueue_in_range prev w d :
  wellFormed prev →
  Forall (λ q, 0 ≤ q < Js.length (mergedTimestamps prev w d))
    (mergedQueue prev (mergedTimestamps prev w d) (mergedLater prev w d)).
Proof.
  intros (Hstrict & _ & _ & _ & _ & _ & _ & _ & Hqueue).
  assert (Hlen : Js.length (orderedTimestamps prev)
                 ≤ Js.length (mergedTimestamps prev w d)).
  { apply Js_length_mono; [by apply strictlyIncreasing_NoDup|].
    intros x Hx. apply mergedTimestamps_elem_of. by left. }
  assert (Hold : Forall (λ q, 0 ≤ q < Js.length (mergedTimestamps prev w d))
                   (playQueue prev)).
  { eapply Forall_impl; [exact Hqueue|]. intros q Hq. simpl in Hq. lia. }
  unfold mergedQueue. case_decide.
  - apply Forall_forall. intros x Hx. rewrite sort_num_elem_of in Hx.
    exact (adjustQueue_in_range _ _ _ x Hx).
  - case_decide; [|done]. cbv zeta. case_decide; [|done].
    apply Forall_forall. intros x Hx.
    rewrite sort_num_elem_of, Set_of_elem_of, elem_of_app in Hx.
    destruct Hx as [Hx|Hx].
    + rewrite Forall_forall in Hold. exact (Hold x Hx).
    + apply list_elem_of_filter in Hx as [_ Hx].
      apply list_elem_of_fmap in Hx as (y & -> & Hy).
      rewrite sort_num_elem_of in Hy.
      exact (indexOf_in_range _ _ (mergedLater_subset _ _ _ _ Hy)).
Qed.

(** The main path of [mergeFrames] keeps the state well formed. *)
Lemma mergedState_wellFormed w d m prev :
  wellFormed prev → wellFormed (mergedState w d m prev).
Proof.
  intros Hwf.
  pose proof Hwf as (Hstrict & Hlive & Hkeys & Hwin & Hdet & Hnil & Hrange & Hpp & Hqueue).
  set (sorted := mergedTimestamps prev w d).
  assert (Hsub : ∀ x, x ∈ orderedTimestamps prev → x ∈ sorted).
  { intros x Hx. apply mergedTimestamps_elem_of. by left. }
  unfold wellFormed. cbn [mergedState orderedTimestamps livePointer framesWindow
    framesDetails displayIndex playbackPointer playQueue]. fold sorted.
  split; [apply mergedTimestamps_strict|].
  split.
  { unfold mergedLivePointer. pose proof (Js_length_nonneg sorted). case_decide; lia. }
  split.
  { intros t. subst sorted. rewrite mergedTimestamps_elem_of, Hkeys.
    unfold mergedWindow, mergedDetails.
    rewrite (insertAll_is_Some windowEpoch), (insertAll_is_Some detailsEpoch). tauto. }
  split.
  { intros t f Hl. apply (insertAll_lookup_inv windowEpoch) in Hl as [Hl|[_ Hk]];
      [by eapply Hwin|done]. }
  split.
  { intros t f Hl. apply (insertAll_lookup_inv detailsEpoch) in Hl as [Hl|[_ Hk]];
      [by eapply Hdet|done]. }
  split.
  { intros ->. apply mergedDisplay_nil. }
  split.
  { intros Hne. split; [by apply mergedDisplay_nonneg|by apply mergedDisplay_range]. }
  split.
  { intros p Hp. destruct (mergedPlayback_in_range prev sorted p Hp) as [ts Hts].
    by eapply Js_nth_range. }
  by apply mergedQueue_in_range.
Qed.

Lemma mergeFrames_wellFormed w d m prev :
  wellFormed prev → wellFormed (mergeFrames w d m prev).1.
Proof.
  intros Hwf. rewrite mergeFrames_unfold.
  destruct (mergeSkips _ _ _ _); [done|]. by apply mergedState_wellFormed.
Qed.

Lemma createInitialState_wellFormed :
  wellFormed (createInitialState (GameMetadata := GameMetadata)).
Proof.
  unfold wellFormed. simpl. split; [constructor|]. split; [done|].
  split.
  { intros t. rewrite !lookup_empty. split.
    - by intros ?%elem_of_nil.
    - intros [[? ?]|[? ?]]; done. }
  repeat split; done.
Qed.

End Invariants.

Section Reachable.
Context {FrameWindow FrameDetails GameMetadata : Type}.
Context `{!FrameAccess FrameWindow FrameDetails}.

Abbreviation StateR := (FrameIndexState FrameWindow FrameDetails GameMetadata).
Abbreviation EngineR := (Engine FrameWindow FrameDetails GameMetadata).
Abbreviation ChunkR := (Chunk FrameWindow FrameDetails GameMetadata).
Abbreviation ActionR := (Action FrameWindow FrameDetails GameMetadata).
Abbreviation ProgressR := (BatchProgress FrameWindow FrameDetails GameMetadata).
Abbreviation PollerR := (Poller FrameWindow FrameDetails GameMetadata).
Implicit Types (prev s : StateR) (e : EngineR) (P : StateR → Prop).
Implicit Types (w : list FrameWindow) (d : list FrameDetails).
Implicit Types (m : option GameMetadata).

Lemma processResult_keeps P (results : list (option ChunkR * Z)) (acc : ProgressR) :
  (∀ w d m s, P s → P (mergeFrames w d m s).1) →
  P (state (batchEngine acc)) →
  P (state (batchEngine (foldl processResult acc results))).
Proof.
  intros Hmerge. revert acc.
  induction results as [|r results IH]; intros acc Hacc; [done|].
  cbn [foldl]. apply IH.
  destruct r as [[[[w d] m]|] targetCursor]; [|done].
  unfold processResult. destruct (_ || _); [|done].
  cbn [batchEngine]. unfold mergeFramesE. cbn [fst state with_state].
  by apply Hmerge.
Qed.

(** Whatever a merge and the first-frame mark keep, a whole pass of the
    backfill loop keeps. *)
Lemma backfillIteration_keeps P (fetch : Z → option ChunkR) e :
  (∀ w d m s, P s → P (mergeFrames w d m s).1) →
  (∀ s, P s → P (markHasFirstFrame_state s)) →
  P (state e) → P (state (backfillIteration fetch e).1).
Proof.
  intros Hmerge Hmark He.
  assert (Hmk : ∀ e0, P (state e0) → P (state (markHasFirstFrame e0))).
  { intros e0 H0. unfold markHasFirstFrame. cbn [state with_backfillCursor setFrameState
      with_state]. by apply Hmark. }
  unfold backfillIteration. cbv zeta.
  destruct (hasFirstFrame (state e)); [done|].
  case_decide; [done|].
  set (init := match backfillCursorRef e with
               | Some _ => Some e
               | None => _
               end).
  assert (Hinit : ∀ e1, init = Some e1 → state e1 = state e).
  { subst init. intros e1. destruct (backfillCursorRef e); [by intros [= <-]|].
    destruct (Js.nth (orderedTimestamps (state e)) 0); [by intros [= <-]|done]. }
  destruct init as [e1|]; [|done]. specialize (Hinit e1 eq_refl).
  case_decide.
  { cbn [fst]. apply Hmk. by rewrite Hinit. }
  match goal with
  | |- context [foldl processResult ?a ?r] =>
      pose proof (processResult_keeps P r a Hmerge) as Hfold;
      cbn [batchEngine] in Hfold;
      generalize dependent (foldl processResult a r)
  end.
  intros acc Hfold. rewrite Hinit in Hfold. specialize (Hfold He).
  destruct (anyProgress acc).
  - destruct (Js.nth (orderedTimestamps (state (batchEngine acc))) 0); cbn [fst].
    + by rewrite ensureScheduler_state.
    + by apply Hmk.
  - destruct (negb (sawFrames acc)); cbn [fst]; [by apply Hmk|].
    destruct (earliestFetchedTimestamp acc); cbn [fst].
    { by rewrite ensureScheduler_state. }
    destruct (Js.nth (orderedTimestamps (state (batchEngine acc))) 0); cbn [fst].
    + by rewrite ensureScheduler_state.
    + by apply Hmk.
Qed.

Lemma backfillLoop_keeps P (fuel : nat) (fetch : Z → option ChunkR) e e' :
  (∀ w d m s, P s → P (mergeFrames w d m s).1) →
  (∀ s, P s → P (markHasFirstFrame_state s)) →
  backfillLoop fuel fetch e = Some e' →
  P (state e) → P (state e').
Proof.
  intros Hmerge Hmark. revert e.
  induction fuel as [|fuel IH]; intros e Hloop He.
  - simpl in Hloop. destruct (_ && _); [done|]. by injection Hloop as <-.
  - change (backfillLoop (S fuel) fetch e)
      with (if isMountedRef e && negb (cancelBackfillRef e)
            then if (backfillIteration fetch e).2
                 then backfillLoop fuel fetch (backfillIteration fetch e).1
                 else Some (backfillIteration fetch e).1
            else Some e) in Hloop.
    pose proof (backfillIteration_keeps P fetch e Hmerge Hmark He) as Hit.
    destruct (_ && _); [|by injection Hloop as <-].
    destruct (backfillIteration fetch e).2; [by eapply IH|].
    by injection Hloop as <-.
Qed.

Lemma runBackfill_keeps P (fuel : nat) (fetch : Z → option ChunkR) e e' :
  (∀ w d m s, P s → P (mergeFrames w d m s).1) →
  (∀ s, P s → P (markHasFirstFrame_state s)) →
  (∀ b s, P s → P (with_isBackfilling b s)) →
  runBackfill fuel fetch e = Some e' →
  P (state e) → P (state e').
Proof.
  intros Hmerge Hmark Hflag Hrun He. unfold runBackfill in Hrun.
  destruct (backfillRunningRef e); [by injection Hrun as <-|].
  cbv zeta in Hrun.
  destruct (backfillLoop fuel fetch _) as [e1|] eqn:Hloop; [|done].
  injection Hrun as <-.
  assert (H1 : P (state e1)).
  { eapply backfillLoop_keeps; [done..|exact Hloop|].
    cbn [state setFrameState with_state with_backfillFlags].
    destruct (isBackfilling (state e)); [done|by apply Hflag]. }
  unfold backfillFinally. cbv zeta. rewrite ensureScheduler_state.
  cbn [state setFrameState with_state with_backfillFlags].
  destruct (isBackfilling (state e1)); [by apply Hflag|done].
Qed.

Lemma setPlaybackByEpoch_state (epoch : Z) e :
  state (setPlaybackByEpoch epoch e) = state e
  ∨ (orderedTimestamps (state e) ≠ []
     ∧ state (setPlaybackByEpoch epoch e) = scrubbedTo epoch (state e)).
Proof.
  unfold setPlaybackByEpoch. cbv zeta.
  case_decide as Hlen; [by left|]. case_decide; [by left|]. case_decide; [by left|].
  right. split; [|done]. intros Hnil. apply Hlen. by rewrite Hnil.
Qed.

(** Whatever every state update keeps, every command and event keeps. *)
Lemma step_keeps P e (a : ActionR) :
  keptByUpdates P → P (state e) → P (state (step e a)).
Proof.
  intros (Hmerge & Hshow & Hmark & Hgo & Hscrub & Hpause & Hfill & Hfinal & Hlag & Hspeed) He.
  destruct a; cbn [step].
  - unfold mergeFramesE. cbn [fst state with_state]. by apply Hmerge.
  - unfold schedulerTick. rewrite scheduleNextFrame_state.
    unfold showNextFrame. destruct (negb (isMountedRef e)); [done|].
    cbn [setFrameState state with_state]. by apply Hshow.
  - by rewrite startScheduler_state.
  - unfold pauseLive. cbn [setFrameState state with_state stopScheduler
      with_schedulerTimer]. by apply Hpause.
  - unfold resumeLive. rewrite startScheduler_state.
    cbn [setFrameState state with_state]. by apply Hpause.
  - unfold setDesiredLagMs. cbn [setFrameState state with_state]. by apply Hlag.
  - unfold setSpeedFactor, setSpeedFactor_state. cbn [setFrameState state with_state].
    by apply Hspeed.
  - unfold goLive. cbv zeta.
    assert (Hg : P (state (setFrameState goLive_state e))).
    { cbn [setFrameState state with_state]. by apply Hgo. }
    destruct (schedulerTimerRef _); [done|]. by rewrite startScheduler_state.
  - destruct (setPlaybackByEpoch_state epoch e) as [->|[Hne ->]]; [done|].
    by apply Hscrub.
  - unfold markHasFirstFrame. cbn [state with_backfillCursor setFrameState with_state].
    by apply Hmark.
  - by apply backfillIteration_keeps.
Qed.

Lemma run_keeps P (actions : list ActionR) e :
  keptByUpdates P → P (state e) → P (state (run e actions)).
Proof.
  intros Hkept. revert e.
  induction actions as [|a actions IH]; intros e He; [done|].
  apply (IH (step e a)). by apply step_keeps.
Qed.

(** A poll keeps it too. *)
Lemma pollRound_keeps P (result : option ChunkR) (p : PollerR) :
  keptByUpdates P → P (state (engine p)) → P (state (engine (pollRound result p))).
Proof.
  intros (Hmerge & _ & _ & _ & _ & _ & _ & Hfinal & _) Hp.
  unfold pollRound. cbv zeta.
  assert (Hsched : ∀ q delay, P (state (engine q)) →
                              P (state (engine (scheduleNextPoll delay q)))).
  { intros q delay Hq. unfold scheduleNextPoll. by destruct (_ || _). }
  unfold poll. destruct (pollingInFlightRef p); [by apply Hsched|].
  destruct (negb (isMountedRef (engine p)) || cancelBackfillRef (engine p)); [done|].
  cbv zeta. cbn [engine with_pollingInFlight].
  destruct (negb (isFinal (state (engine p))) && _).
  { cbn [snd fst haltForBackoff engine with_pollingInFlight with_finalStateBackoff
      with_pollInterval with_engine setFrameState state with_state]. by apply Hfinal. }
  destruct (isFinal (state (engine p))); [done|].
  cbn [snd fst]. unfold pollSettled. cbv zeta.
  cbn [engine with_pollingInFlight].
  match goal with
  | |- P (state (engine (if ?c then scheduleNextPoll _ ?q else ?q))) =>
      assert (Hq : P (state (engine q))); [|by destruct c; [apply Hsched|]]
  end.
  destruct result as [[[w d] m]|]; [|done].
  match goal with |- context [if ?c then _ else _] => destruct c end;
    cbn [engine with_pollInterval with_engine]; rewrite ensureScheduler_state;
    unfold mergeFramesE; cbn [fst state with_state]; by apply Hmerge.
Qed.

End Reachable.


Section WellFormed.
Context {FrameWindow FrameDetails GameMetadata : Type}.
Context `{!FrameAccess FrameWindow FrameDetails}.

Abbreviation StateW := (FrameIndexState FrameWindow FrameDetails GameMetadata).
Abbreviation ActionW := (Action FrameWindow FrameDetails GameMetadata).
Implicit Types (s : StateW).

(** Well-formedness only looks at the index, the payload maps and the
    cursors. *)
Lemma wellFormed_cursors s s' :
  wellFormed s →
  framesWindow s' = framesWindow s →
  framesDetails s' = framesDetails s →
  orderedTimestamps s' = orderedTimestamps s →
  livePointer s' = livePointer s →
  (orderedTimestamps s = [] → displayIndex s' = -1) →
  (orderedTimestamps s ≠ [] → 0 ≤ displayIndex s' < Js.length (orderedTimestamps s)) →
  (∀ p, playbackPointer s' = Some p → 0 ≤ p < Js.length (orderedTimestamps s)) →
  Forall (λ q, 0 ≤ q < Js.length (orderedTimestamps s)) (playQueue s') →
  wellFormed s'.
Proof.
  intros (Hstrict & Hlive & Hkeys & Hwin & Hdet & _) Hw Hd Ho Hl Hnil Hrange Hpp Hq.
  unfold wellFormed. rewrite Hw, Hd, Ho, Hl. done.
Qed.

Lemma wellFormed_flags s s' :
  wellFormed s →
  framesWindow s' = framesWindow s →
  framesDetails s' = framesDetails s →
  orderedTimestamps s' = orderedTimestamps s →
  livePointer s' = livePointer s →
  displayIndex s' = displayIndex s →
  playbackPointer s' = playbackPointer s →
  playQueue s' = playQueue s →
  wellFormed s'.
Proof.
  intros Hwf Hw Hd Ho Hl Hdi Hpp Hq.
  pose proof Hwf as (_ & _ & _ & _ & _ & Hnil & Hrange & Hp & Hqueue).
  apply (wellFormed_cursors s s'); try done; by rewrite ?Hdi, ?Hpp, ?Hq.
Qed.

Lemma showNextFrame_state_wellFormed s :
  wellFormed s → wellFormed (showNextFrame_state s).
Proof.
  intros Hwf.
  pose proof Hwf as (_ & Hlive & _ & _ & _ & Hnil & Hrange & Hp & Hqueue).
  pose proof (Js_length_nonneg (orderedTimestamps s)) as Hlen.
  assert (Hempty : orderedTimestamps s = [] → Js.length (orderedTimestamps s) = 0)
    by (by intros ->).
  assert (Hfull : orderedTimestamps s ≠ [] → Js.length (orderedTimestamps s) ≠ 0)
    by (by rewrite Js_length_zero).
  unfold showNextFrame_state.
  destruct (playbackPointer s) as [p|] eqn:Hpp.
  - specialize (Hp p eq_refl). cbv zeta. case_decide as Hnext.
    + apply (wellFormed_cursors s); try done; cbn.
      * intros Hn. specialize (Hempty Hn). lia.
      * intros _. lia.
      * intros q [= <-]. lia.
    + destruct (negb (isFinal s)).
      * apply (wellFormed_cursors s); try done; cbn.
        -- intros Hn. specialize (Hempty Hn). lia.
        -- intros Hn. specialize (Hfull Hn). lia.
      * by apply (wellFormed_flags s).
  - destruct (playQueue s) as [|x q] eqn:Hq; [done|].
    destruct (isLivePaused s); [done|].
    apply Forall_cons in Hqueue as [Hx Hq'].
    apply (wellFormed_cursors s); try done; cbn.
    + intros Hn. specialize (Hempty Hn). lia.
    + by rewrite Hpp.
Qed.

(** Every state update of the hook keeps the state well formed. *)
Lemma wellFormed_kept : keptByUpdates (wellFormed (GameMetadata := GameMetadata)).
Proof.
  unfold keptByUpdates.
  split; [intros w d m s; apply mergeFrames_wellFormed|].
  split; [apply showNextFrame_state_wellFormed|].
  split.
  { intros s Hwf. unfold markHasFirstFrame_state.
    destruct (hasFirstFrame s); [destruct (isBackfilling s)|];
      try done; by apply (wellFormed_flags s). }
  split.
  { intros s Hwf. unfold goLive_state.
    destruct (playbackPointer s) as [p|] eqn:Hpp; [|done].
    pose proof Hwf as (_ & Hlive & _ & _ & _ & _ & _ & Hp & Hqueue).
    specialize (Hp p Hpp).
    apply (wellFormed_cursors s); try done; cbn.
    - intros Hn. rewrite Hn in Hp. unfold Js.length in Hp. simpl in Hp. lia.
    - intros _. lia. }
  split.
  { intros epoch s Hne Hwf. unfold scrubbedTo. cbv zeta.
    destruct (findClosestTimestampIndex_closest _ epoch Hne) as (t & Ht & _).
    apply Js_nth_range in Ht.
    pose proof Hwf as (_ & _ & _ & _ & _ & _ & _ & _ & Hqueue).
    apply (wellFormed_cursors s); try done; cbn.
    intros p [= <-]. done. }
  split; [|split; [|split; [|split]]];
    intros ? s Hwf; by apply (wellFormed_flags s).
Qed.

Lemma reachable_wellFormed (actions : list ActionW) :
  wellFormed (state (run mountEngine actions)).
Proof. apply run_keeps; [apply wellFormed_kept|apply createInitialState_wellFormed]. Qed.

End WellFormed.

Section ReachableStates.
Context {FrameWindow FrameDetails GameMetadata : Type}.
Context `{!FrameAccess FrameWindow FrameDetails}.

Abbreviation StateQ := (FrameIndexState FrameWindow FrameDetails GameMetadata).
Abbreviation ActionQ := (Action FrameWindow FrameDetails GameMetadata).
Implicit Types (s : StateQ).

(** X1. Whatever merges, scheduler ticks, backfill passes and mode
    commands a mounted hook has gone through, its cursors are positions
    of the index: the live pointer is the last position (-1 on an empty
    index), the display index is -1 on an empty index and a valid
    position otherwise, and the playback pointer and every entry of the
    play queue are valid positions. *)
Theorem reachable_cursors_valid (actions : list ActionQ) :
  let s := state (run mountEngine actions) in
  livePointer s = Js.length (orderedTimestamps s) - 1
  ∧ (orderedTimestamps s = [] → displayIndex s = -1)
  ∧ (orderedTimestamps s ≠ [] →
     0 ≤ displayIndex s < Js.length (orderedTimestamps s))
  ∧ (∀ p, playbackPointer s = Some p → 0 ≤ p < Js.length (orderedTimestamps s))
  ∧ Forall (λ q, 0 ≤ q < Js.length (orderedTimestamps s)) (playQueue s).
Proof.
  cbv zeta.
  destruct (reachable_wellFormed actions) as (_ & Hlive & _ & _ & _ & Hnil & Hr & Hp & Hq).
  done.
Qed.

Lemma wellFormed_renderable s :
  wellFormed s → orderedTimestamps s ≠ [] →
  ∃ t, currentTimestamp s = Some t
       ∧ t ∈ orderedTimestamps s
       ∧ (is_Some (currentWindow s) ∨ is_Some (currentDetails s)).
Proof.
  intros (_ & _ & Hkeys & _ & _ & _ & Hrange & Hp & _) Hne.
  specialize (Hrange Hne).
  assert (Hcur : 0 ≤ currentIndex s < Js.length (orderedTimestamps s)).
  { unfold currentIndex. destruct (playbackPointer s) as [p|]; [by apply Hp|].
    rewrite decide_True by lia. done. }
  destruct (Js_nth_in_range (orderedTimestamps s) (currentIndex s) Hcur) as [t Ht].
  assert (Hts : currentTimestamp s = Some t).
  { unfold currentTimestamp. rewrite decide_True by lia. done. }
  exists t. split; [done|]. pose proof (Js_nth_elem_of _ _ _ Ht) as Hin.
  split; [done|].
  apply Hkeys in Hin as [Hw|[f Hd]].
  - left. unfold currentWindow. by rewrite Hts.
  - right. unfold currentDetails. cbv zeta. rewrite Hts, Hd. by eexists.
Qed.

(** X2. On a mounted hook whose index is not empty, the current
    timestamp resolves to a timestamp of the index, and at least one
    of [currentWindow] and [currentDetails] is defined for it (not
    necessarily both). *)
Theorem reachable_current_frame (actions : list ActionQ) :
  let s := state (run mountEngine actions) in
  orderedTimestamps s ≠ [] →
  ∃ t, currentTimestamp s = Some t
       ∧ t ∈ orderedTimestamps s
       ∧ (is_Some (currentWindow s) ∨ is_Some (currentDetails s)).
Proof. cbv zeta. apply wellFormed_renderable, reachable_wellFormed. Qed.

(** X3. In every state a mounted hook reaches, the index holds exactly
    the timestamps that have a window or a details payload, in strictly
    increasing order, and every frame is stored under the epoch of its
    own timestamp. *)
Theorem reachable_index_matches_payloads (actions : list ActionQ) :
  let s := state (run mountEngine actions) in
  strictlyIncreasing (orderedTimestamps s)
  ∧ (∀ t, t ∈ orderedTimestamps s
          ↔ is_Some (framesWindow s !! t) ∨ is_Some (framesDetails s !! t))
  ∧ (∀ t f, framesWindow s !! t = Some f → windowEpoch f = t)
  ∧ (∀ t f, framesDetails s !! t = Some f → detailsEpoch f = t).
Proof.
  cbv zeta.
  destruct (reachable_wellFormed actions) as (Hs & _ & Hk & Hw & Hd & _).
  done.
Qed.

Lemma ordered_payloads_sorted {V} (key : V → Z) (payloads : gmap Z V) (l : list Z) :
  strictlyIncreasing l →
  (∀ t f, payloads !! t = Some f → key f = t) →
  strictlyIncreasing (key <$> omap (λ ts, payloads !! ts) l).
Proof.
  intros Hl Hown. induction Hl as [|x l Hl IH Hx]; [constructor|].
  cbn [omap list_omap]. destruct (payloads !! x) as [f|] eqn:Hf; [|exact IH].
  rewrite fmap_cons. constructor; [exact IH|].
  rewrite (Hown x f Hf). apply Forall_forall. intros y Hy.
  apply list_elem_of_fmap in Hy as (g & -> & Hg).
  apply list_elem_of_omap in Hg as (t & Ht & Hg).
  rewrite (Hown t g Hg). rewrite Forall_forall in Hx. by apply Hx.
Qed.

(** X4. The frame sequences handed to charts and timelines,
    [orderedWindowFrames] and [orderedDetailFrames], are in strictly
    increasing order of their timestamps and hold exactly the frames
    stored in the payload maps. *)
Theorem reachable_ordered_frames (actions : list ActionQ) :
  let s := state (run mountEngine actions) in
  strictlyIncreasing (windowEpoch <$> orderedWindowFrames s)
  ∧ strictlyIncreasing (detailsEpoch <$> orderedDetailFrames s)
  ∧ (∀ f, f ∈ orderedWindowFrames s ↔ ∃ t, framesWindow s !! t = Some f)
  ∧ (∀ f, f ∈ orderedDetailFrames s ↔ ∃ t, framesDetails s !! t = Some f).
Proof.
  cbv zeta.
  destruct (reachable_wellFormed actions) as (Hs & _ & Hk & Hw & Hd & _).
  split; [by apply ordered_payloads_sorted|].
  split; [by apply ordered_payloads_sorted|].
  split; intros f; unfold orderedWindowFrames, orderedDetailFrames;
    rewrite list_elem_of_omap; split.
  - intros (t & _ & Hf). by exists t.
  - intros (t & Hf). exists t. split; [|done]. apply Hk. left. by eexists.
  - intros (t & _ & Hf). by exists t.
  - intros (t & Hf). exists t. split; [|done]. apply Hk. right. by eexists.
Qed.

End ReachableStates.

(** * What a merge does to the index *)

Lemma strictlyIncreasing_head_least (l : list Z) (a x : Z) :
  strictlyIncreasing l → head l = Some a → x ∈ l → a ≤ x.
Proof.
  intros Hl Ha Hx. destruct Hl as [|b l Hl Hb]; [done|].
  injection Ha as ->. apply elem_of_cons in Hx as [->|Hx]; [lia|].
  rewrite Forall_forall in Hb. specialize (Hb x Hx). lia.
Qed.

Lemma strictlyIncreasing_last_greatest (l : list Z) (b x : Z) :
  strictlyIncreasing l → last l = Some b → x ∈ l → x ≤ b.
Proof.
  intros Hl. revert b x. induction Hl as [|y l Hl IH Hy]; intros b x Hb Hx; [done|].
  rewrite Forall_forall in Hy.
  destruct l as [|z l'].
  - injection Hb as <-. apply list_elem_of_singleton in Hx as ->. lia.
  - change (last (y :: z :: l')) with (last (z :: l')) in Hb.
    apply elem_of_cons in Hx as [->|Hx]; [|by apply IH].
    assert (Hbl : b ∈ z :: l').
    { apply list_elem_of_lookup. exists (length l'). rewrite last_lookup in Hb. done. }
    specialize (Hy b Hbl). lia.
Qed.

Lemma head_elem_of (l : list Z) (a : Z) : head l = Some a → a ∈ l.
Proof. destruct l; [done|]. intros [= ->]. by left. Qed.

Lemma last_elem_of (l : list Z) (b : Z) : last l = Some b → b ∈ l.
Proof.
  rewrite last_lookup. intros Hb. by eapply list_elem_of_lookup_2.
Qed.

Section MergeExtras.
Context {FrameWindow FrameDetails GameMetadata : Type}.
Context `{!FrameAccess FrameWindow FrameDetails}.

Abbreviation StateM := (FrameIndexState FrameWindow FrameDetails GameMetadata).
Abbreviation EngineM := (Engine FrameWindow FrameDetails GameMetadata).
Abbreviation ActionM := (Action FrameWindow FrameDetails GameMetadata).
Abbreviation InputM := (MergeInput (FrameWindow := FrameWindow)
                          (FrameDetails := FrameDetails) (GameMetadata := GameMetadata)).
Implicit Types (prev s : StateM) (e : EngineM).
Implicit Types (w : list FrameWindow) (d : list FrameDetails).
Implicit Types (m : option GameMetadata).

Lemma mergeSkips_no_payload w d m prev :
  mergeSkips w d m prev = true → w = [] ∧ d = [].
Proof.
  unfold mergeSkips. cbv zeta.
  destruct w as [|f w]; destruct d as [|g d]; try done.
Qed.

Lemma mergeSkips_payload w d m prev :
  w ≠ [] ∨ d ≠ [] → mergeSkips w d m prev = false.
Proof.
  intros Hp. unfold mergeSkips. cbv zeta. by rewrite hasPayload_true by done.
Qed.

Lemma kept_present (t : Z) :
  keptByUpdates (λ s : StateM, t ∈ orderedTimestamps s).
Proof.
  unfold keptByUpdates.
  split.
  { intros w d m s Hs. rewrite mergeFrames_unfold.
    destruct (mergeSkips _ _ _ _); [done|]. simpl.
    apply mergedTimestamps_elem_of. by left. }
  split.
  { intros s Hs. unfold showNextFrame_state.
    destruct (playbackPointer s); [cbv zeta; case_decide; [done|];
      by destruct (negb (isFinal s))|].
    destruct (playQueue s); [done|]. by destruct (isLivePaused s). }
  split.
  { intros s Hs. unfold markHasFirstFrame_state.
    destruct (hasFirstFrame s); [|done]. by destruct (isBackfilling s). }
  split.
  { intros s Hs. unfold goLive_state. by destruct (playbackPointer s). }
  split; [done|]. split; [done|]. split; [done|]. split; [done|]. split; done.
Qed.

Lemma kept_window_payload (t : Z) :
  keptByUpdates (λ s : StateM, is_Some (framesWindow s !! t)).
Proof.
  unfold keptByUpdates.
  split.
  { intros w d m s Hs. rewrite mergeFrames_unfold.
    destruct (mergeSkips _ _ _ _); [done|]. simpl.
    apply (insertAll_is_Some windowEpoch). by left. }
  split.
  { intros s Hs. unfold showNextFrame_state.
    destruct (playbackPointer s); [cbv zeta; case_decide; [done|];
      by destruct (negb (isFinal s))|].
    destruct (playQueue s); [done|]. by destruct (isLivePaused s). }
  split.
  { intros s Hs. unfold markHasFirstFrame_state.
    destruct (hasFirstFrame s); [|done]. by destruct (isBackfilling s). }
  split.
  { intros s Hs. unfold goLive_state. by destruct (playbackPointer s). }
  split; [done|]. split; [done|]. split; [done|]. split; [done|]. split; done.
Qed.

Lemma kept_details_payload (t : Z) :
  keptByUpdates (λ s : StateM, is_Some (framesDetails s !! t)).
Proof.
  unfold keptByUpdates.
  split.
  { intros w d m s Hs. rewrite mergeFrames_unfold.
    destruct (mergeSkips _ _ _ _); [done|]. simpl.
    apply (insertAll_is_Some detailsEpoch). by left. }
  split.
  { intros s Hs. unfold showNextFrame_state.
    destruct (playbackPointer s); [cbv zeta; case_decide; [done|];
      by destruct (negb (isFinal s))|].
    destruct (playQueue s); [done|]. by destruct (isLivePaused s). }
  split.
  { intros s Hs. unfold markHasFirstFrame_state.
    destruct (hasFirstFrame s); [|done]. by destruct (isBackfilling s). }
  split.
  { intros s Hs. unfold goLive_state. by destruct (playbackPointer s). }
  split; [done|]. split; [done|]. split; [done|]. split; [done|]. split; done.
Qed.

(** X5. Nothing is ever taken out of the index.  Through any sequence
    of merges, scheduler ticks, backfill passes and mode commands, a
    timestamp that is in the index stays in it, and a timestamp that
    has a window payload, or a details payload, keeps having one. *)
Theorem index_only_grows e (actions : list ActionM) (t : Z) :
  (t ∈ orderedTimestamps (state e) → t ∈ orderedTimestamps (state (run e actions)))
  ∧ (is_Some (framesWindow (state e) !! t) →
     is_Some (framesWindow (state (run e actions)) !! t))
  ∧ (is_Some (framesDetails (state e) !! t) →
     is_Some (framesDetails (state (run e actions)) !! t)).
Proof.
  split; [|split]; intros Ht.
  - by apply (run_keeps _ actions e (kept_present t)).
  - by apply (run_keeps _ actions e (kept_window_payload t)).
  - by apply (run_keeps _ actions e (kept_details_payload t)).
Qed.

(** X6. The frames of a merge can be looked up afterwards.  After the
    updater of [mergeFrames] has run, the window frame that was last
    in the call among those with its timestamp is the one stored under
    that timestamp, and the timestamp is in the index, whatever
    details frames the call carries (none included); likewise for a
    details frame, whatever window frames the call carries. *)
Theorem merged_frame_is_stored prev m :
  (∀ w1 w2 (f : FrameWindow) d,
      windowEpoch f ∉ windowEpoch <$> w2 →
      let next := (mergeFrames (w1 ++ f :: w2) d m prev).1 in
      framesWindow next !! windowEpoch f = Some f
      ∧ windowEpoch f ∈ orderedTimestamps next)
  ∧ (∀ w d1 d2 (g : FrameDetails),
      detailsEpoch g ∉ detailsEpoch <$> d2 →
      let next := (mergeFrames w (d1 ++ g :: d2) m prev).1 in
      framesDetails next !! detailsEpoch g = Some g
      ∧ detailsEpoch g ∈ orderedTimestamps next).
Proof.
  split.
  - intros w1 w2 f d Hf. cbv zeta. rewrite mergeFrames_unfold.
    rewrite mergeSkips_payload by (left; by destruct w1).
    cbn [mergedState framesWindow orderedTimestamps].
    split; [by apply (insertAll_last_wins windowEpoch)|].
    apply mergedTimestamps_elem_of. right. left.
    apply list_elem_of_fmap. exists f. split; [done|].
    apply elem_of_app. right. by left.
  - intros w d1 d2 g Hg. cbv zeta. rewrite mergeFrames_unfold.
    rewrite mergeSkips_payload by (right; by destruct d1).
    cbn [mergedState framesDetails orderedTimestamps].
    split; [by apply (insertAll_last_wins detailsEpoch)|].
    apply mergedTimestamps_elem_of. right. right.
    apply list_elem_of_fmap. exists g. split; [done|].
    apply elem_of_app. right. by left.
Qed.

(** When [mergeFrames] leaves the state alone. *)
Lemma mergeSkips_spec w d m prev :
  mergeSkips w d m prev = true
  ↔ w = [] ∧ d = [] ∧ ¬ (is_Some m ∧ metadata prev = None).
Proof.
  destruct w as [|f w].
  2:{ rewrite mergeSkips_payload by by left. split; [done|]. by intros [? _]. }
  destruct d as [|g d].
  2:{ rewrite mergeSkips_payload by by right. split; [done|]. by intros (_ & ? & _). }
  unfold mergeSkips. cbv zeta.
  change (bool_decide (Js.length (@nil FrameWindow) > 0)) with false.
  change (bool_decide (Js.length (@nil FrameDetails) > 0)) with false.
  cbn [orb negb andb].
  destruct m as [m1|], (metadata prev) as [m0|]; cbn.
  - split; [|done]. intros _. repeat split; try done. by intros [_ ?].
  - rewrite andb_false_r. split; [done|]. intros (_ & _ & Hn). destruct Hn.
    split; [by eexists|done].
  - split; [|done]. intros _. repeat split; try done. by intros [[? ?] _].
  - split; [|done]. intros _. repeat split; try done. by intros [[? ?] _].
Qed.

Lemma mergeOne_metadata s (i : InputM) :
  metadata (mergeOne s i)
  = match metadata s with Some m0 => Some m0 | None => i.2 end.
Proof.
  unfold mergeOne. destruct i as [[w d] m]. cbn [fst snd].
  rewrite mergeFrames_unfold. destruct (mergeSkips w d m s) eqn:Hskip; [|done].
  destruct (metadata s) as [m0|] eqn:Hm; [done|].
  destruct m as [m1|]; [|done]. exfalso.
  apply mergeSkips_spec in Hskip as (_ & _ & Hn). apply Hn.
  split; [by eexists|done].
Qed.

(** X7. Metadata is set once.  After any sequence of merges the
    metadata is the one the state already had, or else the first one
    that any of the merges brought; later ones never replace it. *)
Theorem metadata_first_wins (inputs : list InputM) s :
  metadata (mergeAll s inputs)
  = match metadata s with
    | Some m0 => Some m0
    | None => head (omap (λ i : InputM, i.2) inputs)
    end.
Proof.
  revert s. induction inputs as [|i inputs IH]; intros s.
  - simpl. by destruct (metadata s).
  - cbn [mergeAll foldl]. fold (mergeAll (mergeOne s i) inputs).
    rewrite IH, mergeOne_metadata. destruct (metadata s) as [m0|]; [done|].
    cbn [omap list_omap]. by destruct i.2.
Qed.

(** The updater of [mergeFrames] sets [changed] exactly when the call
    carries a frame, or carries metadata while none is set; frames
    that are all known already still count.  When it leaves [changed]
    unset the state is the one passed in and neither earlier nor later
    frames are noted. *)
Lemma updater_changed_exactly w d m prev :
  (changed (mergeFrames w d m prev).2 = true
   ↔ w ≠ [] ∨ d ≠ [] ∨ (is_Some m ∧ metadata prev = None))
  ∧ (changed (mergeFrames w d m prev).2 = false →
     (mergeFrames w d m prev).1 = prev
     ∧ addedEarlier (mergeFrames w d m prev).2 = false
     ∧ addedLater (mergeFrames w d m prev).2 = false).
Proof.
  rewrite mergeFrames_changed. split.
  - pose proof (mergeSkips_spec w d m prev) as Hspec.
    destruct (mergeSkips w d m prev); simpl.
    + destruct (proj1 Hspec eq_refl) as (-> & -> & Hn).
      split; [done|]. intros [?|[?|?]]; done.
    + split; [|done]. intros _.
      destruct w as [|f w]; [|by left]. destruct d as [|g d]; [|by right; left].
      right. right.
      destruct m as [m1|]; [destruct (metadata prev) as [m0|] eqn:Hm|].
      * exfalso. assert (false = true); [|done]. apply Hspec.
        repeat split; try done. by intros [_ ?].
      * split; [by eexists|done].
      * exfalso. assert (false = true); [|done]. apply Hspec.
        repeat split; try done. by intros [[? ?] _].
  - intros Hc. apply negb_false_iff in Hc.
    rewrite mergeFrames_unfold, Hc. split; [done|].
    by apply mergeFrames_skip_flags.
Qed.

End MergeExtras.

Section MergeOrder.
Context {FrameWindow FrameDetails GameMetadata : Type}.
Context `{!FrameAccess FrameWindow FrameDetails}.

Abbreviation StateO := (FrameIndexState FrameWindow FrameDetails GameMetadata).
Abbreviation InputO := (MergeInput (FrameWindow := FrameWindow)
                          (FrameDetails := FrameDetails) (GameMetadata := GameMetadata)).
Implicit Types (prev s : StateO).
Implicit Types (w : list FrameWindow) (d : list FrameDetails).
Implicit Types (m : option GameMetadata).

Lemma mergeFrames_elements w d m prev (x : Z) :
  x ∈ orderedTimestamps (mergeFrames w d m prev).1
  ↔ x ∈ orderedTimestamps prev ∨ x ∈ windowEpoch <$> w ∨ x ∈ detailsEpoch <$> d.
Proof.
  rewrite mergeFrames_unfold. destruct (mergeSkips w d m prev) eqn:Hskip.
  - destruct (mergeSkips_no_payload _ _ _ _ Hskip) as [-> ->].
    rewrite !fmap_nil, !elem_of_nil. tauto.
  - apply mergedTimestamps_elem_of.
Qed.

Lemma mergeAll_elements (inputs : list InputO) s (x : Z) :
  x ∈ orderedTimestamps (mergeAll s inputs)
  ↔ x ∈ orderedTimestamps s ∨ ∃ i, i ∈ inputs ∧ x ∈ inputEpochs i.
Proof.
  revert s. induction inputs as [|i inputs IH]; intros s.
  - simpl. split; [by left|]. intros [?|(i & Hi & _)]; [done|].
    by apply elem_of_nil in Hi.
  - cbn [mergeAll foldl]. fold (mergeAll (mergeOne s i) inputs). rewrite IH.
    unfold mergeOne at 1. rewrite mergeFrames_elements.
    split.
    + intros [[?|Hi]|(j & Hj & Hx)]; [by left| |].
      * right. exists i. split; [by left|]. unfold inputEpochs.
        apply elem_of_app. tauto.
      * right. exists j. split; [by right|done].
    + intros [?|(j & Hj & Hx)]; [by left; left|].
      apply elem_of_cons in Hj as [->|Hj].
      * left. right. unfold inputEpochs in Hx. by apply elem_of_app in Hx.
      * right. by exists j.
Qed.

(** X9. The index after a series of merges on a fresh state holds
    exactly the timestamps the merges brought, each once; so merging
    the same inputs in any other order gives the same index. *)
Theorem merged_index_order_independent (inputs inputs' : list InputO) :
  inputs ≡ₚ inputs' →
  (∀ x, x ∈ orderedTimestamps (mergeAll createInitialState inputs)
        ↔ ∃ i, i ∈ inputs ∧ x ∈ inputEpochs i)
  ∧ orderedTimestamps (mergeAll createInitialState inputs)
    = orderedTimestamps (mergeAll createInitialState inputs').
Proof.
  intros Hperm.
  assert (Hel : ∀ l : list InputO, ∀ x,
            x ∈ orderedTimestamps (mergeAll createInitialState l)
            ↔ ∃ i, i ∈ l ∧ x ∈ inputEpochs i).
  { intros l x. rewrite mergeAll_elements. simpl. rewrite elem_of_nil. tauto. }
  split; [apply Hel|].
  apply strictlyIncreasing_same_elements;
    [apply mergeAll_strict; constructor..|].
  intros x. rewrite !Hel. by setoid_rewrite Hperm.
Qed.

(** What the updater of [mergeFrames] notes in [addedEarlier] and
    [addedLater].  On a strictly increasing index, [addedEarlier] is
    set exactly when the call brings a timestamp before every
    timestamp of the index, and [addedLater] exactly when it brings
    one after every timestamp of the index (on an empty index: when it
    brings any frame). *)
Lemma updater_flags_meaning w d m prev :
  strictlyIncreasing (orderedTimestamps prev) →
  (addedEarlier (mergeFrames w d m prev).2 = true
   ↔ ∃ x, (x ∈ windowEpoch <$> w ∨ x ∈ detailsEpoch <$> d)
          ∧ ∀ t, t ∈ orderedTimestamps prev → x < t)
  ∧ (addedLater (mergeFrames w d m prev).2 = true
     ↔ ∃ x, (x ∈ windowEpoch <$> w ∨ x ∈ detailsEpoch <$> d)
            ∧ ∀ t, t ∈ orderedTimestamps prev → t < x).
Proof.
  intros Hprev.
  destruct (mergeSkips w d m prev) eqn:Hskip.
  { destruct (mergeFrames_skip_flags w d m prev Hskip) as (_ & -> & ->).
    destruct (mergeSkips_no_payload _ _ _ _ Hskip) as [-> ->].
    split; (split; [done|]); intros (x & [Hx|Hx] & _); by apply elem_of_nil in Hx. }
  rewrite mergeFrames_flags by done. cbn [addedEarlier addedLater].
  set (sorted := mergedTimestamps prev w d).
  assert (Hsorted : strictlyIncreasing sorted) by apply mergedTimestamps_strict.
  assert (Hel : ∀ x, x ∈ sorted ↔ x ∈ orderedTimestamps prev
                                   ∨ x ∈ windowEpoch <$> w ∨ x ∈ detailsEpoch <$> d)
    by (intros x; apply mergedTimestamps_elem_of).
  split.
  - unfold didAddEarlier. split.
    + destruct (head sorted) as [a|] eqn:Ha; [|done].
      pose proof (head_elem_of _ _ Ha) as Hin. apply Hel in Hin.
      destruct (head (orderedTimestamps prev)) as [b|] eqn:Hb.
      * intros Hlt%bool_decide_eq_true.
        assert (Hleast : ∀ t, t ∈ orderedTimestamps prev → a < t).
        { intros t Ht. pose proof (strictlyIncreasing_head_least _ _ _ Hprev Hb Ht). lia. }
        exists a. split; [|done]. destruct Hin as [Hin|Hin]; [|done].
        specialize (Hleast a Hin). lia.
      * intros _. destruct (orderedTimestamps prev) eqn:Ho; [|done].
        exists a. split; [|by intros t ?%elem_of_nil].
        destruct Hin as [Hin|Hin]; [by apply elem_of_nil in Hin|done].
    + intros (x & Hx & Hbefore).
      assert (Hxs : x ∈ sorted) by (apply Hel; by right).
      destruct (head sorted) as [a|] eqn:Ha; [|by destruct sorted; [apply elem_of_nil in Hxs|]].
      pose proof (strictlyIncreasing_head_least _ _ _ Hsorted Ha Hxs) as Hax.
      destruct (head (orderedTimestamps prev)) as [b|] eqn:Hb; [|done].
      apply bool_decide_eq_true. specialize (Hbefore b (head_elem_of _ _ Hb)). lia.
  - unfold didAddLater. split.
    + destruct (last sorted) as [a|] eqn:Ha; [|done].
      pose proof (last_elem_of _ _ Ha) as Hin. apply Hel in Hin.
      destruct (last (orderedTimestamps prev)) as [b|] eqn:Hb.
      * intros Hlt%bool_decide_eq_true.
        assert (Hmost : ∀ t, t ∈ orderedTimestamps prev → t < a).
        { intros t Ht.
          pose proof (strictlyIncreasing_last_greatest _ _ _ Hprev Hb Ht). lia. }
        exists a. split; [|done]. destruct Hin as [Hin|Hin]; [|done].
        specialize (Hmost a Hin). lia.
      * intros _.
        assert (Ho : orderedTimestamps prev = []).
        { destruct (orderedTimestamps prev) as [|y l] eqn:Ho; [done|].
          rewrite last_lookup in Hb. apply lookup_ge_None in Hb. simpl in Hb. lia. }
        exists a. split; [|rewrite Ho; by intros t ?%elem_of_nil].
        destruct Hin as [Hin|Hin]; [rewrite Ho in Hin; by apply elem_of_nil in Hin|done].
    + intros (x & Hx & Hafter).
      assert (Hxs : x ∈ sorted) by (apply Hel; by right).
      destruct (last sorted) as [a|] eqn:Ha.
      2:{ destruct sorted as [|y l]; [by apply elem_of_nil in Hxs|].
          rewrite last_lookup in Ha. apply lookup_ge_None in Ha. simpl in Ha. lia. }
      pose proof (strictlyIncreasing_last_greatest _ _ _ Hsorted Ha Hxs) as Hax.
      destruct (last (orderedTimestamps prev)) as [b|] eqn:Hb; [|done].
      apply bool_decide_eq_true. specialize (Hafter b (last_elem_of _ _ Hb)). lia.
Qed.

End MergeOrder.

(** * Scheduler, queue and backfill as seen by the viewer *)

Section ViewerExtras.
Context {FrameWindow FrameDetails GameMetadata : Type}.
Context `{!FrameAccess FrameWindow FrameDetails}.

Abbreviation StateV := (FrameIndexState FrameWindow FrameDetails GameMetadata).
Abbreviation EngineV := (Engine FrameWindow FrameDetails GameMetadata).
Abbreviation ChunkV := (Chunk FrameWindow FrameDetails GameMetadata).
Implicit Types (prev s : StateV) (e : EngineV).
Implicit Types (w : list FrameWindow) (d : list FrameDetails).
Implicit Types (m : option GameMetadata).

(** X11. Every timeout the scheduler arms waits at least 150 ms and at
    most 4000 ms, whatever the speed factor and the spacing of the
    frames, in manual and in live mode. *)
Theorem scheduled_delay_bounded e (dt : Q) :
  isMountedRef e = true →
  schedulerTimerRef (scheduleNextFrame e) = Some dt →
  (150 <= dt)%Q ∧ (dt <= 4000)%Q.
Proof.
  intros Hm Hdt. rewrite scheduleNextFrame_timer in Hdt by done.
  destruct (nextRawDelta (state e)) as [rawDelta|]; [|done].
  injection Hdt as <-. apply stepDelay_range.
Qed.

Lemma scheduleNextFrame_timer_ext e e' :
  isMountedRef e = true → isMountedRef e' = true → state e = state e' →
  schedulerTimerRef (scheduleNextFrame e) = schedulerTimerRef (scheduleNextFrame e').
Proof. intros Hm Hm' Hs. rewrite !scheduleNextFrame_timer by done. by rewrite Hs. Qed.

Lemma scheduleNextFrame_mounted e :
  isMountedRef (scheduleNextFrame e) = isMountedRef e.
Proof. apply scheduleNextFrame_refs. Qed.

(** X13. When a merge adds earlier frames while the session is live
    and frames are queued, the play queue is re-located by timestamp:
    the new queue is in ascending order and resolves, in the new index,
    to exactly the timestamps the old queue resolved to in the old
    index. *)
Theorem queue_relocated_by_timestamp w d m prev :
  playbackPointer prev = None →
  playQueue prev ≠ [] →
  addedEarlier (mergeFrames w d m prev).2 = true →
  let next := (mergeFrames w d m prev).1 in
  StronglySorted Z.le (playQueue next)
  ∧ ∀ t, (∃ q, q ∈ playQueue next ∧ Js.nth (orderedTimestamps next) q = Some t)
         ↔ (∃ q, q ∈ playQueue prev ∧ Js.nth (orderedTimestamps prev) q = Some t).
Proof.
  intros Hlive Hq Hadd. cbv zeta.
  destruct (mergeSkips w d m prev) eqn:Hskip.
  { destruct (mergeFrames_skip_flags w d m prev Hskip) as (_ & He & _). congruence. }
  rewrite mergeFrames_flags in Hadd by done. cbn [addedEarlier] in Hadd.
  rewrite mergeFrames_unfold, Hskip.
  cbn [mergedState playQueue orderedTimestamps].
  set (sorted := mergedTimestamps prev w d) in *.
  assert (Hqueue : mergedQueue prev sorted (mergedLater prev w d)
                   = Js.sort_num (adjustQueue (orderedTimestamps prev) sorted
                                    (playQueue prev))).
  { unfold mergedQueue. rewrite decide_True; [done|].
    repeat split; try done. destruct (playQueue prev); [done|].
    unfold Js.length. simpl. lia. }
  rewrite Hqueue. split; [apply sort_num_sorted|].
  intros t. split.
  - intros (q' & Hq' & Ht). rewrite sort_num_elem_of in Hq'.
    unfold adjustQueue in Hq'. rewrite list_elem_of_In, in_flat_map in Hq'.
    destruct Hq' as (q & Hin & Hx). exists q.
    split; [by apply list_elem_of_In|].
    destruct (Js.nth (orderedTimestamps prev) q) as [ts|]; [|by destruct Hx].
    cbv zeta in Hx. case_decide as Hfound; [|by destruct Hx].
    destruct Hx as [<-|[]].
    apply indexOf_found, indexOf_elem in Hfound as [_ Hnth]. congruence.
  - intros (q & Hin & Ht).
    assert (Hts : t ∈ sorted).
    { apply mergedTimestamps_elem_of. left. by eapply Js_nth_elem_of. }
    destruct (indexOf_elem sorted t Hts) as [Hrange Hnth].
    exists (Js.indexOf sorted t). split; [|done].
    rewrite sort_num_elem_of. unfold adjustQueue.
    rewrite list_elem_of_In, in_flat_map. exists q.
    split; [by apply list_elem_of_In|]. rewrite Ht. cbv zeta.
    rewrite decide_True by lia. by left.
Qed.

Lemma mergeFrames_selectedTimestamp w d m prev (t : Z) :
  selectedTimestamp prev = Some t →
  selectedTimestamp (mergeFrames w d m prev).1 = Some t.
Proof.
  intros Hsel. rewrite mergeFrames_unfold. destruct (mergeSkips _ _ _ _); [done|].
  unfold selectedTimestamp in *. cbn [mergedState playbackPointer orderedTimestamps].
  destruct (playbackPointer prev) as [p|] eqn:Hp; [|done].
  case_decide; [|done].
  assert (Hin : t ∈ mergedTimestamps prev w d).
  { apply mergedTimestamps_elem_of. left. by eapply Js_nth_elem_of. }
  rewrite (mergedPlayback_relocates prev _ p t Hp Hsel Hin).
  destruct (indexOf_elem _ t Hin) as [Hrange Hnth].
  by rewrite decide_True by lia.
Qed.

(** X14. Backfill does not move what the viewer looks at.  Whatever
    the requests of a backfill run bring, fail to bring, or for how
    many passes it goes, the displayed timestamp, the manually selected
    timestamp and the mode (live or manual) are the same after
    [runBackfill], and after each single pass, as before. *)
Theorem backfill_keeps_the_view (fuel : nat) (fetch : Z → option ChunkV) e e' (t : Z) :
  runBackfill fuel fetch e = Some e' →
  (displayedTs (state e) = Some t → displayedTs (state e') = Some t)
  ∧ (selectedTimestamp (state e) = Some t → selectedTimestamp (state e') = Some t)
  ∧ (playbackPointer (state e) = None → playbackPointer (state e') = None)
  ∧ (displayedTs (state e) = Some t →
     displayedTs (state (backfillIteration fetch e).1) = Some t).
Proof.
  intros Hrun.
  assert (Hmark : ∀ (P : StateV → Prop),
            (∀ s b, P s → P (with_isBackfilling b s)) →
            (∀ s b, P s → P (with_hasFirstFrame b s)) →
            ∀ s, P s → P (markHasFirstFrame_state s)).
  { intros P Hb Hf s Hs. unfold markHasFirstFrame_state.
    destruct (hasFirstFrame s); [destruct (isBackfilling s); [by apply Hb|done]|].
    by apply Hf, Hb. }
  split; [|split; [|split]].
  - intros Ht.
    apply (runBackfill_keeps (λ s, displayedTs s = Some t) fuel fetch e e'); try done.
    + intros w d m s. apply mergeFrames_displayedTs.
    + by apply Hmark.
  - intros Ht.
    apply (runBackfill_keeps (λ s, selectedTimestamp s = Some t) fuel fetch e e');
      try done.
    + intros w d m s. apply mergeFrames_selectedTimestamp.
    + by apply Hmark.
  - intros Ht.
    apply (runBackfill_keeps (λ s, playbackPointer s = None) fuel fetch e e'); try done.
    + intros w d m s. apply mergeFrames_keeps_live.
    + by apply Hmark.
  - intros Ht.
    apply (backfillIteration_keeps (λ s, displayedTs s = Some t)); try done.
    + intros w d m s. apply mergeFrames_displayedTs.
    + by apply Hmark.
Qed.

End ViewerExtras.


(** * Forward polling *)

Section PollExtras.
Context {FrameWindow FrameDetails GameMetadata : Type}.
Context `{!FrameAccess FrameWindow FrameDetails}.

Abbreviation EngineF := (Engine FrameWindow FrameDetails GameMetadata).
Abbreviation ChunkF := (Chunk FrameWindow FrameDetails GameMetadata).
Abbreviation PollerF := (Poller FrameWindow FrameDetails GameMetadata).
Implicit Types (p q : PollerF) (e : EngineF).

Lemma terminal_stored (frames : gmap Z FrameWindow) (t : Z) (f : FrameWindow) :
  frames !! t = Some f → windowIsTerminal f = true →
  existsb windowIsTerminal (snd <$> map_to_list frames) = true.
Proof.
  intros Hf Hterm. apply existsb_exists. exists f. split; [|done].
  apply list_elem_of_In, list_elem_of_fmap. exists (t, f).
  split; [done|]. by apply elem_of_map_to_list.
Qed.

Lemma quiet_round (r : option ChunkF) p :
  isMountedRef (engine p) = true → cancelBackfillRef (engine p) = false →
  pollingInFlightRef p = false →
  isFinal (state (engine p)) = false →
  existsb windowIsTerminal (snd <$> map_to_list (framesWindow (state (engine p)))) = false →
  quietResult r →
  state (engine (pollRound r p)) = state (engine p)
  ∧ isMountedRef (engine (pollRound r p)) = true
  ∧ cancelBackfillRef (engine (pollRound r p)) = false
  ∧ pollingInFlightRef (pollRound r p) = false
  ∧ finalStateBackoffRef (pollRound r p) = finalStateBackoffRef p
  ∧ pollIntervalRef (pollRound r p) = Some LIVE_POLL_INTERVAL_MS.
Proof.
  intros Hm Hc Hfl Hfin Hterm Hquiet.
  unfold pollRound, poll. cbv zeta. rewrite Hfl, Hm, Hc.
  cbn [negb orb engine with_pollingInFlight]. rewrite Hfin, Hterm.
  cbn [negb andb snd fst]. unfold pollSettled. cbv zeta.
  destruct r as [[[w d] m]|].
  - destruct Hquiet as (-> & -> & ->).
    assert (Hmerge : (mergeFramesE [] [] None (engine p)).1 = engine p).
    { unfold mergeFramesE. cbn [fst]. rewrite mergeFrames_unfold.
      assert (Hskip : mergeSkips (@nil FrameWindow) (@nil FrameDetails) None
                        (state (engine p)) = true).
      { apply mergeSkips_spec. repeat split; try done. by intros [[? ?] _]. }
      rewrite Hskip. by destruct (engine p). }
    cbn [engine with_pollingInFlight with_engine pollIntervalRef].
    rewrite Hmerge.
    destruct (ensureScheduler_refs (engine p)) as (Hrm & Hrc & _).
    pose proof (ensureScheduler_state (engine p)) as Hrs.
    rewrite Hrs, Hfin. cbn [andb engine with_engine].
    rewrite Hrm, Hrc, Hm, Hc, Hrs, Hfin. cbn [negb andb].
    unfold scheduleNextPoll. cbn [engine with_engine]. rewrite Hrm, Hrc, Hm, Hc.
    cbn [negb orb]. cbn. by rewrite Hrs, Hrm, Hrc, Hm, Hc.
  - cbn [engine with_pollingInFlight]. rewrite Hm, Hc, Hfin. cbn [negb andb].
    unfold scheduleNextPoll. cbn [engine with_pollingInFlight]. rewrite Hm, Hc.
    cbn [negb orb]. cbn. by rewrite Hm, Hc.
Qed.

Lemma quiet_rounds (results : list (option ChunkF)) p :
  isMountedRef (engine p) = true → cancelBackfillRef (engine p) = false →
  pollingInFlightRef p = false →
  isFinal (state (engine p)) = false →
  existsb windowIsTerminal (snd <$> map_to_list (framesWindow (state (engine p)))) = false →
  Forall quietResult results →
  state (engine (pollRounds results p)) = state (engine p)
  ∧ pollingInFlightRef (pollRounds results p) = false
  ∧ finalStateBackoffRef (pollRounds results p) = finalStateBackoffRef p
  ∧ (results ≠ [] →
     pollIntervalRef (pollRounds results p) = Some LIVE_POLL_INTERVAL_MS).
Proof.
  intros Hm Hc Hfl Hfin Hterm Hquiet. revert p Hm Hc Hfl Hfin Hterm.
  induction Hquiet as [|r results Hr Hquiet IH]; intros p Hm Hc Hfl Hfin Hterm.
  - done.
  - destruct (quiet_round r p Hm Hc Hfl Hfin Hterm Hr)
      as (Hs1 & Hm1 & Hc1 & Hf1 & Hb1 & Hp1).
    unfold pollRounds in *. cbn [foldl].
    destruct (IH (pollRound r p) Hm1 Hc1 Hf1) as (Hs & Hf & Hb & Hp);
      [by rewrite Hs1..|].
    rewrite Hs, Hs1, Hb, Hb1. repeat split; try done.
    intros _. destruct results as [|r' results']; [done|]. by apply Hp.
Qed.

(** X15. Polls that bring nothing change nothing and keep polling going.
    While no terminal frame is known, after any number of polls that
    failed or came back without frames and metadata, the state is the
    one before them, no request is left in flight, the backoff timeout
    is untouched, and the next poll is due in 1000 ms. *)
Theorem quiet_polls_keep_polling (results : list (option ChunkF)) p :
  isMountedRef (engine p) = true → cancelBackfillRef (engine p) = false →
  pollingInFlightRef p = false →
  isFinal (state (engine p)) = false →
  existsb windowIsTerminal (snd <$> map_to_list (framesWindow (state (engine p)))) = false →
  Forall quietResult results →
  results ≠ [] →
  state (engine (pollRounds results p)) = state (engine p)
  ∧ pollingInFlightRef (pollRounds results p) = false
  ∧ finalStateBackoffRef (pollRounds results p) = finalStateBackoffRef p
  ∧ pollIntervalRef (pollRounds results p) = Some 1000.
Proof.
  intros Hm Hc Hfl Hfin Hterm Hquiet Hne.
  destruct (quiet_rounds results p Hm Hc Hfl Hfin Hterm Hquiet) as (Hs & Hf & Hb & Hp).
  repeat split; try done. by apply Hp.
Qed.

End PollExtras.




(** * The hook under deferred updates *)

Lemma round_in_slice (x A : Z) :
  A `mod` 10000 = 0 → A ≤ x < A + 10000 → roundToPrevious10s x = A.
Proof. unfold roundToPrevious10s. intros. Z.div_mod_to_equations. lia. Qed.

Lemma round_aligned (x : Z) : roundToPrevious10s x `mod` 10000 = 0.
Proof. unfold roundToPrevious10s. Z.div_mod_to_equations. lia. Qed.

Lemma round_le (x c : Z) :
  c `mod` 10000 = 0 → x < c + 10000 → roundToPrevious10s x ≤ c.
Proof. unfold roundToPrevious10s. intros. Z.div_mod_to_equations. lia. Qed.

Lemma round_ge (x A : Z) :
  A `mod` 10000 = 0 → A ≤ x → A ≤ roundToPrevious10s x.
Proof. unfold roundToPrevious10s. intros. Z.div_mod_to_equations. lia. Qed.

Lemma round_below (x : Z) : roundToPrevious10s x ≤ x < roundToPrevious10s x + 10000.
Proof. unfold roundToPrevious10s. Z.div_mod_to_equations. lia. Qed.

Section HookFacts.
Context {FrameWindow FrameDetails GameMetadata : Type}.
Context `{!FrameAccess FrameWindow FrameDetails}.

Abbreviation StateH := (FrameIndexState FrameWindow FrameDetails GameMetadata).
Abbreviation EngineH := (Engine FrameWindow FrameDetails GameMetadata).
Abbreviation HookH := (Hook FrameWindow FrameDetails GameMetadata).
Abbreviation ChunkH := (Chunk FrameWindow FrameDetails GameMetadata).
Implicit Types (h : HookH) (e : EngineH) (prev s : StateH).
Implicit Types (w : list FrameWindow) (d : list FrameDetails) (m : option GameMetadata).

(** [mergeFrames] is the call with its updater run at once on the state
    that [stateRef] shows. *)
Lemma mergeFrames_as_call w d m prev :
  mergeFrames w d m prev
  = ((mergeFramesH true w d m (hookOf (mkEngine prev true false false false None None None))).1
       .(stateRef),
     (mergeFramesH true w d m (hookOf (mkEngine prev true false false false None None None))).2).
Proof.
  rewrite mergeFrames_eq. unfold mergeFramesH, mergeUpdater, hookOf. cbv zeta.
  cbn [stateRef applied state].
  destruct (negb (bool_decide (Js.length w > 0) || bool_decide (Js.length d > 0))
            && negb (bool_decide (is_Some m)
                     && negb (bool_decide (is_Some (metadata prev))))); [reflexivity|].
  unfold setFrameStateH, setFrameState. cbn [fst snd with_state applied state stateRef].
  match goal with |- (if ?c then _ else _) = _ => destruct c end; reflexivity.
Qed.

Lemma mergeUpdater_payload w d m prev :
  w ≠ [] ∨ d ≠ [] →
  mergeUpdater w d m prev
  = (mergedState w d m prev,
     mkMergeResult true
       (didAddEarlier prev (mergedTimestamps prev w d))
       (didAddLater prev (mergedTimestamps prev w d))
       (bool_decide (Js.length (mergedTimestamps prev w d) > 0))).
Proof.
  intros Hp. unfold mergeUpdater. cbv zeta. by rewrite hasPayload_true by done.
Qed.

(** A call that carries frames: the state gets them whenever the
    updater runs, [stateRef] and the flags only when it runs at
    once. *)
Lemma mergeFramesH_payload (atOnce : bool) w d m h :
  w ≠ [] ∨ d ≠ [] →
  mergeFramesH atOnce w d m h
  = (mkHook (with_state (mergedState w d m (state (applied h))) (applied h))
       (if atOnce then mergedState w d m (state (applied h)) else stateRef h),
     if atOnce
     then mkMergeResult true
            (didAddEarlier (state (applied h))
               (mergedTimestamps (state (applied h)) w d))
            (didAddLater (state (applied h))
               (mergedTimestamps (state (applied h)) w d))
            (bool_decide (Js.length (mergedTimestamps (state (applied h)) w d) > 0))
     else mkMergeResult false false false
            (bool_decide (Js.length (orderedTimestamps (stateRef h)) > 0))).
Proof.
  intros Hp. unfold mergeFramesH. cbv zeta. rewrite hasPayload_true by done.
  cbn [negb andb]. unfold setFrameStateH, setFrameState. cbv zeta.
  rewrite mergeUpdater_payload by done. cbn [fst snd state with_state].
  by destruct atOnce.
Qed.

(** The call whose updater React runs at once, on a hook whose
    [stateRef] shows the state: the state and the result are those of
    the updater run on that state, and [stateRef] shows the new
    state. *)
Lemma mergeFramesH_at_once w d m h :
  stateRef h = state (applied h) →
  state (applied (mergeFramesH true w d m h).1) = (mergeFrames w d m (stateRef h)).1
  ∧ stateRef (mergeFramesH true w d m h).1 = (mergeFrames w d m (stateRef h)).1
  ∧ (mergeFramesH true w d m h).2 = (mergeFrames w d m (stateRef h)).2.
Proof.
  intros Hsync. rewrite mergeFrames_eq. unfold mergeFramesH, mergeUpdater. cbv zeta.
  rewrite !Hsync.
  destruct (negb (bool_decide (Js.length w > 0) || bool_decide (Js.length d > 0))
            && negb (bool_decide (is_Some m)
                     && negb (bool_decide (is_Some (metadata (state (applied h)))))));
    [cbn [fst snd]; by rewrite Hsync|].
  unfold setFrameStateH, setFrameState. cbn [fst snd with_state applied state stateRef].
  match goal with |- context [if ?c then _ else _] => destruct c end; done.
Qed.

(** The call whose updater React defers: the result holds the initial
    values of the flags, [stateRef] is as before, and a call that
    carries frames has them in the state of the next render. *)
Lemma mergeFramesH_deferred w d m h :
  changed (mergeFramesH false w d m h).2 = false
  ∧ addedEarlier (mergeFramesH false w d m h).2 = false
  ∧ addedLater (mergeFramesH false w d m h).2 = false
  ∧ stateRef (mergeFramesH false w d m h).1 = stateRef h
  ∧ (w ≠ [] ∨ d ≠ [] →
     state (applied (mergeFramesH false w d m h).1) = mergedState w d m (state (applied h))).
Proof.
  split; [|split; [|split; [|split]]].
  1-4: unfold mergeFramesH; cbv zeta; by destruct (_ && _).
  intros Hp. by rewrite mergeFramesH_payload.
Qed.

Lemma onStateRef_state (f : EngineH → EngineH) h :
  state (applied (onStateRef f h)) = state (applied h)
  ∧ stateRef (onStateRef f h) = stateRef h.
Proof. done. Qed.

Lemma ensureSchedulerH_state h :
  state (applied (ensureSchedulerH h)) = state (applied h).
Proof. reflexivity. Qed.

Lemma ensureSchedulerH_refs h :
  isMountedRef (applied (ensureSchedulerH h)) = isMountedRef (applied h)
  ∧ cancelBackfillRef (applied (ensureSchedulerH h)) = cancelBackfillRef (applied h)
  ∧ backfillCursorRef (applied (ensureSchedulerH h)) = backfillCursorRef (applied h).
Proof.
  unfold ensureSchedulerH, onStateRef. cbn [applied].
  destruct (ensureScheduler_refs (with_state (stateRef h) (applied h))) as (Hm & Hc & Hcur).
  cbn [isMountedRef cancelBackfillRef backfillCursorRef with_state] in *. done.
Qed.

Lemma chunkEpochs_payload w d m :
  (w ≠ [] ∨ d ≠ []) ↔ ∃ t, t ∈ chunkEpochs (w, d, m).
Proof.
  unfold chunkEpochs. cbn [fst snd]. split.
  - intros [Hw|Hd].
    + destruct w as [|f w]; [done|]. exists (windowEpoch f).
      apply elem_of_app. left. left.
    + destruct d as [|g d]; [done|]. exists (detailsEpoch g).
      apply elem_of_app. right. left.
  - intros (t & [Ht|Ht]%elem_of_app).
    + left. intros ->. by apply elem_of_nil in Ht.
    + right. intros ->. by apply elem_of_nil in Ht.
Qed.

Lemma chunkEpochs_merged w d m prev (t : Z) :
  t ∈ mergedTimestamps prev w d ↔ t ∈ orderedTimestamps prev ∨ t ∈ chunkEpochs (w, d, m).
Proof.
  rewrite mergedTimestamps_elem_of. unfold chunkEpochs. cbn [fst snd].
  rewrite elem_of_app. tauto.
Qed.

(** X8. What [mergeFrames] returns in [changed].  When React runs the
    updater during the call (nothing is queued, and [stateRef] shows
    the state), the call returns [changed = true] exactly when it
    carries a frame, or carries metadata while none is set; frames
    that are all known already still count; and when it returns
    [changed = false] the state and [stateRef] are as before and
    neither earlier nor later frames are reported.  When React defers
    the updater, the call returns [changed], [addedEarlier] and
    [addedLater] all false and leaves [stateRef] as it was, although a
    call that carries frames has them in the state of the next
    render. *)
Theorem mergeFrames_changed_exactly w d m h :
  (stateRef h = state (applied h) →
   (changed (mergeFramesH true w d m h).2 = true
    ↔ w ≠ [] ∨ d ≠ [] ∨ (is_Some m ∧ metadata (stateRef h) = None))
   ∧ (changed (mergeFramesH true w d m h).2 = false →
      state (applied (mergeFramesH true w d m h).1) = state (applied h)
      ∧ stateRef (mergeFramesH true w d m h).1 = stateRef h
      ∧ addedEarlier (mergeFramesH true w d m h).2 = false
      ∧ addedLater (mergeFramesH true w d m h).2 = false))
  ∧ (changed (mergeFramesH false w d m h).2 = false
     ∧ addedEarlier (mergeFramesH false w d m h).2 = false
     ∧ addedLater (mergeFramesH false w d m h).2 = false
     ∧ stateRef (mergeFramesH false w d m h).1 = stateRef h
     ∧ (w ≠ [] ∨ d ≠ [] →
        state (applied (mergeFramesH false w d m h).1)
        = mergedState w d m (state (applied h)))).
Proof.
  split; [|apply mergeFramesH_deferred].
  intros Hsync.
  destruct (mergeFramesH_at_once w d m h Hsync) as (Hs & Hv & ->).
  destruct (updater_changed_exactly w d m (stateRef h)) as [Hiff Hsame].
  split; [exact Hiff|]. intros Hc.
  destruct (Hsame Hc) as (Hprev & He & Hl).
  rewrite Hs, Hv, Hprev. done.
Qed.

(** X10. What [mergeFrames] returns in [addedEarlier] and
    [addedLater].  When React runs the updater during the call, on a
    strictly increasing index that [stateRef] shows, [addedEarlier] is
    returned true exactly when the call brings a timestamp before
    every timestamp of the index, and [addedLater] exactly when it
    brings one after every timestamp of the index (on an empty index:
    when it brings any frame).  When React defers the updater both are
    returned false whatever the call brings. *)
Theorem merge_result_flags_meaning w d m h :
  stateRef h = state (applied h) →
  strictlyIncreasing (orderedTimestamps (stateRef h)) →
  (addedEarlier (mergeFramesH true w d m h).2 = true
   ↔ ∃ x, (x ∈ windowEpoch <$> w ∨ x ∈ detailsEpoch <$> d)
          ∧ ∀ t, t ∈ orderedTimestamps (stateRef h) → x < t)
  ∧ (addedLater (mergeFramesH true w d m h).2 = true
     ↔ ∃ x, (x ∈ windowEpoch <$> w ∨ x ∈ detailsEpoch <$> d)
            ∧ ∀ t, t ∈ orderedTimestamps (stateRef h) → t < x)
  ∧ addedEarlier (mergeFramesH false w d m h).2 = false
  ∧ addedLater (mergeFramesH false w d m h).2 = false.
Proof.
  intros Hsync Hstrict.
  destruct (mergeFramesH_at_once w d m h Hsync) as (_ & _ & ->).
  destruct (updater_flags_meaning w d m (stateRef h) Hstrict) as [He Hl].
  destruct (mergeFramesH_deferred w d m h) as (_ & He' & Hl' & _).
  done.
Qed.

End HookFacts.

(** * Backfill under deferred updates *)

Section BackfillDeferred.
Context {FrameWindow FrameDetails GameMetadata : Type}.
Context `{!FrameAccess FrameWindow FrameDetails}.

Abbreviation StateB := (FrameIndexState FrameWindow FrameDetails GameMetadata).
Abbreviation HookB := (Hook FrameWindow FrameDetails GameMetadata).
Abbreviation ChunkB' := (Chunk FrameWindow FrameDetails GameMetadata).
Abbreviation ProgressB' := (BatchProgressH FrameWindow FrameDetails GameMetadata).
Implicit Types (h : HookB) (fetch : Z → option ChunkB') (acc : ProgressB').
Implicit Types (ts : list Z) (sched : PassSchedule).

(** The results of one more request gone through. *)
Lemma processResultH_step fetch ts (cursor : Z) (atOnce : nat → bool) h1 acc :
  servesSlices fetch ts →
  cursor `mod` 10000 = 0 →
  batchKeeps ts cursor h1 acc →
  let target := cursor - BACKFILL_STEP_MS * Z.of_nat (settledH acc) in
  batchKeeps ts cursor h1 (processResultH atOnce acc (fetch target, target)).
Proof.
  intros Hserve Hal Hacc. cbv zeta. unfold BACKFILL_STEP_MS.
  set (j := settledH acc) in *.
  set (target := cursor - 10000 * Z.of_nat j).
  destruct (Hserve target) as ([[w d] m] & Hfetch & Hchunk).
  { subst target. Z.div_mod_to_equations. lia. }
  unfold BACKFILL_STEP_MS in Hchunk.
  destruct Hacc as (Hm & Hc & Hcur & Hfl & Hfs & Hsl & Hml & Hss & Hks & Hsk & Hany
                    & Hsaw & Hearliest).
  fold j in Hml, Hsk, Hsaw, Hearliest.
  unfold processResultH. rewrite Hfetch. fold j.
  destruct (bool_decide (Js.length w > 0) || bool_decide (Js.length d > 0)) eqn:Hpay.
  - assert (Hne : w ≠ [] ∨ d ≠ []).
    { destruct w as [|f w]; [|by left]. destruct d as [|g d]; [done|by right]. }
    destruct (proj1 (chunkEpochs_payload w d m) Hne) as (t0 & Ht0).
    pose proof (proj1 (Hchunk t0) Ht0) as [Ht0s Ht0r].
    rewrite mergeFramesH_payload by done.
    unfold batchKeeps. cbv zeta.
    cbn [batchHook anyProgressH sawFramesH earliestFetchedH settledH applied stateRef
         fst snd state isMountedRef cancelBackfillRef backfillCursorRef with_state].
    rewrite Nat2Z.inj_succ.
    assert (Hmerged : ∀ t, t ∈ mergedTimestamps (state (applied (batchHook acc))) w d
                           ↔ t ∈ orderedTimestamps (stateRef h1)
                             ∨ (t ∈ ts ∧ cursor + 10000 - 10000 * Z.succ (Z.of_nat j) ≤ t
                                         < cursor + 10000)).
    { intros t. rewrite (chunkEpochs_merged w d m), Hml, Hchunk. subst target.
      split.
      - intros [[?|[? ?]]|[? ?]]; [by left|right; split; [done|lia]..].
      - intros [?|[? ?]]; [by left; left|].
        destruct (decide (cursor + 10000 - 10000 * Z.of_nat j ≤ t)).
        + left. right. split; [done|lia].
        + right. split; [done|lia]. }
    split; [done|]. split; [done|]. split; [done|].
    split; [done|].
    split; [by destruct (atOnce j)|].
    split; [apply mergedTimestamps_strict|].
    split; [exact Hmerged|].
    split; [destruct (atOnce j); [apply mergedTimestamps_strict|done]|].
    split.
    { intros t Ht. destruct (atOnce j); [|by apply Hks].
      cbn [orderedTimestamps mergedState]. apply Hmerged. by left. }
    split.
    { intros t Ht. destruct (atOnce j).
      - cbn [orderedTimestamps mergedState] in Ht. by apply Hmerged.
      - destruct (Hsk t Ht) as [?|[? ?]]; [by left|right; split; [done|lia]]. }
    split.
    { destruct (atOnce j); cbn [changed].
      - intros _. exists t0. split; [|subst target; lia].
        cbn [orderedTimestamps mergedState]. apply (chunkEpochs_merged w d m). by right.
      - intros Ha. destruct (Hany Ha) as (t & ? & ?). by exists t. }
    split.
    { split; [|done]. intros _. exists t0. split; [done|]. subst target. lia. }
    destruct (earliestFetchedH acc) as [earliest|].
    + destruct Hearliest as (Hea & Hec & (te & [Htes Hter] & Hte) & Hemin).
      destruct (decide (target < earliest)) as [Hlt|Hlt].
      * split; [subst target; Z.div_mod_to_equations; lia|].
        split; [subst target; lia|].
        split; [exists t0; split; [split; [done|subst target; lia]|lia]|].
        intros t [Hts Htr].
        destruct (decide (cursor + 10000 - 10000 * Z.of_nat j ≤ t)) as [Hin|Hout].
        -- assert (earliest ≤ t) by (apply Hemin; split; [done|lia]). lia.
        -- subst target. lia.
      * split; [done|]. split; [done|].
        split; [exists te; split; [split; [done|lia]|done]|].
        intros t [Hts Htr].
        destruct (decide (cursor + 10000 - 10000 * Z.of_nat j ≤ t)) as [Hin|Hout].
        -- apply Hemin. split; [done|lia].
        -- subst target. lia.
    + split; [subst target; Z.div_mod_to_equations; lia|].
      split; [subst target; lia|].
      split; [exists t0; split; [split; [done|subst target; lia]|lia]|].
      intros t [Hts Htr].
      destruct (decide (cursor + 10000 - 10000 * Z.of_nat j ≤ t)) as [Hin|Hout].
      * assert (Hsome : sawFramesH acc = true).
        { apply Hsaw. exists t. split; [done|lia]. }
        congruence.
      * subst target. lia.
  - assert (Hnil : ∀ t, ¬ (t ∈ ts ∧ target ≤ t < target + 10000)).
    { intros t Ht. apply Hchunk in Ht.
      destruct (proj2 (chunkEpochs_payload w d m) (ex_intro _ t Ht)) as [Hw|Hd].
      - destruct w as [|f w]; [done|].
        apply orb_false_iff in Hpay as [Hw' _]. apply bool_decide_eq_false in Hw'.
        unfold Js.length in Hw'. simpl in Hw'. lia.
      - destruct d as [|g d]; [done|].
        apply orb_false_iff in Hpay as [_ Hd']. apply bool_decide_eq_false in Hd'.
        unfold Js.length in Hd'. simpl in Hd'. lia. }
    assert (Hsame : ∀ t, (t ∈ ts ∧ cursor + 10000 - 10000 * Z.succ (Z.of_nat j) ≤ t
                                  < cursor + 10000)
                         ↔ (t ∈ ts ∧ cursor + 10000 - 10000 * Z.of_nat j ≤ t
                                    < cursor + 10000)).
    { intros t. split; intros [Hts Htr]; (split; [done|]); [|lia].
      destruct (decide (cursor + 10000 - 10000 * Z.of_nat j ≤ t)); [lia|].
      exfalso. apply (Hnil t). split; [done|subst target; lia]. }
    unfold batchKeeps. cbv zeta.
    cbn [batchHook anyProgressH sawFramesH earliestFetchedH settledH].
    rewrite Nat2Z.inj_succ.
    split; [done|]. split; [done|]. split; [done|]. split; [done|]. split; [done|].
    split; [done|].
    split; [intros t; rewrite Hml; by rewrite Hsame|].
    split; [done|]. split; [done|].
    split; [intros t Ht; rewrite Hsame; by apply Hsk|].
    split; [done|].
    split; [rewrite Hsaw; split; intros (t & Ht); exists t; by apply Hsame|].
    destruct (earliestFetchedH acc) as [earliest|]; [|done].
    destruct Hearliest as (Hea & Hec & (te & Hte1 & Hte2) & Hemin).
    split; [done|]. split; [done|].
    split; [exists te; split; [by apply Hsame|done]|].
    intros t Ht. by apply Hemin, Hsame.
Qed.

Lemma processResultH_settled (atOnce : nat → bool) acc (r : option ChunkB' * Z) :
  settledH (processResultH atOnce acc r) = S (settledH acc).
Proof.
  unfold processResultH. destruct r as [[[[w d] m]|] target]; [|done].
  by destruct (_ || _).
Qed.

Lemma processResultH_batch fetch ts (cursor : Z) (atOnce : nat → bool) h1 (n : nat) acc :
  servesSlices fetch ts →
  cursor `mod` 10000 = 0 →
  batchKeeps ts cursor h1 acc →
  let acc' :=
    foldl (processResultH atOnce) acc
      ((λ targetCursor, (fetch targetCursor, targetCursor))
         <$> ((λ i : nat, cursor - BACKFILL_STEP_MS * Z.of_nat i)
                <$> seq (settledH acc) n)) in
  batchKeeps ts cursor h1 acc' ∧ settledH acc' = (settledH acc + n)%nat.
Proof.
  intros Hserve Hal. revert acc.
  induction n as [|n IH]; intros acc Hacc; cbv zeta.
  - cbn [seq fmap list_fmap foldl]. split; [done|lia].
  - cbn [seq]. rewrite !fmap_cons. cbn [foldl].
    pose proof (processResultH_step fetch ts cursor atOnce h1 acc Hserve Hal Hacc) as Hstep.
    cbv zeta in Hstep.
    pose proof (processResultH_settled atOnce acc
                  (fetch (cursor - BACKFILL_STEP_MS * Z.of_nat (settledH acc)),
                   cursor - BACKFILL_STEP_MS * Z.of_nat (settledH acc))) as Hcount.
    destruct (IH _ Hstep) as [Hkeeps Hn]. rewrite Hcount in Hkeeps, Hn.
    split; [exact Hkeeps|]. rewrite Hn. lia.
Qed.

(** The batch that starts on a hook on which [stateRef] shows the
    index of the state. *)
Lemma batchKeeps_start ts (cursor : Z) h1 :
  hasFirstFrame (stateRef h1) = false →
  hasFirstFrame (state (applied h1)) = false →
  orderedTimestamps (stateRef h1) = orderedTimestamps (state (applied h1)) →
  strictlyIncreasing (orderedTimestamps (state (applied h1))) →
  batchKeeps ts cursor h1 (mkBatchProgressH h1 false false None 0).
Proof.
  intros Hfs Hfl Hots Hs. unfold batchKeeps. cbv zeta.
  cbn [batchHook anyProgressH sawFramesH earliestFetchedH settledH].
  rewrite Hots.
  split; [done|]. split; [done|]. split; [done|]. split; [done|]. split; [done|].
  split; [done|].
  split; [intros t; split; [by left|intros [?|[_ ?]]; [done|lia]]|].
  split; [done|]. split; [done|]. split; [by left|].
  split; [done|].
  split; [split; [done|intros (t & _ & ?); lia]|done].
Qed.

(** The top of a pass on a hook whose [stateRef] shows a non-empty
    index without [hasFirstFrame]: the requests go out for
    [batchTargetsH], and the state and [stateRef] are untouched. *)
Lemma backfillTargetsH_targets sched h :
  hasFirstFrame (stateRef h) = false →
  orderedTimestamps (stateRef h) ≠ [] →
  ∃ h1, backfillTargetsH sched h = (h1, Some (batchTargetsH h))
        ∧ state (applied h1) = state (applied h)
        ∧ stateRef h1 = stateRef h.
Proof.
  intros Hfirst Hne. unfold backfillTargetsH, batchTargetsH. cbv zeta.
  rewrite Hfirst. rewrite decide_False by by rewrite Js_length_zero.
  rewrite Js_nth_zero.
  destruct (orderedTimestamps (stateRef h)) as [|t0 ts] eqn:Hots; [done|].
  cbn [head].
  destruct (backfillCursorRef (applied h)) as [c|] eqn:Hc.
  - rewrite Hc. cbn [default from_option id].
    rewrite decide_False by (by unfold Js.length). by exists h.
  - cbn [onRefs applied backfillCursorRef with_backfillCursor default from_option id].
    rewrite decide_False by (by unfold Js.length). by eexists.
Qed.

(** The top of the pass: the checks pass and the cursor is [c]. *)
Lemma backfillTargetsH_ready ts (lo hi A c : Z) sched h :
  fillsSlices ts lo hi →
  readyAt ts lo hi A c h →
  ∃ h1,
    backfillTargetsH sched h
    = (h1, Some ((λ i : nat, c - BACKFILL_STEP_MS * Z.of_nat i)
                   <$> seq 0 BACKFILL_CONCURRENCY))
    ∧ backfillCursorRef (applied h1) = Some c
    ∧ isMountedRef (applied h1) = true
    ∧ cancelBackfillRef (applied h1) = false
    ∧ state (applied h1) = state (applied h)
    ∧ stateRef h1 = stateRef h.
Proof.
  intros (Hsorted & Hloal & Hlo & Hdense)
         (Hm & Hc & Hfs & Hfl & Hots & Hs & Hmem & HAal & HA & Hcal & Hcr & Hcur).
  destruct (Hdense A HAal HA) as (t1 & Ht1 & Ht1r).
  assert (Hin : t1 ∈ orderedTimestamps (stateRef h)).
  { rewrite Hots. apply Hmem. split; [done|lia]. }
  unfold backfillTargetsH. cbv zeta. rewrite Hfs.
  rewrite decide_False.
  2:{ rewrite Js_length_zero. intros Hnil. rewrite Hnil in Hin. by apply elem_of_nil in Hin. }
  rewrite Js_nth_zero.
  destruct (head (orderedTimestamps (stateRef h))) as [anchorTs|] eqn:Hhead.
  2:{ apply head_None in Hhead. rewrite Hhead in Hin. by apply elem_of_nil in Hin. }
  assert (Hanchor : roundToPrevious10s anchorTs = A).
  { apply round_in_slice; [done|]. split.
    - assert (anchorTs ∈ orderedTimestamps (stateRef h)) as Hel by by apply head_elem_of.
      rewrite Hots in Hel. apply Hmem in Hel. lia.
    - assert (anchorTs ≤ t1); [|lia].
      apply (strictlyIncreasing_head_least (orderedTimestamps (stateRef h)));
        [by rewrite Hots|done|done]. }
  rewrite Hanchor. unfold BACKFILL_STEP_MS.
  destruct Hcur as [Hcur|[Hcur ->]]; rewrite Hcur.
  - rewrite Hcur. cbn [default from_option id].
    rewrite decide_False by (by unfold Js.length).
    by exists h.
  - cbn [onRefs applied backfillCursorRef with_backfillCursor default from_option id].
    rewrite decide_False by (by unfold Js.length).
    eexists. split; [reflexivity|]. done.
Qed.

(** A render while the requests are in flight leaves the refs and the
    state as they are. *)
Lemma inFlight_render (rendered : bool) h :
  applied (if rendered then render h else h) = applied h
  ∧ (stateRef (if rendered then render h else h) = stateRef h
     ∨ stateRef (if rendered then render h else h) = state (applied h)).
Proof. destruct rendered; split; auto. Qed.

(** The hook after a pass that goes round again with the cursor at
    [c']: the refs and the state of the batch with the new cursor, and
    a render. *)
Lemma readyAt_next ts (lo hi A c A' c' : Z) h1 acc :
  fillsSlices ts lo hi →
  batchKeeps ts c h1 acc →
  settledH acc = 10%nat →
  isMountedRef (applied h1) = true →
  cancelBackfillRef (applied h1) = false →
  (∀ t, t ∈ orderedTimestamps (stateRef h1) ↔ t ∈ ts ∧ A ≤ t) →
  A `mod` 10000 = 0 → lo ≤ A ≤ hi → c `mod` 10000 = 0 → A - 10000 ≤ c ≤ hi →
  A' = Z.max lo (Z.min A (c - 90000)) →
  c' `mod` 10000 = 0 → A' - 10000 ≤ c' ≤ c →
  readyAt ts lo hi A' c'
    (render (ensureSchedulerH
               (onRefs (with_backfillCursor (Some c')) (batchHook acc)))).
Proof.
  intros (Hsorted & Hloal & Hlo & Hdense)
         (Hm & Hc & Hcur & Hfl & Hfs & Hsl & Hml & Hss & Hks & Hsk & Hany & Hsaw & Hearliest)
         Hten Hm1 Hc1 Hknown HAal HA Hcal Hcr HA' Hc'al Hc'.
  rewrite Hten in Hml. change (Z.of_nat 10) with 10 in Hml.
  set (h2 := onRefs (with_backfillCursor (Some c')) (batchHook acc)).
  destruct (ensureSchedulerH_refs h2) as (Em & Ec & Ecur).
  unfold readyAt, render. cbn [applied stateRef].
  rewrite Em, Ec, Ecur.
  assert (Es : state (applied (ensureSchedulerH h2)) = state (applied (batchHook acc))).
  { done. }
  rewrite Es. subst h2. cbn [onRefs applied isMountedRef cancelBackfillRef
                             backfillCursorRef with_backfillCursor].
  rewrite Hm, Hc.
  split; [done|]. split; [done|]. split; [done|]. split; [done|]. split; [done|].
  split; [done|].
  split.
  { intros t. rewrite Hml, Hknown. split.
    - intros [[Hts Ht]|[Hts Ht]]; (split; [done|]); specialize (Hlo t Hts); lia.
    - intros [Hts Ht]. destruct (decide (A ≤ t)); [by left|]. right. split; [done|lia]. }
  split; [subst A'; Z.div_mod_to_equations; lia|].
  split; [lia|]. split; [done|]. split; [lia|]. by left.
Qed.

(** A pass that starts at or above the first slice of the history
    brings frames, goes round again, and leaves fewer passes to go. *)
Lemma backfillPassH_round fetch ts (lo hi A c : Z) sched h :
  servesSlices fetch ts →
  fillsSlices ts lo hi →
  readyAt ts lo hi A c h →
  lo ≤ c →
  ∃ h' A' c',
    backfillPassH fetch sched h = (h', true)
    ∧ readyAt ts lo hi A' c' h'
    ∧ passesLeft lo A' c' + 1 ≤ passesLeft lo A c.
Proof.
  intros Hserve Hfill Hready Hloc.
  destruct (backfillTargetsH_ready ts lo hi A c sched h Hfill Hready)
    as (h0 & Htargets & Hcur0 & Hm0 & Hc0 & Hs0 & Hv0).
  pose proof Hfill as (Hsorted & Hloal & Hlo & Hdense).
  destruct Hready as (Hm & Hc & Hfs & Hfl & Hots & Hs & Hmem & HAal & HA & Hcal & Hcr & _).
  unfold backfillPassH. rewrite Htargets. cbv zeta.
  destruct (inFlight_render (renderedInFlight sched) h0) as (Ha1 & Hv1').
  set (h1 := if renderedInFlight sched then render h0 else h0) in *. clearbody h1.
  assert (Hs1 : state (applied h1) = state (applied h)) by by rewrite Ha1.
  assert (Hm1 : isMountedRef (applied h1) = true) by by rewrite Ha1.
  assert (Hc1 : cancelBackfillRef (applied h1) = false) by by rewrite Ha1.
  assert (Hf1 : hasFirstFrame (stateRef h1) = false).
  { destruct Hv1' as [->| ->]; by rewrite ?Hv0, ?Hs0. }
  assert (Ho1 : orderedTimestamps (stateRef h1) = orderedTimestamps (state (applied h))).
  { destruct Hv1' as [->| ->]; by rewrite ?Hv0, ?Hs0. }
  assert (Hstart : batchKeeps ts c h1 (mkBatchProgressH h1 false false None 0)).
  { apply batchKeeps_start; by rewrite ?Hs1. }
  destruct (processResultH_batch fetch ts c (mergeAtOnce sched) h1 10 _ Hserve Hcal Hstart)
    as [Hkeeps Hten].
  cbn [settledH] in Hkeeps, Hten.
  unfold backfillSettledH. cbv zeta.
  change BACKFILL_CONCURRENCY with 10%nat.
  set (acc := foldl (processResultH (mergeAtOnce sched))
                (mkBatchProgressH h1 false false None 0) _) in *.
  clearbody acc.
  assert (Hknown : ∀ t, t ∈ orderedTimestamps (stateRef h1) ↔ t ∈ ts ∧ A ≤ t).
  { intros t. by rewrite Ho1. }
  pose proof Hkeeps as (_ & _ & _ & _ & _ & _ & _ & Hss & Hks & Hsk & Hany & Hsaw
                        & Hearliest).
  rewrite Hten in Hsk, Hsaw, Hearliest. change (Z.of_nat (0 + 10)) with 10 in *.
  set (A' := Z.max lo (Z.min A (c - 90000))).
  assert (HA'al : A' `mod` 10000 = 0) by (subst A'; Z.div_mod_to_equations; lia).
  destruct (Hdense c Hcal ltac:(lia)) as (tc & Htc & Htcr).
  assert (Hfetched : ∃ t, t ∈ ts ∧ c + 10000 - 10000 * 10 ≤ t < c + 10000).
  { exists tc. split; [done|lia]. }
  destruct (anyProgressH acc) eqn:Hprogress.
  - destruct (Hany eq_refl) as (t1 & Ht1 & Ht1r).
    rewrite Js_nth_zero.
    destruct (head (orderedTimestamps (stateRef (batchHook acc)))) as [earliest|] eqn:Hhead.
    2:{ apply head_None in Hhead. rewrite Hhead in Ht1. by apply elem_of_nil in Ht1. }
    assert (Hleast : ∀ t, t ∈ orderedTimestamps (stateRef (batchHook acc)) → earliest ≤ t).
    { intros t Ht. by apply (strictlyIncreasing_head_least _ _ _ Hss Hhead). }
    destruct (Hdense A HAal HA) as (tA & HtA & HtAr).
    assert (HtA' : tA ∈ orderedTimestamps (stateRef (batchHook acc))).
    { apply Hks, Hknown. split; [done|lia]. }
    assert (Hel : earliest ∈ orderedTimestamps (stateRef (batchHook acc)))
      by by apply head_elem_of.
    assert (Hlow : A' ≤ earliest).
    { destruct (Hsk _ Hel) as [Hk|[Hts Hr]].
      - apply Hknown in Hk as [Hts Hr]. specialize (Hlo _ Hts). subst A'. lia.
      - specialize (Hlo _ Hts). subst A'. lia. }
    pose proof (Hleast _ Ht1). pose proof (Hleast _ HtA').
    pose proof (round_le earliest c Hcal ltac:(lia)).
    pose proof (round_le earliest A HAal ltac:(lia)).
    pose proof (round_ge earliest A' HA'al Hlow).
    pose proof (round_aligned earliest).
    cbn [fst snd]. unfold BACKFILL_STEP_MS.
    eexists _, A', (roundToPrevious10s earliest - 10000).
    split; [reflexivity|]. split.
    + eapply (readyAt_next ts lo hi A c); try done.
      * Z.div_mod_to_equations. lia.
      * lia.
    + unfold passesLeft. subst A'. Z.div_mod_to_equations. lia.
  - assert (Hsawt : sawFramesH acc = true) by by apply Hsaw.
    rewrite Hsawt. cbn [negb].
    destruct (earliestFetchedH acc) as [earliest|]; [|congruence].
    destruct Hearliest as (Heal & Hec & (te & [Htes Hter] & Hte) & Hemin).
    destruct (Hdense (Z.max lo (c - 90000))) as (tm & Htm & Htmr);
      [Z.div_mod_to_equations; lia|lia|].
    assert (earliest ≤ tm) by (apply Hemin; split; [done|lia]).
    pose proof (Hlo _ Htes).
    cbn [fst snd]. unfold BACKFILL_STEP_MS.
    eexists _, A', (earliest - 10000).
    split; [reflexivity|]. split.
    + eapply (readyAt_next ts lo hi A c); try done.
      * Z.div_mod_to_equations. lia.
      * subst A'. Z.div_mod_to_equations. lia.
    + unfold passesLeft. subst A'. Z.div_mod_to_equations. lia.
Qed.

(** [markHasFirstFrame]: the state has the flag from the moment the
    updater is applied; [stateRef] shows it then or at the next
    render. *)
Lemma markHasFirstFrameH_marks (atOnce : bool) h :
  hasFirstFrame (state (applied (markHasFirstFrameH atOnce h))) = true
  ∧ isBackfilling (state (applied (markHasFirstFrameH atOnce h))) = false
  ∧ orderedTimestamps (state (applied (markHasFirstFrameH atOnce h)))
    = orderedTimestamps (state (applied h))
  ∧ backfillCursorRef (applied (markHasFirstFrameH atOnce h)) = None
  ∧ stateRef (markHasFirstFrameH atOnce h)
    = (if atOnce then state (applied (markHasFirstFrameH atOnce h)) else stateRef h).
Proof.
  unfold markHasFirstFrameH, onRefs, setFrameStateH, setFrameState, markHasFirstFrame_state.
  cbn [applied stateRef].
  destruct (hasFirstFrame (state (applied h))) eqn:Hf,
           (isBackfilling (state (applied h))) eqn:Hb, atOnce; simpl; by rewrite ?Hf, ?Hb.
Qed.

(** The pass that starts below the first slice of the history finds
    that all ten requests bring nothing, marks the start of the event
    and ends the loop, the index holding the whole history. *)
Lemma backfillPassH_last fetch ts (lo hi A c : Z) sched h :
  servesSlices fetch ts →
  fillsSlices ts lo hi →
  readyAt ts lo hi A c h →
  c < lo →
  ∃ h',
    backfillPassH fetch sched h = (h', false)
    ∧ hasFirstFrame (state (applied h')) = true
    ∧ orderedTimestamps (state (applied h')) = ts.
Proof.
  intros Hserve Hfill Hready Hloc.
  destruct (backfillTargetsH_ready ts lo hi A c sched h Hfill Hready)
    as (h0 & Htargets & Hcur0 & Hm0 & Hc0 & Hs0 & Hv0).
  pose proof Hfill as (Hsorted & Hloal & Hlo & Hdense).
  destruct Hready as (Hm & Hc & Hfs & Hfl & Hots & Hs & Hmem & HAal & HA & Hcal & Hcr & _).
  unfold backfillPassH. rewrite Htargets. cbv zeta.
  destruct (inFlight_render (renderedInFlight sched) h0) as (Ha1 & Hv1').
  set (h1 := if renderedInFlight sched then render h0 else h0) in *. clearbody h1.
  assert (Hs1 : state (applied h1) = state (applied h)) by by rewrite Ha1.
  assert (Hf1 : hasFirstFrame (stateRef h1) = false).
  { destruct Hv1' as [->| ->]; by rewrite ?Hv0, ?Hs0. }
  assert (Ho1 : orderedTimestamps (stateRef h1) = orderedTimestamps (state (applied h))).
  { destruct Hv1' as [->| ->]; by rewrite ?Hv0, ?Hs0. }
  assert (Hstart : batchKeeps ts c h1 (mkBatchProgressH h1 false false None 0)).
  { apply batchKeeps_start; by rewrite ?Hs1. }
  destruct (processResultH_batch fetch ts c (mergeAtOnce sched) h1 10 _ Hserve Hcal Hstart)
    as [Hkeeps Hten].
  cbn [settledH] in Hkeeps, Hten.
  unfold backfillSettledH. cbv zeta.
  change BACKFILL_CONCURRENCY with 10%nat.
  set (acc := foldl (processResultH (mergeAtOnce sched))
                (mkBatchProgressH h1 false false None 0) _) in *.
  clearbody acc.
  assert (Hknown : ∀ t, t ∈ orderedTimestamps (stateRef h1) ↔ t ∈ ts ∧ A ≤ t).
  { intros t. by rewrite Ho1. }
  destruct Hkeeps as (_ & _ & _ & Hfl' & _ & Hsl & Hml & _ & _ & Hsk & Hany & Hsaw & _).
  assert (HA0 : A = lo) by (Z.div_mod_to_equations; lia).
  assert (Hnone : ¬ ∃ t, t ∈ ts
                    ∧ c + 10000 - 10000 * Z.of_nat (settledH acc) ≤ t < c + 10000).
  { intros (t & Hts & Ht). specialize (Hlo _ Hts). Z.div_mod_to_equations. lia. }
  assert (Hprogress : anyProgressH acc = false).
  { destruct (anyProgressH acc); [|done].
    destruct (Hany eq_refl) as (t & Ht & Htr).
    destruct (Hsk _ Ht) as [Hk|[Hts _]].
    - apply Hknown in Hk as [Hts _]. specialize (Hlo _ Hts). Z.div_mod_to_equations. lia.
    - specialize (Hlo _ Hts). Z.div_mod_to_equations. lia. }
  assert (Hsawf : sawFramesH acc = false).
  { destruct (sawFramesH acc); [|done]. exfalso. apply Hnone. by apply Hsaw. }
  rewrite Hprogress, Hsawf. cbn [negb fst snd].
  destruct (markHasFirstFrameH_marks (markAtOnce sched) (batchHook acc))
    as (Hmark & _ & Hsame & _).
  eexists. split; [reflexivity|]. split; [exact Hmark|].
  rewrite Hsame. apply strictlyIncreasing_same_elements; [done..|].
  intros t. rewrite Hml, Hknown. split.
  - intros [[Hts _]|[Hts _]]; done.
  - intros Hts. left. split; [done|]. specialize (Hlo _ Hts). lia.
Qed.

(** The loop ends within [passesLeft] passes, whatever React defers in
    each of them. *)
Lemma backfillLoopH_ends fetch ts (lo hi : Z) (scheds : nat → PassSchedule) :
  servesSlices fetch ts →
  fillsSlices ts lo hi →
  ∀ (fuel pass : nat) (A c : Z) h,
    readyAt ts lo hi A c h →
    passesLeft lo A c ≤ Z.of_nat fuel →
    ∃ h',
      backfillLoopH fuel fetch scheds pass h = Some h'
      ∧ hasFirstFrame (state (applied h')) = true
      ∧ orderedTimestamps (state (applied h')) = ts.
Proof.
  intros Hserve Hfill fuel.
  induction fuel as [|fuel IH]; intros pass A c h Hready Hfuel.
  - exfalso. destruct Hready as (_ & _ & _ & _ & _ & _ & _ & HAal & HA & Hcal & Hcr & _).
    destruct Hfill as (_ & Hloal & _). unfold passesLeft in Hfuel.
    Z.div_mod_to_equations. lia.
  - pose proof Hready as (Hm & Hc & _).
    cbn [backfillLoopH]. rewrite Hm, Hc. cbn [negb andb]. cbv zeta.
    destruct (decide (lo ≤ c)) as [Hle|Hlt].
    + destruct (backfillPassH_round fetch ts lo hi A c (scheds pass) h Hserve Hfill
                  Hready Hle) as (h' & A' & c' & -> & Hready' & Hless).
      cbn [fst snd]. apply (IH (S pass) A' c' h' Hready'). lia.
    + destruct (backfillPassH_last fetch ts lo hi A c (scheds pass) h Hserve Hfill
                  Hready ltac:(lia)) as (h' & -> & Hmark & Hall).
      cbn [fst snd]. by exists h'.
Qed.

(** The [finally] block keeps the index and the flag of the state,
    and leaves [isBackfilling] unset. *)
Lemma backfillFinallyH_state (atOnce : bool) h :
  hasFirstFrame (state (applied (backfillFinallyH atOnce h)))
  = hasFirstFrame (state (applied h))
  ∧ orderedTimestamps (state (applied (backfillFinallyH atOnce h)))
    = orderedTimestamps (state (applied h))
  ∧ isBackfilling (state (applied (backfillFinallyH atOnce h))) = false
  ∧ backfillRunningRef (applied (backfillFinallyH atOnce h)) = false.
Proof.
  unfold backfillFinallyH. cbv zeta.
  set (h2 := setFrameStateH atOnce _ _).
  assert (Es : state (applied (ensureSchedulerH h2)) = state (applied h2)) by done.
  rewrite Es.
  assert (Er : backfillRunningRef (applied (ensureSchedulerH h2))
               = backfillRunningRef (applied h2)).
  { unfold ensureSchedulerH, onStateRef, ensureScheduler, startScheduler, scheduleNextFrame.
    cbn [applied]. repeat (case_match; try done). }
  rewrite Er. subst h2.
  unfold setFrameStateH, setFrameState, onRefs. cbn [applied].
  destruct (isBackfilling (state (applied h))) eqn:Hb; simpl; by rewrite ?Hb.
Qed.

(** *** A history at a fixed spacing *)

Lemma elem_of_historyFrom (base step : Z) (a k : nat) (t : Z) :
  t ∈ historyFrom base step a k ↔ ∃ i : nat, (a ≤ i < a + k)%nat ∧ t = frameTs base step i.
Proof.
  unfold historyFrom. rewrite list_elem_of_fmap. split.
  - intros (i & -> & Hi%elem_of_seq). by exists i.
  - intros (i & Hi & ->). exists i. split; [done|]. by apply elem_of_seq.
Qed.

Lemma elem_of_history (base step : Z) (N : nat) (t : Z) :
  t ∈ history base step N ↔ ∃ i : nat, (i < N)%nat ∧ t = frameTs base step i.
Proof.
  change (history base step N) with (historyFrom base step 0 N).
  rewrite elem_of_historyFrom. split; intros (i & Hi & ->); exists i; (split; [lia|done]).
Qed.

Lemma frameTs_lt (base step : Z) (i j : nat) :
  0 < step → (i < j)%nat → frameTs base step i < frameTs base step j.
Proof. unfold frameTs. intros. nia. Qed.

Lemma frameTs_le (base step : Z) (i j : nat) :
  0 < step → (i ≤ j)%nat → frameTs base step i ≤ frameTs base step j.
Proof. unfold frameTs. intros. nia. Qed.

Lemma historyFrom_strict (base step : Z) (a k : nat) :
  0 < step → strictlyIncreasing (historyFrom base step a k).
Proof.
  intros Hstep. revert a. induction k as [|k IH]; intros a; [constructor|].
  change (historyFrom base step a (S k))
    with (frameTs base step a :: historyFrom base step (S a) k).
  constructor; [apply IH|].
  apply Forall_forall. intros x (i & Hi & ->)%elem_of_historyFrom.
  apply frameTs_lt; [done|lia].
Qed.

(** Frames no more than 10 s apart leave no slice empty. *)
Lemma history_fillsSlices (base step : Z) (N : nat) :
  0 < step ≤ 10000 → (0 < N)%nat →
  fillsSlices (history base step N) (roundToPrevious10s base)
    (roundToPrevious10s (frameTs base step (N - 1))).
Proof.
  intros Hstep HN. split; [apply (historyFrom_strict base step 0 N); lia|].
  split; [apply round_aligned|]. split.
  - intros t (i & Hi & ->)%elem_of_history.
    pose proof (round_below base). unfold frameTs. nia.
  - intros cursor Hal [Hlo Hhi].
    pose proof (round_below base) as Hb.
    pose proof (round_below (frameTs base step (N - 1))) as Hl.
    destruct (decide (cursor ≤ base)) as [Hle|Hgt].
    + exists (frameTs base step 0). split.
      * apply elem_of_history. exists 0%nat. split; [lia|done].
      * unfold frameTs. lia.
    + set (q := (cursor - base + step - 1) `div` step).
      pose proof (Z.div_mod (cursor - base + step - 1) step ltac:(lia)) as Hdm.
      pose proof (Z.mod_pos_bound (cursor - base + step - 1) step ltac:(lia)) as Hmod.
      fold q in Hdm. clearbody q.
      assert (Hq : 0 < q).
      { apply Z.nle_gt. intros Hq0.
        assert (step * q ≤ step * 0) by (apply Z.mul_le_mono_nonneg_l; lia). lia. }
      assert (HqN : q < Z.of_nat (N - 1) + 1).
      { apply (Z.mul_lt_mono_pos_l step); [lia|].
        rewrite Z.mul_add_distr_l. unfold frameTs in Hl, Hhi. lia. }
      exists (frameTs base step (Z.to_nat q)). split.
      * apply elem_of_history. exists (Z.to_nat q). split; [lia|done].
      * unfold frameTs. rewrite Z2Nat.id by lia. lia.
Qed.

(** The hook on which the loop of [runBackfill] starts. *)
Lemma runBackfillH_ready (base step : Z) (N n0 : nat) (run : RunSchedule) h :
  0 < step ≤ 10000 →
  (n0 < N)%nat →
  (∀ i : nat, (i < n0)%nat →
     frameTs base step i < roundToPrevious10s (frameTs base step n0)) →
  isMountedRef (applied h) = true →
  backfillCursorRef (applied h) = None →
  hasFirstFrame (state (applied h)) = false →
  orderedTimestamps (state (applied h)) = historyFrom base step n0 (N - n0) →
  stateRef h = state (applied h) →
  let A := roundToPrevious10s (frameTs base step n0) in
  readyAt (history base step N) (roundToPrevious10s base)
    (roundToPrevious10s (frameTs base step (N - 1))) A (A - 10000)
    (setFrameStateH (startAtOnce run)
       (λ prev, if isBackfilling prev then prev else with_isBackfilling true prev)
       (onRefs (λ e, with_backfillFlags true (backfillStartedRef e) false e) h))
  ∧ A - roundToPrevious10s base ≤ 10000 * Z.of_nat n0.
Proof.
  intros Hstep Hn0 Halign Hm Hcur Hf Hots Hsync. cbv zeta.
  set (h2 := setFrameStateH (startAtOnce run) _ _).
  set (A := roundToPrevious10s (frameTs base step n0)).
  assert (Hs2 : hasFirstFrame (state (applied h2)) = false
                ∧ orderedTimestamps (state (applied h2))
                  = historyFrom base step n0 (N - n0)).
  { subst h2. unfold setFrameStateH, setFrameState, onRefs. simpl.
    destruct (isBackfilling (state (applied h))); simpl; by rewrite ?Hf, ?Hots. }
  destruct Hs2 as [Hf2 Hots2].
  assert (Hv2 : hasFirstFrame (stateRef h2) = false
                ∧ orderedTimestamps (stateRef h2)
                  = historyFrom base step n0 (N - n0)).
  { subst h2. unfold setFrameStateH. cbn [stateRef].
    destruct (startAtOnce run); [done|]. cbn [onRefs stateRef].
    by rewrite Hsync, Hf, Hots. }
  destruct Hv2 as [Hfv Hotsv].
  pose proof (round_below base) as Hb.
  pose proof (round_below (frameTs base step n0)) as Hn.
  pose proof (round_below (frameTs base step (N - 1))) as Hl.
  pose proof (round_aligned base) as Hbal.
  pose proof (round_aligned (frameTs base step n0)) as Hnal.
  pose proof (round_aligned (frameTs base step (N - 1))) as Hlal.
  pose proof (frameTs_le base step 0 n0 ltac:(lia) ltac:(lia)) as H0n.
  pose proof (frameTs_le base step n0 (N - 1) ltac:(lia) ltac:(lia)) as HnN.
  change (frameTs base step 0) with (base + step * 0) in H0n.
  fold A in Hn, Hnal.
  split.
  - unfold readyAt.
    split; [subst h2; exact Hm|]. split; [done|]. split; [done|]. split; [done|].
    split; [by rewrite Hots2, Hotsv|].
    split; [rewrite Hots2; apply historyFrom_strict; lia|].
    split.
    { intros t. rewrite Hots2, elem_of_historyFrom, elem_of_history. split.
      - intros (i & Hi & ->). split; [exists i; split; [lia|done]|].
        pose proof (frameTs_le base step n0 i ltac:(lia) ltac:(lia)). lia.
      - intros [(i & Hi & ->) HA]. exists i. split; [|done].
        destruct (decide (n0 ≤ i)%nat); [lia|].
        specialize (Halign i ltac:(lia)). fold A in Halign. lia. }
    split; [done|].
    split; [Z.div_mod_to_equations; lia|].
    split; [Z.div_mod_to_equations; lia|].
    split; [Z.div_mod_to_equations; lia|].
    right. split; [subst h2; exact Hcur|done].
  - unfold frameTs in Hn. Z.div_mod_to_equations. nia.
Qed.

(** [runBackfill] on a history whose frames are no more than 10 s
    apart, the index holding the frames from number [n0] on, the
    first of which opens its slice: the run ends within
    [2 * ceil(n0 / 10) + 1] passes of the loop, with the start of the
    event confirmed and the whole history in the index, whichever
    updates React defers. *)
Lemma runBackfillH_completes fetch (base step : Z) (N n0 : nat) (run : RunSchedule) h :
  0 < step ≤ 10000 →
  (n0 < N)%nat →
  servesSlices fetch (history base step N) →
  (∀ i : nat, (i < n0)%nat →
     frameTs base step i < roundToPrevious10s (frameTs base step n0)) →
  isMountedRef (applied h) = true →
  backfillRunningRef (applied h) = false →
  backfillCursorRef (applied h) = None →
  hasFirstFrame (state (applied h)) = false →
  orderedTimestamps (state (applied h)) = historyFrom base step n0 (N - n0) →
  stateRef h = state (applied h) →
  ∃ h',
    runBackfillH (2 * ((n0 + 9) / 10) + 1) fetch run h = Some h'
    ∧ hasFirstFrame (state (applied h')) = true
    ∧ orderedTimestamps (state (applied h')) = history base step N
    ∧ isBackfilling (state (applied h')) = false
    ∧ backfillRunningRef (applied h') = false.
Proof.
  intros Hstep Hn0 Hserve Halign Hm Hrun Hcur Hf Hots Hsync.
  pose proof (history_fillsSlices base step N Hstep ltac:(lia)) as Hfill.
  destruct (runBackfillH_ready base step N n0 run h Hstep Hn0 Halign Hm Hcur Hf
              Hots Hsync) as [Hready Hspan].
  unfold runBackfillH. rewrite Hrun. cbv zeta.
  set (h2 := setFrameStateH (startAtOnce run) _ _) in *.
  set (A := roundToPrevious10s (frameTs base step n0)) in *.
  destruct (backfillLoopH_ends fetch (history base step N) _ _ (passSchedule run)
              Hserve Hfill (2 * ((n0 + 9) / 10) + 1) 0 A (A - 10000) h2 Hready)
    as (h' & -> & Hmark & Hall).
  { unfold passesLeft.
    rewrite Nat2Z.inj_add, Nat2Z.inj_mul, Nat2Z.inj_div, Nat2Z.inj_add.
    change (Z.of_nat 2) with 2. change (Z.of_nat 9) with 9.
    change (Z.of_nat 10) with 10. change (Z.of_nat 1) with 1.
    pose proof (round_aligned base) as Hbal.
    pose proof (round_aligned (frameTs base step n0)) as Hnal. fold A in Hnal.
    Z.div_mod_to_equations. lia. }
  cbn [fmap option_fmap option_map].
  destruct (backfillFinallyH_state (finallyAtOnce run) h') as (Hf' & Hots' & Hb & Hr).
  exists (backfillFinallyH (finallyAtOnce run) h').
  split; [done|]. by rewrite Hf', Hots'.
Qed.

(** *** A batch that brings nothing *)

Lemma processResultH_noFrames (atOnce : nat → bool) acc (r : option ChunkB')
    (targetCursor : Z) :
  noFrames r →
  processResultH atOnce acc (r, targetCursor)
  = mkBatchProgressH (batchHook acc) (anyProgressH acc) (sawFramesH acc)
      (earliestFetchedH acc) (S (settledH acc)).
Proof.
  destruct r as [[[w d] m]|]; simpl; [|done]. by intros [-> ->].
Qed.

Lemma processResultH_all_empty fetch (atOnce : nat → bool) (targets : list Z) acc :
  Forall (λ cursor, noFrames (fetch cursor)) targets →
  let acc' := foldl (processResultH atOnce) acc
                ((λ targetCursor, (fetch targetCursor, targetCursor)) <$> targets) in
  batchHook acc' = batchHook acc
  ∧ anyProgressH acc' = anyProgressH acc
  ∧ sawFramesH acc' = sawFramesH acc.
Proof.
  intros Hempty. revert acc.
  induction Hempty as [|t targets Ht Hempty IH]; intros acc; [done|].
  rewrite fmap_cons. cbn [foldl]. rewrite processResultH_noFrames by done.
  apply (IH (mkBatchProgressH _ _ _ _ _)).
Qed.

(** A pass whose requests all come back without frames confirms the
    start of the event, resets the cursor and leaves the loop, with
    the index as it was, whatever React defers. *)
Lemma empty_batch_marks_startH fetch sched h :
  hasFirstFrame (stateRef h) = false →
  orderedTimestamps (stateRef h) ≠ [] →
  Forall (λ cursor, noFrames (fetch cursor)) (batchTargetsH h) →
  ∃ h', backfillPassH fetch sched h = (h', false)
        ∧ hasFirstFrame (state (applied h')) = true
        ∧ backfillCursorRef (applied h') = None
        ∧ orderedTimestamps (state (applied h')) = orderedTimestamps (state (applied h)).
Proof.
  intros Hfirst Hne Hempty. unfold backfillPassH, backfillTargetsH. cbv zeta.
  rewrite Hfirst. rewrite decide_False by by rewrite Js_length_zero.
  rewrite Js_nth_zero. unfold batchTargetsH in Hempty.
  destruct (orderedTimestamps (stateRef h)) as [|t0 ts] eqn:Hots; [done|].
  cbn [head]. cbv zeta in Hempty.
  set (h0 := onRefs (with_backfillCursor (Some (roundToPrevious10s t0 - BACKFILL_STEP_MS))) h).
  assert (Hinit : ∃ h1, match backfillCursorRef (applied h) with
                        | Some _ => Some h
                        | None => Some h0
                        end = Some h1
                        ∧ state (applied h1) = state (applied h)
                        ∧ default 0 (backfillCursorRef (applied h1))
                          = default (roundToPrevious10s t0 - BACKFILL_STEP_MS)
                              (backfillCursorRef (applied h))).
  { destruct (backfillCursorRef (applied h)) as [c|] eqn:Hc.
    - exists h. by rewrite Hc.
    - by exists h0. }
  destruct Hinit as (h1 & -> & Hs1 & Hcursor).
  rewrite decide_False by (by unfold Js.length).
  rewrite Hcursor. unfold backfillSettledH. cbv zeta.
  destruct (inFlight_render (renderedInFlight sched) h1) as (Ha1 & _).
  set (h1' := if renderedInFlight sched then render h1 else h1) in *. clearbody h1'.
  destruct (processResultH_all_empty fetch (mergeAtOnce sched) _
              (mkBatchProgressH h1' false false None 0) Hempty) as (-> & -> & ->).
  cbn [anyProgressH sawFramesH batchHook negb fst snd].
  eexists. split; [reflexivity|].
  destruct (markHasFirstFrameH_marks (markAtOnce sched) h1') as (-> & _ & -> & -> & _).
  by rewrite Ha1, Hs1.
Qed.

(** Once [stateRef] shows that the start of the event is confirmed,
    the loop issues no request and changes nothing. *)
Lemma backfillLoopH_after_start (fuel pass : nat) fetch (scheds : nat → PassSchedule) h :
  hasFirstFrame (stateRef h) = true →
  (∀ sched, backfillPassH fetch sched h = (h, false))
  ∧ backfillLoopH (S fuel) fetch scheds pass h = Some h.
Proof.
  intros Hfirst.
  assert (Hpass : ∀ sched, backfillPassH fetch sched h = (h, false)).
  { intros sched. unfold backfillPassH, backfillTargetsH. cbv zeta. by rewrite Hfirst. }
  split; [done|]. cbn [backfillLoopH]. rewrite Hpass. cbn [fst snd].
  by destruct (isMountedRef (applied h) && negb (cancelBackfillRef (applied h))).
Qed.

(** The first pass of a run that has frames to fetch never ends the
    loop. *)
Lemma runBackfillH_one_pass fetch (base step : Z) (N n0 : nat) (run : RunSchedule) h :
  0 < step ≤ 10000 →
  (0 < n0 < N)%nat →
  servesSlices fetch (history base step N) →
  (∀ i : nat, (i < n0)%nat →
     frameTs base step i < roundToPrevious10s (frameTs base step n0)) →
  isMountedRef (applied h) = true →
  backfillRunningRef (applied h) = false →
  backfillCursorRef (applied h) = None →
  hasFirstFrame (state (applied h)) = false →
  orderedTimestamps (state (applied h)) = historyFrom base step n0 (N - n0) →
  stateRef h = state (applied h) →
  runBackfillH 1 fetch run h = None.
Proof.
  intros Hstep Hn0 Hserve Halign Hm Hrun Hcur Hf Hots Hsync.
  pose proof (history_fillsSlices base step N Hstep ltac:(lia)) as Hfill.
  destruct (runBackfillH_ready base step N n0 run h Hstep ltac:(lia) Halign Hm Hcur Hf
              Hots Hsync) as [Hready Hspan].
  unfold runBackfillH. rewrite Hrun. cbv zeta.
  set (h2 := setFrameStateH (startAtOnce run) _ _) in *.
  set (A := roundToPrevious10s (frameTs base step n0)) in *.
  pose proof Hready as (Hm2 & Hc2 & _).
  cbn [backfillLoopH]. rewrite Hm2, Hc2. cbn [negb andb]. cbv zeta.
  destruct (backfillPassH_round fetch _ _ _ A (A - 10000) (passSchedule run 0%nat) h2
              Hserve Hfill Hready) as (h' & A' & c' & -> & (Hm' & Hc' & _) & _).
  { specialize (Halign 0%nat ltac:(lia)). fold A in Halign.
    pose proof (round_below base). pose proof (round_aligned base).
    pose proof (round_aligned (frameTs base step n0)) as HA. fold A in HA.
    unfold frameTs in Halign. Z.div_mod_to_equations. lia. }
  cbn [fst snd]. by rewrite Hm', Hc'.
Qed.

(** No state update of the hook unsets [hasFirstFrame]. *)
Lemma kept_start :
  keptByUpdates (λ s : FrameIndexState FrameWindow FrameDetails GameMetadata,
                   hasFirstFrame s = true).
Proof.
  unfold keptByUpdates.
  split.
  { intros w d m s Hs. rewrite mergeFrames_unfold.
    by destruct (mergeSkips _ _ _ _). }
  split.
  { intros s Hs. unfold showNextFrame_state.
    destruct (playbackPointer s); [cbv zeta; case_decide; [done|];
      by destruct (negb (isFinal s))|].
    destruct (playQueue s); [done|]. by destruct (isLivePaused s). }
  split.
  { intros s Hs. unfold markHasFirstFrame_state. rewrite Hs.
    by destruct (isBackfilling s). }
  split.
  { intros s Hs. unfold goLive_state. by destruct (playbackPointer s). }
  split; [done|]. split; [done|]. split; [done|]. split; [done|]. split; done.
Qed.


End BackfillDeferred.

(** * Commands and timers under React's scheduling *)

Section SchedulingDeferred.
Context {FrameWindow FrameDetails GameMetadata : Type}.
Context `{!FrameAccess FrameWindow FrameDetails}.

Abbreviation StateS := (FrameIndexState FrameWindow FrameDetails GameMetadata).
Abbreviation EngineS := (Engine FrameWindow FrameDetails GameMetadata).
Abbreviation HookS' := (Hook FrameWindow FrameDetails GameMetadata).
Abbreviation PollerS' := (PollerH FrameWindow FrameDetails GameMetadata).
Abbreviation ChunkS := (Chunk FrameWindow FrameDetails GameMetadata).
Implicit Types (h : HookS') (e : EngineS) (s : StateS) (p : PollerS').

(** While the state it reads has the pause flag, scheduling arms
    nothing. *)
Lemma scheduleNextFrame_paused e :
  isMountedRef e = true →
  isLivePaused (state e) = true → schedulerTimerRef (scheduleNextFrame e) = None.
Proof.
  intros Hm Hp. rewrite scheduleNextFrame_timer by done. unfold nextRawDelta.
  rewrite Hp. destruct (playbackPointer (state e)); [done|].
  by destruct (playQueue (state e)).
Qed.

Lemma with_isLivePaused_back s :
  isLivePaused s = false → with_isLivePaused false (with_isLivePaused true s) = s.
Proof. destruct s. simpl. by intros ->. Qed.

(** X12. Pausing keeps the pointers and the play queue, and resuming
    gives the state back.  [pauseLive] clears the scheduler timeout
    and, once its update is applied, only the pause flag differs.
    After a render, [resumeLive] on a session that was not paused
    before the pause restores the state; it arms the timeout that
    scheduling from that state arms when React runs its update during
    the call, and arms none when React defers the update, since
    [startScheduler] then still reads the pause flag from
    [stateRef.current]. *)
Theorem pause_then_resume (pauseAtOnce resumeAtOnce : bool) h :
  isMountedRef (applied h) = true →
  isLivePaused (state (applied h)) = false →
  let paused := pauseLiveH pauseAtOnce h in
  let resumed := resumeLiveH resumeAtOnce (render paused) in
  schedulerTimerRef (applied paused) = None
  ∧ state (applied paused) = with_isLivePaused true (state (applied h))
  ∧ state (applied resumed) = state (applied h)
  ∧ schedulerTimerRef (applied resumed)
    = if resumeAtOnce then schedulerTimerRef (scheduleNextFrame (applied h)) else None.
Proof.
  intros Hm Hp. cbv zeta.
  split; [done|]. split; [done|].
  unfold resumeLiveH, startSchedulerH.
  split.
  { rewrite (proj1 (onStateRef_state _ _)).
    unfold setFrameStateH, setFrameState, render, pauseLiveH, onRefs.
    cbn [applied state with_state]. by apply with_isLivePaused_back. }
  unfold onStateRef. cbn [applied schedulerTimerRef with_state].
  set (seen := with_state _ _).
  assert (Hseen : isMountedRef seen = true ∧ schedulerTimerRef seen = None
                  ∧ state seen = if resumeAtOnce then state (applied h)
                                 else with_isLivePaused true (state (applied h))).
  { subst seen. unfold setFrameStateH, setFrameState, render, pauseLiveH, onRefs.
    cbn [applied state with_state stateRef isMountedRef schedulerTimerRef stopScheduler
         with_schedulerTimer].
    split; [done|]. split; [done|].
    destruct resumeAtOnce; [by apply with_isLivePaused_back|done]. }
  destruct Hseen as (Hsm & Hst & Hss).
  unfold startScheduler. rewrite Hst. cbv zeta.
  match goal with |- context [scheduleNextFrame ?x] => set (x0 := x) end.
  assert (Hx : isMountedRef x0 = true ∧ state x0 = state seen).
  { subst x0. by case_decide. }
  destruct Hx as [Hxm Hxs].
  destruct resumeAtOnce.
  - apply scheduleNextFrame_timer_ext; [done..|]. by rewrite Hxs, Hss.
  - apply scheduleNextFrame_paused; [done|]. by rewrite Hxs, Hss.
Qed.

(** *** Polling once a terminal frame is stored *)

Lemma renderP_frames p :
  polling (renderP p) = polling p
  ∧ framesWindow (pollerStateRef (renderP p)) = framesWindow (state (engine (polling p))).
Proof. done. Qed.

Lemma pollH_terminal (atOnce : bool) (frames : gmap Z FrameWindow) p :
  existsb windowIsTerminal (snd <$> map_to_list frames) = true →
  isMountedRef (engine (polling p)) = true →
  cancelBackfillRef (engine (polling p)) = false →
  pollingInFlightRef (polling p) = false →
  framesWindow (state (engine (polling p))) = frames →
  framesWindow (pollerStateRef p) = frames →
  let p' := (pollH atOnce p).1 in
  (pollH atOnce p).2 = false
  ∧ isMountedRef (engine (polling p')) = true
  ∧ cancelBackfillRef (engine (polling p')) = false
  ∧ pollingInFlightRef (polling p') = false
  ∧ framesWindow (state (engine (polling p'))) = frames
  ∧ framesWindow (pollerStateRef p') = frames
  ∧ finalStateBackoffRef (polling p') = Some FINAL_STATE_BACKOFF_MS
  ∧ pollIntervalRef (polling p') = None.
Proof.
  intros Hterm Hm Hc Hfl Hframes Hseen. cbv zeta. unfold pollH. cbv zeta.
  rewrite Hfl, Hm, Hc. cbn [negb orb onPoller pollerStateRef].
  rewrite Hseen, Hterm.
  destruct (isFinal (pollerStateRef p)) eqn:Hfin; cbn [negb andb fst snd].
  - cbn. by rewrite Hm, Hc, Hframes, Hseen.
  - destruct atOnce; cbn; by rewrite Hm, Hc, Hframes, ?Hseen.
Qed.

Lemma fireBackoffTimerH_terminal (resetAtOnce pollAtOnce : bool)
    (frames : gmap Z FrameWindow) p :
  existsb windowIsTerminal (snd <$> map_to_list frames) = true →
  isMountedRef (engine (polling p)) = true →
  cancelBackfillRef (engine (polling p)) = false →
  pollingInFlightRef (polling p) = false →
  framesWindow (state (engine (polling p))) = frames →
  framesWindow (pollerStateRef p) = frames →
  finalStateBackoffRef (polling p) = Some FINAL_STATE_BACKOFF_MS →
  pollIntervalRef (polling p) = None →
  let p' := (fireBackoffTimerH resetAtOnce pollAtOnce p).1 in
  (fireBackoffTimerH resetAtOnce pollAtOnce p).2 = false
  ∧ isMountedRef (engine (polling p')) = true
  ∧ cancelBackfillRef (engine (polling p')) = false
  ∧ pollingInFlightRef (polling p') = false
  ∧ framesWindow (state (engine (polling p'))) = frames
  ∧ framesWindow (pollerStateRef p') = frames
  ∧ finalStateBackoffRef (polling p') = Some FINAL_STATE_BACKOFF_MS
  ∧ pollIntervalRef (polling p') = None.
Proof.
  intros Hterm Hm Hc Hfl Hframes Hseen Hb Hi. cbv zeta.
  unfold fireBackoffTimerH. rewrite Hb, Hm, Hc. cbn [negb orb].
  unfold startLivePollingH.
  apply pollH_terminal; try done.
  destruct resetAtOnce; cbn; by rewrite ?Hframes, ?Hseen.
Qed.

(** X16. Once a terminal window frame is stored and [stateRef] shows
    it, polling never fetches again, whichever updates React defers:
    the next poll issues no request, clears the poll timeout and arms
    the 60 s backoff; and each time the backoff fires, whether or not
    a render came first, the poll it starts finds the terminal frame
    still stored and does the same, again without a request.  (The
    [isFinal] flag itself is reset by each firing and may or may not
    be set again, depending on what [stateRef] shows to the poll.) *)
Theorem terminal_frame_ends_fetching p (t : Z) (f : FrameWindow) (atOnce : bool)
    (firings : list (bool * bool * bool)) :
  isMountedRef (engine (polling p)) = true →
  cancelBackfillRef (engine (polling p)) = false →
  pollingInFlightRef (polling p) = false →
  framesWindow (state (engine (polling p))) !! t = Some f →
  windowIsTerminal f = true →
  framesWindow (pollerStateRef p) = framesWindow (state (engine (polling p))) →
  let halted := afterBackoffsH firings (pollH atOnce p).1 in
  (pollH atOnce p).2 = false
  ∧ (∀ rendered resetAtOnce pollAtOnce : bool,
       (fireBackoffTimerH resetAtOnce pollAtOnce
          (if rendered then renderP halted else halted)).2 = false)
  ∧ finalStateBackoffRef (polling halted) = Some 60000
  ∧ pollIntervalRef (polling halted) = None
  ∧ framesWindow (state (engine (polling halted)))
    = framesWindow (state (engine (polling p))).
Proof.
  intros Hm Hc Hfl Hf Hterm Hseen. cbv zeta.
  set (frames := framesWindow (state (engine (polling p)))) in *.
  assert (Hex : existsb windowIsTerminal (snd <$> map_to_list frames) = true)
    by (by eapply terminal_stored).
  destruct (pollH_terminal atOnce frames p Hex Hm Hc Hfl eq_refl Hseen)
    as (H1 & H2 & H3 & H4 & H5 & H6 & H7 & H8).
  split; [done|].
  set (p0 := (pollH atOnce p).1) in *. clearbody p0.
  assert (Hall : ∀ q : PollerS',
            isMountedRef (engine (polling q)) = true →
            cancelBackfillRef (engine (polling q)) = false →
            pollingInFlightRef (polling q) = false →
            framesWindow (state (engine (polling q))) = frames →
            framesWindow (pollerStateRef q) = frames →
            finalStateBackoffRef (polling q) = Some FINAL_STATE_BACKOFF_MS →
            pollIntervalRef (polling q) = None →
            let q' := afterBackoffsH firings q in
            isMountedRef (engine (polling q')) = true
            ∧ cancelBackfillRef (engine (polling q')) = false
            ∧ pollingInFlightRef (polling q') = false
            ∧ framesWindow (state (engine (polling q'))) = frames
            ∧ framesWindow (pollerStateRef q') = frames
            ∧ finalStateBackoffRef (polling q') = Some FINAL_STATE_BACKOFF_MS
            ∧ pollIntervalRef (polling q') = None).
  { clear H2 H3 H4 H5 H6 H7 H8.
    induction firings as [|[[rendered r1] r2] firings IH]; intros q Q2 Q3 Q4 Q5 Q6 Q7 Q8;
      [done|].
    cbv zeta.
    change (afterBackoffsH ((rendered, r1, r2) :: firings) q)
      with (afterBackoffsH firings
              (fireBackoffTimerH r1 r2 (if rendered then renderP q else q)).1).
    set (q1 := if rendered then renderP q else q).
    assert (Hq1 : polling q1 = polling q ∧ framesWindow (pollerStateRef q1) = frames).
    { subst q1. destruct rendered; [|done]. by rewrite (proj2 (renderP_frames q)). }
    destruct Hq1 as [Hq1 Hq1'].
    destruct (fireBackoffTimerH_terminal r1 r2 frames q1 Hex)
      as (_ & J2 & J3 & J4 & J5 & J6 & J7 & J8); try (by rewrite Hq1); [done|].
    by apply IH. }
  destruct (Hall p0 H2 H3 H4 H5 H6 H7 H8) as (I2 & I3 & I4 & I5 & I6 & I7 & I8).
  split; [|done].
  intros rendered r1 r2.
  set (q1 := if rendered then renderP _ else _).
  assert (Hq1 : polling q1 = polling (afterBackoffsH firings p0)
                ∧ framesWindow (pollerStateRef q1) = frames).
  { subst q1. destruct rendered; [|done]. by rewrite (proj2 (renderP_frames _)). }
  destruct Hq1 as [Hq1 Hq1'].
  by destruct (fireBackoffTimerH_terminal r1 r2 frames q1 Hex)
    as (J1 & _); try (by rewrite Hq1).
Qed.

(** *** Stopping backfill *)

Lemma processResultH_all_failed (atOnce : nat → bool) (cursors : list Z)
    (acc : BatchProgressH FrameWindow FrameDetails GameMetadata) :
  let acc' := foldl (processResultH atOnce) acc ((λ cursor, (None, cursor)) <$> cursors) in
  batchHook acc' = batchHook acc
  ∧ anyProgressH acc' = anyProgressH acc
  ∧ sawFramesH acc' = sawFramesH acc.
Proof.
  revert acc. induction cursors as [|c cursors IH]; intros acc; [done|].
  rewrite fmap_cons. cbn [foldl]. apply (IH (processResultH atOnce acc (None, c))).
Qed.


(** *** A pass that brings frames *)

(** What going through settled results keeps, whatever they bring:
    [hasFirstFrame] is as on the hook the batch started on, the
    index that [stateRef] shows stays non-empty, and once a result
    brought frames [sawFrames] is set and the earliest slice
    recorded. *)
Lemma processResultH_saw (atOnce : nat → bool) (result : option ChunkS * Z)
    (acc : BatchProgressH FrameWindow FrameDetails GameMetadata) :
  orderedTimestamps (stateRef (batchHook acc)) ≠ [] →
  (sawFramesH acc = true → is_Some (earliestFetchedH acc)) →
  let acc' := processResultH atOnce acc result in
  orderedTimestamps (stateRef (batchHook acc')) ≠ []
  ∧ (sawFramesH acc' = true → is_Some (earliestFetchedH acc'))
  ∧ hasFirstFrame (state (applied (batchHook acc')))
    = hasFirstFrame (state (applied (batchHook acc)))
  ∧ (sawFramesH acc = true ∨ bringsFrames result.1 → sawFramesH acc' = true).
Proof.
  intros Hne Hearliest. cbv zeta.
  destruct result as [[[[w d] m]|] c]; cbn [fst bringsFrames];
    [|cbn; split; [done|]; split; [done|]; split; [done|]; by intros [?|[]]].
  unfold processResultH.
  destruct (bool_decide (Js.length w > 0) || bool_decide (Js.length d > 0)) eqn:Hp.
  - assert (Hpayload : w ≠ [] ∨ d ≠ []).
    { apply orb_true_iff in Hp as [Hp|Hp]; apply bool_decide_eq_true in Hp;
        [left|right]; intros ->; unfold Js.length in Hp; simpl in Hp; lia. }
    cbv zeta. rewrite mergeFramesH_payload by done.
    cbn [fst snd batchHook sawFramesH earliestFetchedH stateRef applied state with_state].
    split.
    { destruct (atOnce (settledH acc)); [|done].
      cbn [mergedState orderedTimestamps]. intros Hnil.
      destruct (proj1 (chunkEpochs_payload w d m) Hpayload) as [t Ht].
      assert (Hin : t ∈ mergedTimestamps (state (applied (batchHook acc))) w d).
      { apply (chunkEpochs_merged w d m). by right. }
      rewrite Hnil in Hin. by apply elem_of_nil in Hin. }
    split; [intros _; destruct (earliestFetchedH acc); [destruct (decide _)|]; by eexists|].
    split; done.
  - cbn. split; [done|]. split; [done|]. split; [done|].
    intros [?|[Hw|Hd]]; [done|exfalso..].
    + apply orb_false_iff in Hp as [Hp _]. apply bool_decide_eq_false in Hp.
      destruct w; [done|]. unfold Js.length in Hp. simpl in Hp. lia.
    + apply orb_false_iff in Hp as [_ Hp]. apply bool_decide_eq_false in Hp.
      destruct d; [done|]. unfold Js.length in Hp. simpl in Hp. lia.
Qed.

Lemma processResultH_saw_batch (atOnce : nat → bool) (results : list (option ChunkS * Z))
    (acc : BatchProgressH FrameWindow FrameDetails GameMetadata) :
  orderedTimestamps (stateRef (batchHook acc)) ≠ [] →
  (sawFramesH acc = true → is_Some (earliestFetchedH acc)) →
  let acc' := foldl (processResultH atOnce) acc results in
  orderedTimestamps (stateRef (batchHook acc')) ≠ []
  ∧ (sawFramesH acc' = true → is_Some (earliestFetchedH acc'))
  ∧ hasFirstFrame (state (applied (batchHook acc')))
    = hasFirstFrame (state (applied (batchHook acc)))
  ∧ (sawFramesH acc = true ∨ Exists (λ r, bringsFrames r.1) results →
     sawFramesH acc' = true).
Proof.
  revert acc. induction results as [|r results IH]; intros acc Hne Hearliest; cbv zeta.
  - cbn [foldl]. split; [done|]. split; [done|]. split; [done|].
    intros [?|Hex]; [done|]. by apply Exists_nil in Hex.
  - cbn [foldl].
    destruct (processResultH_saw atOnce r acc Hne Hearliest) as (S1 & S2 & S3 & S4).
    destruct (IH _ S1 S2) as (I1 & I2 & I3 & I4).
    split; [done|]. split; [done|]. split; [by rewrite I3|].
    intros [Hsaw|Hex]; apply I4.
    + left. apply S4. by left.
    + apply Exists_cons in Hex as [Hr|Hex]; [|by right].
      left. apply S4. by right.
Qed.

(** Settled results of which at least one brings a frame: the pass
    goes round. *)
Lemma backfillSettledH_with_frames (sched : PassSchedule)
    (results : list (option ChunkS * Z)) h1 :
  orderedTimestamps (stateRef h1) ≠ [] →
  hasFirstFrame (state (applied h1)) = false →
  Exists (λ r, bringsFrames r.1) results →
  ∃ h', backfillSettledH sched results h1 = (h', true)
        ∧ hasFirstFrame (state (applied h')) = false
        ∧ is_Some (backfillCursorRef (applied h')).
Proof.
  intros Hne Hfirst Hbrings. unfold backfillSettledH. cbv zeta.
  destruct (processResultH_saw_batch (mergeAtOnce sched) results
              (mkBatchProgressH h1 false false None 0)) as (S1 & S2 & S3 & S4);
    [done|done|].
  set (acc := foldl _ _ results) in *. clearbody acc.
  cbn [batchHook sawFramesH] in S3, S4.
  assert (Hsaw : sawFramesH acc = true) by (apply S4; by right).
  destruct (S2 Hsaw) as [earliest Hearliest].
  assert (Hf2 : hasFirstFrame (state (applied (batchHook acc))) = false)
    by (by rewrite S3).
  rewrite Hsaw, Hearliest, Js_nth_zero. cbn [negb].
  destruct (head (orderedTimestamps (stateRef (batchHook acc)))) as [t1|] eqn:Hhead;
    [|by apply head_None in Hhead].
  destruct (anyProgressH acc); eexists; (split; [reflexivity|]);
    match goal with |- context [ensureSchedulerH ?x] =>
      destruct (ensureSchedulerH_refs x) as (_ & _ & ->);
      rewrite (ensureSchedulerH_state x)
    end; (split; [exact Hf2|by eexists]).
Qed.

(** X19. A pass of the backfill loop in which at least one request
    brings a frame never ends the loop, whichever updates React
    defers: it leaves [hasFirstFrame] unset, sets the cursor for the
    next pass and goes round again.  The start of the event is
    confirmed only by a pass whose requests all come back without
    frames. *)
Theorem pass_with_frames_goes_round (fetch : Z → option ChunkS) (sched : PassSchedule) h :
  stateRef h = state (applied h) →
  hasFirstFrame (stateRef h) = false →
  orderedTimestamps (stateRef h) ≠ [] →
  Exists (λ cursor, bringsFrames (fetch cursor)) (batchTargetsH h) →
  ∃ h', backfillPassH fetch sched h = (h', true)
        ∧ hasFirstFrame (state (applied h')) = false
        ∧ is_Some (backfillCursorRef (applied h')).
Proof.
  intros Hsync Hfirst Hne Hbrings.
  destruct (backfillTargetsH_targets sched h Hfirst Hne)
    as (h1 & Htargets & Hs1 & Hv1).
  unfold backfillPassH. rewrite Htargets. cbv zeta.
  set (h1' := if renderedInFlight sched then render h1 else h1).
  assert (H1' : state (applied h1') = state (applied h)
                ∧ orderedTimestamps (stateRef h1') ≠ []).
  { subst h1'. destruct (renderedInFlight sched); cbn [render applied stateRef].
    - by rewrite Hs1, <- Hsync.
    - by rewrite Hs1, Hv1. }
  destruct H1' as [Hs1' Hne1']. clearbody h1'.
  destruct (backfillSettledH_with_frames sched
              ((λ targetCursor, (fetch targetCursor, targetCursor)) <$> batchTargetsH h)
              h1') as (h' & Hsettled & Hf' & Hc').
  - done.
  - by rewrite Hs1', <- Hsync.
  - apply Exists_fmap. exact Hbrings.
  - rewrite Hsettled. cbn [fst snd]. exists (render h'). by split.
Qed.

(** *** Paced playback *)

(** In manual mode, not paused, the scheduler arms a timeout while the
    playback pointer it reads is before the live pointer. *)
Lemma manual_schedule e (p : Z) :
  isMountedRef e = true →
  playbackPointer (state e) = Some p →
  isLivePaused (state e) = false →
  0 ≤ p →
  livePointer (state e) = Js.length (orderedTimestamps (state e)) - 1 →
  p < livePointer (state e) → is_Some (schedulerTimerRef (scheduleNextFrame e)).
Proof.
  intros Hm Hp Hpause H0 Hlive Hcmp.
  rewrite scheduleNextFrame_timer by done. unfold nextRawDelta.
  rewrite Hp, Hpause. cbn [orb].
  rewrite bool_decide_eq_false_2 by lia.
  destruct (Js_nth_in_range (orderedTimestamps (state e)) (p + 1)) as [a ->]; [lia|].
  destruct (Js_nth_in_range (orderedTimestamps (state e)) p) as [b ->]; [lia|].
  by eexists.
Qed.

(** In live mode, not paused, the scheduler arms a timeout while the
    play queue it reads holds a valid index. *)
Lemma live_schedule e :
  isMountedRef e = true →
  playbackPointer (state e) = None →
  isLivePaused (state e) = false →
  Forall (λ q, 0 ≤ q < Js.length (orderedTimestamps (state e))) (playQueue (state e)) →
  playQueue (state e) ≠ [] → is_Some (schedulerTimerRef (scheduleNextFrame e)).
Proof.
  intros Hm Hp Hpause Hq Hne.
  rewrite scheduleNextFrame_timer by done. unfold nextRawDelta.
  rewrite Hp, Hpause.
  destruct (playQueue (state e)) as [|i q]; [done|].
  apply Forall_cons in Hq as [Hi _].
  destruct (Js_nth_in_range (orderedTimestamps (state e)) i Hi) as [a ->].
  by eexists.
Qed.

(** The timer a tick leaves is the one [scheduleNextFrame] arms from
    what [stateRef] shows after [showNextFrame]. *)
Lemma tick_rendered (atOnce : bool) h (dt : Q) :
  isMountedRef (applied h) = true →
  schedulerTimerRef (applied h) = Some dt →
  let seen := if atOnce then showNextFrame_state (state (applied h)) else stateRef h in
  let h' := render (fireSchedulerTimerH atOnce h) in
  isMountedRef (applied h') = true
  ∧ state (applied h') = showNextFrame_state (state (applied h))
  ∧ stateRef h' = state (applied h')
  ∧ schedulerTimerRef (applied h')
    = schedulerTimerRef (scheduleNextFrame (with_state seen (applied h))).
Proof.
  intros Hm Hdt. cbv zeta. unfold fireSchedulerTimerH. rewrite Hdt.
  unfold schedulerTickH, scheduleNextFrameH, showNextFrameH. rewrite Hm. cbn [negb].
  unfold onStateRef, render, setFrameStateH, setFrameState.
  cbn [applied stateRef state with_state isMountedRef schedulerTimerRef].
  split; [by rewrite scheduleNextFrame_mounted|].
  split; [done|]. split; [done|].
  destruct atOnce; apply scheduleNextFrame_timer_ext; by cbn.
Qed.

(** The hook after [j] timeouts of manual playback that started on
    [h0] at position [p]. *)
Lemma manual_walk h0 (p : Z) (ticks : list bool) :
  wellFormed (state (applied h0)) →
  stateRef h0 = state (applied h0) →
  isMountedRef (applied h0) = true →
  playbackPointer (state (applied h0)) = Some p →
  isLivePaused (state (applied h0)) = false →
  is_Some (schedulerTimerRef (applied h0)) →
  p + Z.of_nat (length ticks) ≤ livePointer (state (applied h0)) →
  let h := afterTimersH ticks h0 in
  isMountedRef (applied h) = true
  ∧ stateRef h = state (applied h)
  ∧ playbackPointer (state (applied h)) = Some (p + Z.of_nat (length ticks))
  ∧ (ticks ≠ [] → displayIndex (state (applied h)) = p + Z.of_nat (length ticks))
  ∧ isLivePaused (state (applied h)) = false
  ∧ orderedTimestamps (state (applied h)) = orderedTimestamps (state (applied h0))
  ∧ livePointer (state (applied h)) = livePointer (state (applied h0))
  ∧ (p + Z.of_nat (length ticks) < livePointer (state (applied h0)) →
     is_Some (schedulerTimerRef (applied h))).
Proof.
  intros Hwf Hsync Hm Hp Hpause Htimer.
  pose proof Hwf as (_ & Hlive & _ & _ & _ & _ & _ & Hpp & _).
  specialize (Hpp p Hp).
  induction ticks as [|atOnce ticks IH] using rev_ind; intros Hk; cbv zeta.
  - cbn [afterTimersH foldl length]. replace (p + Z.of_nat 0) with p by lia.
    repeat split; done.
  - rewrite length_app in Hk |- *. cbn [length] in Hk |- *.
    unfold afterTimersH. rewrite foldl_app. cbn [foldl]. fold (afterTimersH ticks h0).
    destruct IH as (Im & Isync & Ip & _ & Ipause & Iots & Ilive & Iarm); [lia|].
    set (x := afterTimersH ticks h0) in *. clearbody x.
    destruct (Iarm ltac:(lia)) as [dt Hdt].
    destruct (tick_rendered atOnce x dt Im Hdt) as (Tm & Ts & Tsync & Ttimer).
    cbv zeta in Ttimer.
    set (y := render (fireSchedulerTimerH atOnce x)) in *. clearbody y.
    assert (Hshown : showNextFrame_state (state (applied x))
                     = with_displayIndex (p + Z.of_nat (length ticks) + 1)
                         (with_playbackPointer (Some (p + Z.of_nat (length ticks) + 1))
                            (state (applied x)))).
    { unfold showNextFrame_state. rewrite Ip. cbv zeta. case_decide; [done|lia]. }
    rewrite Hshown in Ts, Ttimer.
    replace (p + Z.of_nat (length ticks + 1)) with (p + Z.of_nat (length ticks) + 1) by lia.
    rewrite Ts. cbn [playbackPointer displayIndex isLivePaused orderedTimestamps livePointer
                     with_displayIndex with_playbackPointer].
    split; [done|]. split; [by rewrite Tsync, Ts|]. split; [done|]. split; [done|].
    split; [done|]. split; [done|]. split; [done|].
    intros Hlt. rewrite Ttimer. destruct atOnce.
    + apply (manual_schedule _ (p + Z.of_nat (length ticks) + 1)); cbn; try done; try lia.
      by rewrite Iots, Ilive.
    + apply (manual_schedule _ (p + Z.of_nat (length ticks))); cbn;
        rewrite ?Isync; try done; try lia.
      by rewrite Iots, Ilive.
Qed.

(** X17. Manual playback walks the index one position per timeout,
    whichever updates React defers.  On a mounted hook whose state
    satisfies the index invariant and is shown by [stateRef], playing
    from position [p] with a timeout pending, [k] timeouts with a
    render after each put the playback pointer at [p + k], and the
    display index too once [k >= 1], for every [k] up to the live
    pointer; the index and the live pointer are untouched, and a
    timeout is pending as long as the live pointer is not reached.
    (On the last frame a timeout may or may not be pending: it is when
    React deferred the update of the last step, and then takes the
    step of a playback that runs off the end.) *)
Theorem manual_playback_walks h0 (p : Z) (ticks : list bool) :
  wellFormed (state (applied h0)) →
  stateRef h0 = state (applied h0) →
  isMountedRef (applied h0) = true →
  playbackPointer (state (applied h0)) = Some p →
  isLivePaused (state (applied h0)) = false →
  is_Some (schedulerTimerRef (applied h0)) →
  p + Z.of_nat (length ticks) ≤ livePointer (state (applied h0)) →
  let h := afterTimersH ticks h0 in
  playbackPointer (state (applied h)) = Some (p + Z.of_nat (length ticks))
  ∧ (ticks ≠ [] → displayIndex (state (applied h)) = p + Z.of_nat (length ticks))
  ∧ isLivePaused (state (applied h)) = false
  ∧ orderedTimestamps (state (applied h)) = orderedTimestamps (state (applied h0))
  ∧ livePointer (state (applied h)) = livePointer (state (applied h0))
  ∧ (p + Z.of_nat (length ticks) < livePointer (state (applied h0)) →
     is_Some (schedulerTimerRef (applied h))).
Proof.
  intros Hwf Hsync Hm Hp Hpause Htimer Hle. cbv zeta.
  destruct (manual_walk h0 p ticks Hwf Hsync Hm Hp Hpause Htimer Hle)
    as (_ & _ & Ip & Id & Ipause & Iots & Ilive & Iarm).
  done.
Qed.

(** The hook after the timeouts of live playback that started on
    [h0]. *)
Lemma live_drain h0 (ticks : list bool) :
  wellFormed (state (applied h0)) →
  stateRef h0 = state (applied h0) →
  isMountedRef (applied h0) = true →
  playbackPointer (state (applied h0)) = None →
  isLivePaused (state (applied h0)) = false →
  is_Some (schedulerTimerRef (applied h0)) →
  (length ticks ≤ length (playQueue (state (applied h0))))%nat →
  let h := afterTimersH ticks h0 in
  isMountedRef (applied h) = true
  ∧ stateRef h = state (applied h)
  ∧ playbackPointer (state (applied h)) = None
  ∧ isLivePaused (state (applied h)) = false
  ∧ orderedTimestamps (state (applied h)) = orderedTimestamps (state (applied h0))
  ∧ playQueue (state (applied h)) = drop (length ticks) (playQueue (state (applied h0)))
  ∧ (ticks ≠ [] →
     playQueue (state (applied h0)) !! (length ticks - 1)%nat
     = Some (displayIndex (state (applied h))))
  ∧ ((length ticks < length (playQueue (state (applied h0))))%nat →
     is_Some (schedulerTimerRef (applied h))).
Proof.
  intros Hwf Hsync Hm Hp Hpause Htimer.
  pose proof Hwf as (_ & _ & _ & _ & _ & _ & _ & _ & Hq).
  induction ticks as [|atOnce ticks IH] using rev_ind; intros Hk; cbv zeta.
  - cbn [afterTimersH foldl length]. rewrite drop_0. repeat split; done.
  - rewrite length_app in Hk |- *. cbn [length] in Hk |- *.
    unfold afterTimersH. rewrite foldl_app. cbn [foldl]. fold (afterTimersH ticks h0).
    destruct IH as (Im & Isync & Ip & Ipause & Iots & Iq & _ & Iarm); [lia|].
    set (x := afterTimersH ticks h0) in *. clearbody x.
    destruct (Iarm ltac:(lia)) as [dt Hdt].
    destruct (tick_rendered atOnce x dt Im Hdt) as (Tm & Ts & Tsync & Ttimer).
    cbv zeta in Ttimer.
    set (y := render (fireSchedulerTimerH atOnce x)) in *. clearbody y.
    destruct (lookup_lt_is_Some_2 (playQueue (state (applied h0))) (length ticks))
      as [i Hi]; [lia|].
    assert (Hdrop : drop (length ticks) (playQueue (state (applied h0)))
                    = i :: drop (S (length ticks)) (playQueue (state (applied h0)))).
    { by apply drop_S. }
    assert (Hshown : showNextFrame_state (state (applied x))
                     = with_playQueue (drop (S (length ticks))
                                         (playQueue (state (applied h0))))
                         (with_displayIndex i (state (applied x)))).
    { unfold showNextFrame_state. by rewrite Ip, Iq, Hdrop, Ipause. }
    rewrite Hshown in Ts, Ttimer.
    replace (length ticks + 1)%nat with (S (length ticks)) by lia.
    rewrite Ts. cbn [playbackPointer displayIndex isLivePaused orderedTimestamps playQueue
                     with_displayIndex with_playQueue].
    split; [done|]. split; [by rewrite Tsync, Ts|]. split; [done|]. split; [done|].
    split; [done|]. split; [done|].
    split; [intros _; by rewrite Nat.sub_succ, Nat.sub_0_r|].
    intros Hlt. rewrite Ttimer. destruct atOnce.
    + apply live_schedule; cbn; try done.
      * rewrite Iots. by apply Forall_drop.
      * intros Hnil. apply (f_equal length) in Hnil.
        rewrite length_drop in Hnil. simpl in Hnil. lia.
    + apply live_schedule; cbn; rewrite ?Isync; try done.
      * rewrite Iots, Iq. by apply Forall_drop.
      * by rewrite Iq, Hdrop.
Qed.

(** X18. Live playback reveals the queued frames one per timeout, in
    queue order, whichever updates React defers.  On a mounted hook
    whose state satisfies the index invariant and is shown by
    [stateRef], live and not paused with a timeout pending, [k]
    timeouts with a render after each (for every [k] up to the
    queue's length) leave the queue without its first [k] entries and
    display the [k]-th of them; the session stays live, and a timeout
    is pending as long as the queue is not empty.  (Once the queue is
    empty a timeout may still be pending: it is when React deferred
    the update of the last step, and it then changes nothing.) *)
Theorem live_queue_drains h0 (ticks : list bool) :
  wellFormed (state (applied h0)) →
  stateRef h0 = state (applied h0) →
  isMountedRef (applied h0) = true →
  playbackPointer (state (applied h0)) = None →
  isLivePaused (state (applied h0)) = false →
  is_Some (schedulerTimerRef (applied h0)) →
  (length ticks ≤ length (playQueue (state (applied h0))))%nat →
  let h := afterTimersH ticks h0 in
  playQueue (state (applied h)) = drop (length ticks) (playQueue (state (applied h0)))
  ∧ (ticks ≠ [] →
     playQueue (state (applied h0)) !! (length ticks - 1)%nat
     = Some (displayIndex (state (applied h))))
  ∧ playbackPointer (state (applied h)) = None
  ∧ orderedTimestamps (state (applied h)) = orderedTimestamps (state (applied h0))
  ∧ ((length ticks < length (playQueue (state (applied h0))))%nat →
     is_Some (schedulerTimerRef (applied h))).
Proof.
  intros Hwf Hsync Hm Hp Hpause Htimer Hle. cbv zeta.
  destruct (live_drain h0 ticks Hwf Hsync Hm Hp Hpause Htimer Hle)
    as (_ & _ & Ip & _ & Iots & Iq & Id & Iarm).
  done.
Qed.

End SchedulingDeferred.

(** * Concrete runs under React's scheduling *)

Section DeferredRuns.
Import Synthetic.
Import Sessions.

Lemma served_serves (ts : list Z) : servesSlices (served ts) ts.
Proof.
  intros cursor _. eexists. split; [reflexivity|].
  intros t. unfold chunkEpochs. cbn [fst snd]. rewrite fmap_nil, app_nil_r.
  rewrite <- list_fmap_compose.
  rewrite (list_fmap_ext (windowEpoch ∘ frame) id _ _ (λ _ _ _, eq_refl) eq_refl)
    || idtac.
  rewrite list_elem_of_fmap. split.
  - intros (y & -> & Hy%list_elem_of_filter). cbn. tauto.
  - intros [Hts Hr]. exists t. split; [done|]. by apply list_elem_of_filter.
Qed.

Lemma aligned_from (step : Z) (n0 : nat) :
  (∀ i : nat, (i < n0)%nat → bool_decide (frameTs 0 step i
                                           < roundToPrevious10s (frameTs 0 step n0))) →
  ∀ i : nat, (i < n0)%nat → frameTs 0 step i < roundToPrevious10s (frameTs 0 step n0).
Proof. intros Hall i Hi. exact (bool_decide_unpack _ (Hall i Hi)). Qed.



End DeferredRuns.

(** * The further properties on concrete sessions *)

Section ExtraRuns.
Import Synthetic.
Import Sessions.

Lemma reachable_current_frame_witness :
  orderedTimestamps (state (run mounted session)) ≠ []
  ∧ ∃ t, currentTimestamp (state (run mounted session)) = Some t
         ∧ t ∈ orderedTimestamps (state (run mounted session))
         ∧ (is_Some (currentWindow (state (run mounted session)))
            ∨ is_Some (currentDetails (state (run mounted session)))).
Proof.
  split; [by vm_compute|].
  apply (reachable_current_frame session). by vm_compute.
Defined.

Lemma merged_index_order_independent_witness :
  [earlier3; later1] ≡ₚ [later1; earlier3]
  ∧ orderedTimestamps (mergeAll createInitialState [earlier3; later1])
    = orderedTimestamps (mergeAll createInitialState [later1; earlier3]).
Proof.
  split; [apply perm_swap|].
  apply (merged_index_order_independent [earlier3; later1] [later1; earlier3]).
  apply perm_swap.
Defined.

Lemma live3_strict : strictlyIncreasing (orderedTimestamps live3).
Proof. apply (mergedTimestamps_strict createInitialState (frame <$> [0; 10000; 20000]) []). Qed.

Lemma merge_result_flags_meaning_witness :
  stateRef (hookOf (engineOf live3)) = state (applied (hookOf (engineOf live3)))
  ∧ (addedEarlier
       (mergeFramesH true (frame <$> [-30000; -20000; -10000]) [] None
          (hookOf (engineOf live3))).2 = true
     ↔ ∃ x, (x ∈ windowEpoch <$> (frame <$> [-30000; -20000; -10000])
             ∨ x ∈ detailsEpoch <$> ([] : list Z))
            ∧ ∀ t, t ∈ orderedTimestamps live3 → x < t)
  ∧ addedEarlier
      (mergeFramesH false (frame <$> [-30000; -20000; -10000]) [] None
         (hookOf (engineOf live3))).2 = false.
Proof.
  split; [reflexivity|].
  destruct (merge_result_flags_meaning (frame <$> [-30000; -20000; -10000]) [] None
              (hookOf (engineOf live3)) eq_refl live3_strict)
    as (Hearlier & _ & Hdeferred & _).
  split; [exact Hearlier|exact Hdeferred].
Defined.

Lemma scheduled_delay_bounded_witness :
  schedulerTimerRef (scheduleNextFrame playingDense3) = Some (inject_Z 1000 / 1)%Q
  ∧ (150 <= inject_Z 1000 / 1)%Q ∧ (inject_Z 1000 / 1 <= 4000)%Q.
Proof.
  split; [reflexivity|].
  apply (scheduled_delay_bounded playingDense3 (inject_Z 1000 / 1)%Q); reflexivity.
Defined.

Lemma pause_then_resume_witness :
  isLivePaused (state (applied playingH4)) = false
  ∧ schedulerTimerRef (applied (pauseLiveH true playingH4)) = None
  ∧ state (applied (resumeLiveH true (render (pauseLiveH true playingH4))))
    = state (applied playingH4)
  ∧ schedulerTimerRef (applied (resumeLiveH true (render (pauseLiveH true playingH4))))
    = schedulerTimerRef (scheduleNextFrame (applied playingH4))
  ∧ schedulerTimerRef (applied (resumeLiveH false (render (pauseLiveH true playingH4))))
    = None.
Proof.
  split; [reflexivity|].
  destruct (pause_then_resume true true playingH4 eq_refl eq_refl) as (Ht & _ & Hs & Harm).
  destruct (pause_then_resume true false playingH4 eq_refl eq_refl) as (_ & _ & _ & Hnone).
  split; [exact Ht|]. split; [exact Hs|]. split; [exact Harm|exact Hnone].
Defined.

Lemma queue_relocated_by_timestamp_witness :
  let prev := state queued5 in
  let next := (mergeFrames (frame <$> [-30000; -20000; -10000]) [] None prev).1 in
  playQueue prev = [3; 4]
  ∧ StronglySorted Z.le (playQueue next)
  ∧ ∀ t, (∃ q, q ∈ playQueue next ∧ Js.nth (orderedTimestamps next) q = Some t)
         ↔ (∃ q, q ∈ playQueue prev ∧ Js.nth (orderedTimestamps prev) q = Some t).
Proof.
  cbv zeta. split; [reflexivity|].
  apply (queue_relocated_by_timestamp (frame <$> [-30000; -20000; -10000]) [] None
           (state queued5)).
  - reflexivity.
  - by vm_compute.
  - reflexivity.
Defined.

Lemma backfill_keeps_the_view_witness :
  displayedTs (state behind2) = Some 10000
  ∧ ∃ e', runBackfill 2 history2 behind2 = Some e'
          ∧ orderedTimestamps (state e') = [0; 10000]
          ∧ displayedTs (state e') = Some 10000.
Proof.
  split; [reflexivity|].
  destruct (runBackfill 2 history2 behind2) as [e'|] eqn:Hrun.
  - exists e'. split; [reflexivity|].
    destruct (backfill_keeps_the_view 2 history2 behind2 e' 10000 Hrun) as (Hd & _).
    split; [|apply Hd; reflexivity].
    assert (He : Some e' = runBackfill 2 history2 behind2) by (by rewrite Hrun).
    vm_compute in He. by injection He as ->.
  - vm_compute in Hrun. discriminate Hrun.
Defined.

Lemma quiet_polls_keep_polling_witness :
  let p := pollerOf (engineOf live4) in
  let results := [None; Some ([], [], None)] in
  state (engine (pollRounds results p)) = state (engine p)
  ∧ pollingInFlightRef (pollRounds results p) = false
  ∧ finalStateBackoffRef (pollRounds results p) = finalStateBackoffRef p
  ∧ pollIntervalRef (pollRounds results p) = Some 1000.
Proof.
  apply (quiet_polls_keep_polling [None; Some ([], [], None)] (pollerOf (engineOf live4)));
    try reflexivity.
  - repeat constructor.
  - discriminate.
Defined.

Lemma terminal_frame_ends_fetching_witness :
  let firings := [(true, true, false); (true, false, false)] in
  let halted := afterBackoffsH firings (pollH true finalPoller4).1 in
  framesWindow (state (engine (polling finalPoller4))) !! 30000 = Some (30000, true)
  ∧ (pollH true finalPoller4).2 = false
  ∧ (fireBackoffTimerH true false (renderP halted)).2 = false
  ∧ finalStateBackoffRef (polling halted) = Some 60000
  ∧ pollIntervalRef (polling halted) = None.
Proof.
  cbv zeta. split; [reflexivity|].
  destruct (terminal_frame_ends_fetching finalPoller4 30000 (30000, true) true
              [(true, true, false); (true, false, false)])
    as (H1 & H2 & H3 & H4 & _); [reflexivity..|].
  split; [exact H1|]. split; [exact (H2 true true false)|].
  split; [exact H3|exact H4].
Defined.

Lemma manual_playback_walks_witness :
  let h := afterTimersH [true; false] playingH4 in
  playbackPointer (state (applied playingH4)) = Some 1
  ∧ livePointer (state (applied playingH4)) = 3
  ∧ playbackPointer (state (applied h)) = Some 3
  ∧ displayIndex (state (applied h)) = 3
  ∧ isLivePaused (state (applied h)) = false.
Proof.
  cbv zeta. split; [reflexivity|]. split; [reflexivity|].
  destruct (manual_playback_walks playingH4 1 [true; false])
    as (Hp & Hd & Hl & _).
  - pose proof (reachable_wellFormed toPlaying4) as Hwf.
    assert (Heq : state (run mountEngine toPlaying4) = state (applied playingH4))
      by (by vm_compute).
    rewrite Heq in Hwf. exact Hwf.
  - by vm_compute.
  - by vm_compute.
  - by vm_compute.
  - by vm_compute.
  - exists 4000%Q. by vm_compute.
  - by vm_compute.
  - split; [exact Hp|]. split; [by apply Hd|exact Hl].
Defined.

Lemma live_queue_drains_witness :
  let h := afterTimersH [false; true] queuedH5 in
  playQueue (state (applied queuedH5)) = [3; 4]
  ∧ playQueue (state (applied h)) = []
  ∧ displayIndex (state (applied h)) = 4
  ∧ playbackPointer (state (applied h)) = None.
Proof.
  cbv zeta. split; [reflexivity|].
  destruct (live_queue_drains queuedH5 [false; true]) as (Hq & Hd & Hp & _).
  - pose proof (reachable_wellFormed toStarted5) as Hwf.
    assert (Heq : state (run mountEngine toStarted5) = state (applied queuedH5))
      by (by vm_compute).
    rewrite Heq in Hwf. exact Hwf.
  - by vm_compute.
  - by vm_compute.
  - by vm_compute.
  - by vm_compute.
  - exists 4000%Q. by vm_compute.
  - vm_compute. lia.
  - split; [exact Hq|]. split; [|exact Hp].
    apply (inj Some). rewrite <- Hd by done. reflexivity.
Defined.

Lemma pass_with_frames_goes_round_witness :
  batchTargetsH (behind [10000])
  = [0; -10000; -20000; -30000; -40000; -50000; -60000; -70000; -80000; -90000]
  ∧ bringsFrames (served [0; 10000] 0)
  ∧ ∃ h', backfillPassH (served [0; 10000]) (passSchedule firstAtOnce 0) (behind [10000])
          = (h', true)
          ∧ hasFirstFrame (state (applied h')) = false
          ∧ is_Some (backfillCursorRef (applied h')).
Proof.
  split; [reflexivity|]. split; [by left|].
  apply (pass_with_frames_goes_round (served [0; 10000]) (passSchedule firstAtOnce 0)
           (behind [10000])); [reflexivity|reflexivity|done|].
  apply Exists_cons_hd. by left.
Defined.


End ExtraRuns.
